(** * dbMap.ts: rewriting a Prisma schema to PascalCase models and camelCase fields

    A shallow embedding of [src/dbMap.ts].  The script reads a schema file,
    queries the catalog of a MySQL database and writes the converted schema:
    here the text of the schema and the two query results (table names, and
    pairs of a table name and a column name) are the arguments of
    [convertToCamelAndPascal] and the converted text is its result.

    Strings are JavaScript strings whose code units all lie below 256 (the
    Latin-1 range): one [ascii] is one code unit.  The regular expressions of
    the source are embedded as direct matchers; each matcher quotes the
    expression it stands for and says why the backtracking search of the
    expression is deterministic on it, and [Reference] cross-checks them
    against a backtracking matcher on sample subjects.  [String.prototype.replace] expands
    the dollar patterns of its template as ECMA-262 prescribes.

    The packages [change-case] and [pluralize] are not part of the repository:
    the walker is parameterised by a [NameLib] that supplies [camelCase],
    [pascalCase] and [singular]; [SpecLib] is an instance of it.

    The two comment scripts are embedded in the same way: [Push] is
    [parsePrismaSchema] of the push script (src/unnamed/part_000), [Clean]
    and [Pull] are the cleaning and the annotation loop of
    [syncMySQLComments] of dbCommentPull.ts, whose query results (table
    comments, column comments) are arguments.  The statements that write to
    the database are left out. *)

From Stdlib Require Import String Ascii List Bool Arith Lia.
Import ListNotations.
Local Open Scope string_scope.
Local Open Scope bool_scope.
Local Open Scope nat_scope.

(* ================================================================== *)
(** ** JavaScript string primitives *)
(* ================================================================== *)

Module Js.

(** The double quote, written by its code so that no literal has to escape it. *)
Definition dquote : ascii := "034"%char.
Definition squote : ascii := "039"%char.

Definition inRange (lo hi : nat) (c : ascii) : bool :=
  (lo <=? nat_of_ascii c) && (nat_of_ascii c <=? hi).

(** [WhiteSpace] and [LineTerminator] code units below 256: TAB, LF, VT, FF,
    CR, SP and NBSP.  This is the set of [\s], [trim], [trimEnd]. *)
Definition isWhiteSpace (c : ascii) : bool :=
  inRange 9 13 c || (nat_of_ascii c =? 32) || (nat_of_ascii c =? 160).

(** Line terminators below 256 (LF, CR): the code units [.] refuses. *)
Definition isLineTerminator (c : ascii) : bool :=
  (nat_of_ascii c =? 10) || (nat_of_ascii c =? 13).

(** [\w] is [[A-Za-z0-9_]]. *)
Definition isWordChar (c : ascii) : bool :=
  inRange 65 90 c || inRange 97 122 c || inRange 48 57 c || (nat_of_ascii c =? 95).

Definition isDigit (c : ascii) : bool := inRange 48 57 c.

Definition digitValue (c : ascii) : nat := nat_of_ascii c - 48.

(** Code units with a different lower-case form: A-Z and the Latin-1 capitals
    (U+00C0..U+00DE except the multiplication sign U+00D7). *)
Definition isUpperCase (c : ascii) : bool :=
  inRange 65 90 c || (inRange 192 222 c && negb (nat_of_ascii c =? 215)).

Definition toLowerUnit (c : ascii) : ascii :=
  if isUpperCase c then ascii_of_nat (nat_of_ascii c + 32) else c.

(** [String.prototype.toLowerCase]. *)
Fixpoint toLowerCase (s : string) : string :=
  match s with
  | EmptyString => EmptyString
  | String c r => String (toLowerUnit c) (toLowerCase r)
  end.

Definition isEmpty (s : string) : bool :=
  match s with EmptyString => true | String _ _ => false end.

(** [String.prototype.trimStart]. *)
Fixpoint trimStart (s : string) : string :=
  match s with
  | EmptyString => EmptyString
  | String c r => if isWhiteSpace c then trimStart r else s
  end.

(** [String.prototype.trimEnd]. *)
Fixpoint trimEnd (s : string) : string :=
  match s with
  | EmptyString => EmptyString
  | String c r =>
      let r' := trimEnd r in
      if isWhiteSpace c && isEmpty r' then EmptyString else String c r'
  end.

(** [String.prototype.trim]. *)
Definition trim (s : string) : string := trimStart (trimEnd s).

(** The longest prefix of code units satisfying [p], and what follows it. *)
Fixpoint span (p : ascii -> bool) (s : string) : string * string :=
  match s with
  | EmptyString => (EmptyString, EmptyString)
  | String c r =>
      if p c then let (a, b) := span p r in (String c a, b)
      else (EmptyString, s)
  end.

(** [Some rest] when [s = p ++ rest]. *)
Fixpoint stripPrefix (p s : string) : option string :=
  match p with
  | EmptyString => Some s
  | String a p' =>
      match s with
      | EmptyString => None
      | String b s' => if Ascii.eqb a b then stripPrefix p' s' else None
      end
  end.

(** [s.startsWith(p)]. *)
Definition startsWith (s p : string) : bool :=
  match stripPrefix p s with Some _ => true | None => false end.

(** The first occurrence of [pat] in [s]: the text before it and after it. *)
Fixpoint findFirst (s pat : string) : option (string * string) :=
  match stripPrefix pat s with
  | Some after => Some (EmptyString, after)
  | None =>
      match s with
      | EmptyString => None
      | String c r =>
          match findFirst r pat with
          | Some (b, a) => Some (String c b, a)
          | None => None
          end
      end
  end.

(** [s.includes(sub)]. *)
Definition includes (s sub : string) : bool :=
  match findFirst s sub with Some _ => true | None => false end.

(** [s.split(sep)] for a one-unit separator. *)
Fixpoint split (sep : ascii) (s : string) : list string :=
  match s with
  | EmptyString => [EmptyString]
  | String c r =>
      if Ascii.eqb c sep then EmptyString :: split sep r
      else match split sep r with
           | [] => [String c EmptyString]
           | h :: t => String c h :: t
           end
  end.

(** [xs.join(sep)]. *)
Fixpoint join (sep : string) (xs : list string) : string :=
  match xs with
  | [] => EmptyString
  | [x] => x
  | x :: rest => x ++ sep ++ join sep rest
  end.

(** The abstract operation GetSubstitution of ECMA-262 for a match without
    named groups: [matched] is the matched text, [before] and [after] the
    text of the subject before and after the match, [captures] the groups. *)
Definition captureText (captures : list (option string)) (index : nat) (ref : string) : string :=
  if (1 <=? index) && (index <=? List.length captures) then
    match nth (index - 1) captures None with
    | Some t => t
    | None => EmptyString
    end
  else ref.

Fixpoint getSubstitution (matched before after : string)
    (captures : list (option string)) (template : string) : string :=
  match template with
  | EmptyString => EmptyString
  | String c t1 =>
      if negb (Ascii.eqb c "$") then String c (getSubstitution matched before after captures t1)
      else
        match t1 with
        | EmptyString => String c EmptyString
        | String d t2 =>
            if Ascii.eqb d "$" then
              String "$" (getSubstitution matched before after captures t2)
            else if Ascii.eqb d "`" then
              before ++ getSubstitution matched before after captures t2
            else if Ascii.eqb d "&" then
              matched ++ getSubstitution matched before after captures t2
            else if Ascii.eqb d squote then
              after ++ getSubstitution matched before after captures t2
            else if isDigit d then
              let one :=
                captureText captures (digitValue d) (String c (String d EmptyString))
                ++ getSubstitution matched before after captures t2 in
              match t2 with
              | EmptyString => one
              | String e t3 =>
                  if isDigit e
                     && (10 * digitValue d + digitValue e <=? List.length captures) then
                    captureText captures (10 * digitValue d + digitValue e)
                      (String c (String d (String e EmptyString)))
                    ++ getSubstitution matched before after captures t3
                  else one
              end
            else String c (getSubstitution matched before after captures t1)
        end
  end.

(** [s.replace(pat, template)] for a string pattern: the first occurrence is
    replaced by the expansion of the template; there are no groups. *)
Definition replaceString (s pat template : string) : string :=
  match findFirst s pat with
  | None => s
  | Some (b, a) => b ++ getSubstitution pat b a [] template ++ a
  end.

(** A [Map] with string keys and values, in insertion order: [set] on a key
    already present keeps its place. *)
Definition Map := list (string * string).

Fixpoint mapGet (m : Map) (k : string) : option string :=
  match m with
  | [] => None
  | (k', v) :: r => if String.eqb k' k then Some v else mapGet r k
  end.

Fixpoint mapSet (m : Map) (k v : string) : Map :=
  match m with
  | [] => [(k, v)]
  | (k', v') :: r => if String.eqb k' k then (k', v) :: r else (k', v') :: mapSet r k v
  end.

(** [a || b] on a possibly undefined string: the empty string is falsy. *)
Definition orElse (a : option string) (b : string) : string :=
  match a with
  | Some (String c r) => String c r
  | _ => b
  end.

(** Truthiness of a [string | null]. *)
Definition truthy (a : option string) : bool :=
  match a with
  | Some (String _ _) => true
  | _ => false
  end.

End Js.

Import Js.

(* ================================================================== *)
(** ** The regular expressions of dbMap.ts *)
(* ================================================================== *)

Module Re.

Definition isQuote (c : ascii) : bool := Ascii.eqb c dquote || Ascii.eqb c squote.

Definition notQuote (c : ascii) : bool := negb (isQuote c).

Definition notLineTerminator (c : ascii) : bool := negb (isLineTerminator c).

(** [/^model\s+(\w+)\s+{/]: group 1.  White space, word characters and the
    brace are pairwise disjoint, so each greedy run is the only choice. *)
Definition matchModelHeader (s : string) : option string :=
  match stripPrefix "model" s with
  | None => None
  | Some r0 =>
      let (ws1, r1) := span isWhiteSpace r0 in
      let (name, r2) := span isWordChar r1 in
      let (ws2, r3) := span isWhiteSpace r2 in
      if isEmpty ws1 || isEmpty name || isEmpty ws2 then None
      else if startsWith r3 "{" then Some name else None
  end.

(** [/@map\s*\(\s*[Q]([^Q]+)[Q]\s*\)/] tried at the start of [s], where [Q]
    stands for the two quote characters (double and single): group 1.  The
    name is the run up to the next quote; a shorter run would have to be
    followed by a quote, which the run does not contain. *)
Definition mapNameAt (s : string) : option string :=
  match stripPrefix "@map" s with
  | None => None
  | Some r0 =>
      match snd (span isWhiteSpace r0) with
      | String "(" r2 =>
          match snd (span isWhiteSpace r2) with
          | String q r4 =>
              if isQuote q then
                let (name, r5) := span notQuote r4 in
                match r5 with
                | String _ r6 =>
                    if isEmpty name then None
                    else if startsWith (snd (span isWhiteSpace r6)) ")" then Some name
                    else None
                | EmptyString => None
                end
              else None
          | EmptyString => None
          end
      | _ => None
      end
  end.

(** The same expression unanchored: the leftmost start that matches. *)
Fixpoint matchMapName (s : string) : option string :=
  match mapNameAt s with
  | Some n => Some n
  | None =>
      match s with
      | EmptyString => None
      | String _ r => matchMapName r
      end
  end.

(** [(?:index|unique|id|fulltext)]: no alternative is a prefix of another, so
    at most one of them matches at a position. *)
Definition stripDirectiveName (s : string) : option string :=
  match stripPrefix "index" s with
  | Some r => Some r
  | None =>
      match stripPrefix "unique" s with
      | Some r => Some r
      | None =>
          match stripPrefix "id" s with
          | Some r => Some r
          | None => stripPrefix "fulltext" s
          end
      end
  end.

(** [/^@@(index|unique|id|fulltext)/] as a test. *)
Definition isDirectiveLine (s : string) : bool :=
  match stripPrefix "@@" s with
  | Some r => match stripDirectiveName r with Some _ => true | None => false end
  | None => false
  end.

Definition inList (c : ascii) : bool := notLineTerminator c && negb (Ascii.eqb c "]").

(** [/@@(?:index|unique|id|fulltext)\s*\(\s*\[(.*?)\]/] tried at the start of
    [s]: group 1.  The lazy [.*?] stops at the first closing bracket and fails
    when a line terminator comes before it. *)
Definition directiveListAt (s : string) : option string :=
  match stripPrefix "@@" s with
  | None => None
  | Some r0 =>
      match stripDirectiveName r0 with
      | None => None
      | Some r1 =>
          match snd (span isWhiteSpace r1) with
          | String "(" r3 =>
              match snd (span isWhiteSpace r3) with
              | String "[" r5 =>
                  let (body, r6) := span inList r5 in
                  if startsWith r6 "]" then Some body else None
              | _ => None
              end
          | _ => None
          end
      end
  end.

(** The same expression unanchored. *)
Fixpoint matchDirective (s : string) : option string :=
  match directiveListAt s with
  | Some l => Some l
  | None =>
      match s with
      | EmptyString => None
      | String _ r => matchDirective r
      end
  end.

(** [(\([^)]*\))?] at the start of [s]: the text of the group and the rest, or
    nothing when there is no opening parenthesis or no closing one after it. *)
Definition takeParams (s : string) : option (string * string) :=
  match s with
  | String "(" r =>
      let (inner, r') := span (fun c => negb (Ascii.eqb c ")")) r in
      match r' with
      | String ")" r'' => Some (String "(" (inner ++ ")"), r'')
      | _ => None
      end
  | _ => None
  end.

(** The loop [while ((m = /(\w+)(\([^)]*\))?/g.exec(s)) !== null)]: the pairs
    (group 1, group 2 or the empty string) in the order of the matches.  Every
    match consumes at least one code unit, so a fuel of the length suffices. *)
Fixpoint scanTokens (fuel : nat) (s : string) : list (string * string) :=
  match fuel with
  | O => []
  | S fuel' =>
      match s with
      | EmptyString => []
      | String c r =>
          if isWordChar c then
            let (w, r1) := span isWordChar s in
            match takeParams r1 with
            | Some (p, r2) => (w, p) :: scanTokens fuel' r2
            | None => (w, EmptyString) :: scanTokens fuel' r1
            end
          else scanTokens fuel' r
      end
  end.

Definition tokens (s : string) : list (string * string) :=
  scanTokens (String.length s) s.

Fixpoint lastNotLineTerminator (s : string) : option ascii :=
  match s with
  | EmptyString => None
  | String c r =>
      match lastNotLineTerminator r with
      | Some d => Some d
      | None => if notLineTerminator c then Some c else None
      end
  end.

(** [/^(\w+)\s+(.+)/]: groups 1 and 2.  After the white space run comes a code
    unit that [.] accepts (every line terminator is white space); only when
    the run reaches the end of the subject does [\s+] give units back, and
    then group 2 is the last unit of the run, other than its first, that is
    not a line terminator. *)
Definition matchField (s : string) : option (string * string) :=
  let (name, r1) := span isWordChar s in
  let (ws, r2) := span isWhiteSpace r1 in
  if isEmpty name || isEmpty ws then None
  else
    match r2 with
    | String _ _ => Some (name, fst (span notLineTerminator r2))
    | EmptyString =>
        match ws with
        | String _ ws' =>
            match lastNotLineTerminator ws' with
            | Some c => Some (name, String c EmptyString)
            | None => None
            end
        | EmptyString => None
        end
    end.

(** [line.replace(re, `$1${mapped} `)] where [re] is built from the anchor
    [^], a group 1 of optional white space (greedy [\s] star), the text of
    [fieldName] and [\s+].  [fieldName] is made of word characters (it is
    group 1 of [matchField]): it stands for itself in the expression and cannot
    start inside the leading white space. *)
Definition replaceFieldName (line fieldName mapped : string) : string :=
  let (indent, r0) := span isWhiteSpace line in
  match stripPrefix fieldName r0 with
  | None => line
  | Some r1 =>
      let (ws, rest) := span isWhiteSpace r1 in
      if isEmpty ws then line
      else
        getSubstitution (indent ++ fieldName ++ ws) EmptyString rest [Some indent]
          ("$1" ++ mapped ++ " ")
        ++ rest
  end.

(** [line.replace(new RegExp(`\\[${escaped}\\]`), template)] where [escaped] is
    [fieldsStr] with every syntax character of regular expressions escaped
    ([.*+?^${}()|[\]\\] each preceded by a backslash): the expression matches
    the text [[fieldsStr]] literally, has no group, and the first occurrence
    in the line is replaced by the expansion of the template. *)
Definition replaceBracketed (line fieldsStr template : string) : string :=
  replaceString line ("[" ++ fieldsStr ++ "]") template.

End Re.

Import Re.

(* ================================================================== *)
(** ** A reference matcher, to cross-check the direct matchers *)
(* ================================================================== *)

Module Reference.

(** The fragment of the syntax of regular expressions that dbMap.ts uses: a
    class of code units, concatenation, alternation (left first), a
    repetition of at least [n] (greedy or lazy) and a numbered group. *)
Inductive Regex : Type :=
| Eps : Regex
| Unit : (ascii -> bool) -> Regex
| Cat : Regex -> Regex -> Regex
| Alt : Regex -> Regex -> Regex
| Rep : bool -> nat -> Regex -> Regex
| Grp : nat -> Regex -> Regex.

Fixpoint lit (s : string) : Regex :=
  match s with
  | EmptyString => Eps
  | String c r => Cat (Unit (Ascii.eqb c)) (lit r)
  end.

Definition Captures := list (nat * string).

Fixpoint take (n : nat) (s : string) : string :=
  match n, s with
  | S k, String c r => String c (take k r)
  | _, _ => EmptyString
  end.

(** The text between the subject [s] and what is left of it, [s']. *)
Definition consumed (s s' : string) : string :=
  take (String.length s - String.length s') s.

(** The backtracking matcher of ECMA-262 in continuation-passing style: the
    continuation [k] receives what is left of the subject and the groups, and
    an alternative is tried when it fails.  An iteration of a repetition
    that consumes nothing is refused.  The fuel bounds the nesting of calls;
    running out of it counts as a failure. *)
Fixpoint run (fuel : nat) (r : Regex) (s : string) (caps : Captures)
    (k : string -> Captures -> option (string * Captures)) : option (string * Captures) :=
  match fuel with
  | O => None
  | S f =>
      match r with
      | Eps => k s caps
      | Unit p =>
          match s with
          | String c s' => if p c then k s' caps else None
          | EmptyString => None
          end
      | Cat a b => run f a s caps (fun s' c' => run f b s' c' k)
      | Alt a b =>
          match run f a s caps k with
          | Some x => Some x
          | None => run f b s caps k
          end
      | Grp i a => run f a s caps (fun s' c' => k s' ((i, consumed s s') :: c'))
      | Rep g (S m) a => run f a s caps (fun s' c' => run f (Rep g m a) s' c' k)
      | Rep true O a =>
          match run f a s caps
                  (fun s' c' =>
                     if String.length s' <? String.length s
                     then run f (Rep true O a) s' c' k else None) with
          | Some x => Some x
          | None => k s caps
          end
      | Rep false O a =>
          match k s caps with
          | Some x => Some x
          | None =>
              run f a s caps
                (fun s' c' =>
                   if String.length s' <? String.length s
                   then run f (Rep false O a) s' c' k else None)
          end
      end
  end.

Definition fuelFor (s : string) : nat := 40 * (String.length s + 5).

(** A match at the start of the subject. *)
Definition matchAt (r : Regex) (s : string) : option (string * Captures) :=
  run (fuelFor s) r s [] (fun s' c => Some (s', c)).

Fixpoint searchFrom (r : Regex) (fuel : nat) (s : string) : option (string * Captures) :=
  match run fuel r s [] (fun s' c => Some (s', c)) with
  | Some x => Some x
  | None =>
      match s with
      | EmptyString => None
      | String _ t => searchFrom r fuel t
      end
  end.

(** The leftmost match. *)
Definition search (r : Regex) (s : string) : option (string * Captures) :=
  searchFrom r (fuelFor s) s.

Fixpoint group (i : nat) (c : Captures) : option string :=
  match c with
  | [] => None
  | (j, t) :: r => if i =? j then Some t else group i r
  end.

Definition ws : Regex := Unit isWhiteSpace.
Definition word : Regex := Unit isWordChar.
Definition dot : Regex := Unit Re.notLineTerminator.
Definition quote : Regex := Unit Re.isQuote.
Definition some (r : Regex) : Regex := Rep true 1 r.
Definition any (r : Regex) : Regex := Rep true 0 r.

(** [/^model\s+(\w+)\s+{/] *)
Definition reModel : Regex :=
  Cat (lit "model") (Cat (some ws) (Cat (Grp 1 (some word)) (Cat (some ws) (lit "{")))).

(** [/@map\s*\(\s*[Q]([^Q]+)[Q]\s*\)/] with [Q] the two quotes. *)
Definition reMap : Regex :=
  Cat (lit "@map") (Cat (any ws) (Cat (lit "(") (Cat (any ws) (Cat quote
    (Cat (Grp 1 (some (Unit Re.notQuote))) (Cat quote (Cat (any ws) (lit ")")))))))).

Definition directiveNames : Regex :=
  Alt (lit "index") (Alt (lit "unique") (Alt (lit "id") (lit "fulltext"))).

(** [/@@(?:index|unique|id|fulltext)\s*\(\s*\[(.*?)\]/] *)
Definition reDirective : Regex :=
  Cat (lit "@@") (Cat directiveNames (Cat (any ws) (Cat (lit "(") (Cat (any ws)
    (Cat (lit "[") (Cat (Grp 1 (Rep false 0 dot)) (lit "]"))))))).

(** [/^@@(index|unique|id|fulltext)/] *)
Definition reDirectiveLine : Regex := Cat (lit "@@") (Grp 1 directiveNames).

(** [/(\w+)(\([^)]*\))?/] *)
Definition reToken : Regex :=
  Cat (Grp 1 (some word))
    (Alt (Grp 2 (Cat (lit "(")
                   (Cat (any (Unit (fun c => negb (Ascii.eqb c ")")))) (lit ")"))))
       Eps).

(** [/^(\w+)\s+(.+)/] *)
Definition reField : Regex :=
  Cat (Grp 1 (some word)) (Cat (some ws) (Grp 2 (some dot))).

Definition refModelHeader (s : string) : option string :=
  match matchAt reModel s with Some (_, c) => group 1 c | None => None end.

Definition refMapName (s : string) : option string :=
  match search reMap s with Some (_, c) => group 1 c | None => None end.

Definition refDirective (s : string) : option string :=
  match search reDirective s with Some (_, c) => group 1 c | None => None end.

Definition refDirectiveLine (s : string) : bool :=
  match matchAt reDirectiveLine s with Some _ => true | None => false end.

Definition refField (s : string) : option (string * string) :=
  match matchAt reField s with
  | Some (_, c) =>
      match group 1 c, group 2 c with
      | Some a, Some b => Some (a, b)
      | _, _ => None
      end
  | None => None
  end.

(** The loop of [exec] with the flag [g]: each search starts where the
    previous match ended. *)
Fixpoint refTokensFrom (fuel : nat) (s : string) : list (string * string) :=
  match fuel with
  | O => []
  | S f =>
      match search reToken s with
      | Some (rest, c) =>
          (match group 1 c with Some a => a | None => EmptyString end,
           match group 2 c with Some b => b | None => EmptyString end)
          :: refTokensFrom f rest
      | None => []
      end
  end.

Definition refTokens (s : string) : list (string * string) :=
  refTokensFrom (S (String.length s)) s.

Definition sameOption (a b : option string) : bool :=
  match a, b with
  | Some x, Some y => String.eqb x y
  | None, None => true
  | _, _ => false
  end.

Definition samePair (a b : option (string * string)) : bool :=
  match a, b with
  | Some (x, x'), Some (y, y') => String.eqb x y && String.eqb x' y'
  | None, None => true
  | _, _ => false
  end.

Fixpoint sameTokens (a b : list (string * string)) : bool :=
  match a, b with
  | [], [] => true
  | (x, x') :: a', (y, y') :: b' => String.eqb x y && String.eqb x' y' && sameTokens a' b'
  | _, _ => false
  end.

(** The six direct matchers give on [s] what the reference matcher gives. *)
Definition agreeOn (s : string) : bool :=
  sameOption (refModelHeader s) (Re.matchModelHeader s)
  && sameOption (refMapName s) (Re.matchMapName s)
  && sameOption (refDirective s) (Re.matchDirective s)
  && Bool.eqb (refDirectiveLine s) (Re.isDirectiveLine s)
  && samePair (refField s) (Re.matchField s)
  && sameTokens (refTokens s) (Re.tokens s).

Definition cr : string := String "013"%char EmptyString.
Definition tab : string := String "009"%char EmptyString.
Definition dq : string := String dquote EmptyString.

Definition subjects : list string :=
  [ EmptyString; " "; "}"; "model"; "model Foo {"; "model Foo{";
    "model  order_items   {  // c"; "modelX Foo {"; "model Foo Bar {"; "model {";
    "model - {"; "model Foo" ++ tab ++ "{";
    "@@map('x')"; "  @@map ( " ++ dq ++ "legacy_tbl" ++ dq ++ " ) // c";
    "@@map(name: 'a')"; "@map('')"; "@map('a" ++ dq ++ ")";
    "@map('a b' x) @map(" ++ dq ++ "c" ++ dq ++ ")"; "x @map('a'"; "@@map( 'a' ,)";
    "@map(" ++ dq ++ "a'b" ++ dq ++ ")";
    "@@index([a_b, c_d])"; "@@index [x] @@unique( [a, b] )";
    "@@id([a" ++ cr ++ "b]) @@fulltext([z])"; "@@idx([a])"; "@@index([])";
    "@@index([a(sort: Desc), b(length: 10)], map: 'x')"; "@@unique ( [ a ] )";
    "@@index([a]"; "@@index(a])"; "@@fulltext([a, b(c]))])"; "@@index([a_a(b_c), b_c])";
    "a"; "ab  "; "ab " ++ cr; "ab " ++ cr ++ " "; "ab" ++ cr ++ cr; "user_id Int";
    "user_id    Int  @default(0) // x"; "a b" ++ cr ++ "c @map(x)";
    "// comment"; "a(b, c) d(e"; "name(ops: raw('x')), y"; "a()b(c)(d)"; "((a)";
    "a_b(sort: Desc), c"; "1_a Int"; "_ x"; "id Int @id"; "x" ++ tab ++ tab ++ "y" ].

End Reference.

(* ================================================================== *)
(** ** The naming packages *)
(* ================================================================== *)

(** [camelCase] and [pascalCase] of change-case and [singular] of pluralize. *)
Record NameLib : Type := {
  camelCase : string -> string;
  pascalCase : string -> string;
  singular : string -> string
}.

(* ================================================================== *)
(** ** dbMap.ts *)
(* ================================================================== *)

(** The variables [currentModel], [currentTable], [inModelBlock] and
    [tableHasMap] of the loop. *)
Record State : Type := {
  currentModel : option string;
  currentTable : option string;
  inModelBlock : bool;
  tableHasMap : bool
}.

Definition initialState : State :=
  {| currentModel := None; currentTable := None; inModelBlock := false; tableHasMap := false |}.

Definition newline : string := String "010"%char EmptyString.

(** The template [  @@map(Q${table}Q)] with [Q] the double quote. *)
Definition tableMapLine (table : string) : string :=
  "  @@map(" ++ String dquote (table ++ String dquote ")").

(** The template [ @map(Q${fieldName}Q)] with [Q] the double quote. *)
Definition fieldMapSuffix (fieldName : string) : string :=
  " @map(" ++ String dquote (fieldName ++ String dquote ")").

(** [function shouldTransform(str)]. *)
Definition shouldTransform (str : string) : bool := String.eqb str (toLowerCase str).

Section Walker.

Variable lib : NameLib.

(** [function transformTableName(tableName)]. *)
Definition transformTableName (tableName : string) : string :=
  let singularName := singular lib tableName in
  pascalCase lib singularName.

(** The body of the [while] loop of [transformDirectiveFields] for one match. *)
Definition replaceToken (columnMap : Map) (currentTable : string)
    (transformedFieldsStr : string) (token : string * string) : string :=
  let (fieldName, fieldParams) := token in
  let fullMatch := fieldName ++ fieldParams in
  if shouldTransform fieldName then
    let columnKey := currentTable ++ "." ++ fieldName in
    let camelFieldName := orElse (mapGet columnMap columnKey) (camelCase lib fieldName) in
    let replacement := camelFieldName ++ fieldParams in
    replaceString transformedFieldsStr fullMatch replacement
  else transformedFieldsStr.

(** [function transformDirectiveFields(line, columnMap, currentTable)]. *)
Definition transformDirectiveFields (line : string) (columnMap : Map)
    (currentTable : string) : string :=
  match matchDirective line with
  | None => line
  | Some fieldsStr =>
      let transformedFieldsStr :=
        fold_left (replaceToken columnMap currentTable) (tokens fieldsStr) fieldsStr in
      replaceBracketed line fieldsStr ("[" ++ transformedFieldsStr ++ "]")
  end.

(** [tables.forEach(...)] into [tableMap]. *)
Definition buildTableMap (tables : list string) : Map :=
  fold_left
    (fun (m : Map) (t : string) =>
       if shouldTransform t then mapSet m t (transformTableName t) else m)
    tables ([] : Map).

(** [columns.forEach(...)] into [columnMap]. *)
Definition buildColumnMap (columns : list (string * string)) : Map :=
  fold_left
    (fun (m : Map) (tc : string * string) =>
       let (t, c) := tc in
       if shouldTransform c then mapSet m (t ++ "." ++ c) (camelCase lib c) else m)
    columns ([] : Map).

(** The look-ahead of a header, over the lines that follow it: [None] when no
    line before the first one that starts with a closing brace contains
    [@@map(]; otherwise the name read on the first such line, if any. *)
Fixpoint lookahead (following : list string) : option (option string) :=
  match following with
  | [] => None
  | l :: r =>
      if startsWith (trim l) "}" then None
      else if includes l "@@map(" then Some (matchMapName l)
      else lookahead r
  end.

(** [for (const [tableName, transformedName] of tableMap.entries())]: the
    table chosen and the name written in the header. *)
Fixpoint findTable (entries : Map) (model : string) : option (string * string) :=
  match entries with
  | [] => None
  | (tableName, transformedName) :: r =>
      if String.eqb transformedName model then Some (tableName, transformedName)
      else if negb (isEmpty model)
              && (String.eqb tableName (toLowerCase model)
                  || String.eqb (transformTableName tableName) model)
      then Some (tableName, transformTableName tableName)
      else findTable r model
  end.

(** The annotation pushed after a header that has none. *)
Definition synthesizedMap (table : option string) : list string :=
  match table with
  | Some (String c r) =>
      let t := String c r in
      if String.eqb (transformTableName t) t then [] else [tableMapLine t]
  | _ => []
  end.

(** The branch [if (modelMatch)]. *)
Definition headerStep (tableMap : Map) (st : State) (line model : string)
    (following : list string) : State * list string :=
  match lookahead following with
  | Some found =>
      let table := match found with Some n => Some n | None => currentTable st end in
      ({| currentModel := Some model; currentTable := table;
          inModelBlock := true; tableHasMap := true |},
       [line])
  | None =>
      let (table, enhancedLine) :=
        match findTable tableMap model with
        | Some (t, name) => (Some t, "model " ++ name ++ " {")
        | None =>
            (if isEmpty model then currentTable st else Some (toLowerCase model), line)
        end in
      ({| currentModel := Some model; currentTable := table;
          inModelBlock := true; tableHasMap := false |},
       enhancedLine :: synthesizedMap table)
  end.

(** The branch that handles a field declaration. *)
Definition fieldLine (columnMap : Map) (table line : string) : string :=
  let trimmedLine := trim line in
  match matchField trimmedLine with
  | Some (fieldName, fieldRest) =>
      if negb (startsWith trimmedLine "//") && negb (isEmpty trimmedLine) then
        let hasMap := includes fieldRest "@map(" in
        if negb hasMap && shouldTransform fieldName then
          let camelFieldName := camelCase lib fieldName in
          if negb (String.eqb camelFieldName fieldName) then
            let columnKey := table ++ "." ++ fieldName in
            let mappedFieldName := orElse (mapGet columnMap columnKey) camelFieldName in
            replaceFieldName line fieldName mappedFieldName ++ fieldMapSuffix fieldName
          else line
        else line
      else line
  | None => line
  end.

Definition tableOf (st : State) : string :=
  match currentTable st with Some t => t | None => EmptyString end.

(** One iteration of [for (let i = 0; i < lines.length; i++)]: the state after
    it and the lines pushed to [enhancedLines]. *)
Definition step (tableMap columnMap : Map) (st : State) (rawLine : string)
    (following : list string) : State * list string :=
  let line := trimEnd rawLine in
  let trimmedLine := trim line in
  match matchModelHeader trimmedLine with
  | Some model => headerStep tableMap st line model following
  | None =>
      if inModelBlock st && String.eqb trimmedLine "}" then
        ({| currentModel := None; currentTable := None;
            inModelBlock := false; tableHasMap := tableHasMap st |},
         [line])
      else if inModelBlock st && truthy (currentTable st) && isDirectiveLine trimmedLine then
        (st, [transformDirectiveFields line columnMap (tableOf st)])
      else if inModelBlock st && truthy (currentModel st) && truthy (currentTable st) then
        (st, [fieldLine columnMap (tableOf st) line])
      else (st, [line])
  end.

(** The whole loop: the final state and [enhancedLines]. *)
Fixpoint walk (tableMap columnMap : Map) (st : State) (lines : list string)
    : State * list string :=
  match lines with
  | [] => (st, [])
  | l :: rest =>
      let (st', out) := step tableMap columnMap st l rest in
      let (st'', outs) := walk tableMap columnMap st' rest in
      (st'', (out ++ outs)%list)
  end.

(** [convertToCamelAndPascal] from the schema text and the two query results
    to the text written to the enhanced schema. *)
Definition convertToCamelAndPascal (originalSchema : string) (tables : list string)
    (columns : list (string * string)) : string :=
  let tableMap := buildTableMap tables in
  let columnMap := buildColumnMap columns in
  let lines := split "010"%char originalSchema in
  join newline (snd (walk tableMap columnMap initialState lines)).

End Walker.

(* ================================================================== *)
(** ** An instance of the naming packages *)
(* ================================================================== *)

Module SpecLib.

Definition isLowerLetter (c : ascii) : bool := inRange 97 122 c.
Definition isUpperLetter (c : ascii) : bool := inRange 65 90 c.
Definition isAlphaNum (c : ascii) : bool := isLowerLetter c || isUpperLetter c || isDigit c.

Definition toUpperUnit (c : ascii) : ascii :=
  if isLowerLetter c then ascii_of_nat (nat_of_ascii c - 32) else c.

Definition flush (cur : string) : list string :=
  if isEmpty cur then [] else [cur].

(** Modelled from the spec: the segmentation shared by the two case
    conversions of change-case, which is not in the repository (split on
    delimiters and case boundaries).  A segment is a run of letters and
    digits; an upper-case letter that follows a lower-case letter or a digit
    starts a new one. *)
Fixpoint segments (afterLower : bool) (cur s : string) : list string :=
  match s with
  | EmptyString => flush cur
  | String c r =>
      if isAlphaNum c then
        if isUpperLetter c && afterLower then
          (flush cur ++ segments false (String c EmptyString) r)%list
        else segments (negb (isUpperLetter c)) (cur ++ String c EmptyString) r
      else (flush cur ++ segments false EmptyString r)%list
  end.

Definition capitalize (seg : string) : string :=
  match seg with
  | EmptyString => EmptyString
  | String c r => String (toUpperUnit c) (toLowerCase r)
  end.

(** Modelled from the spec: [pascalCase] of change-case (capitalize each
    segment, concatenate without separators). *)
Definition pascalCase (s : string) : string :=
  String.concat EmptyString (map capitalize (segments false EmptyString s)).

(** Modelled from the spec: [camelCase] of change-case (same segmentation,
    first segment lower-cased, subsequent segments capitalized). *)
Definition camelCase (s : string) : string :=
  match segments false EmptyString s with
  | [] => EmptyString
  | first :: others =>
      toLowerCase first ++ String.concat EmptyString (map capitalize others)
  end.

Fixpoint reverse (s : string) : string :=
  match s with
  | EmptyString => EmptyString
  | String c r => reverse r ++ String c EmptyString
  end.

(** [Some stem] when [s = stem ++ suffix]. *)
Definition stripSuffix (suffix s : string) : option string :=
  match stripPrefix (reverse suffix) (reverse s) with
  | Some r => Some (reverse r)
  | None => None
  end.

Definition endsWith (s suffix : string) : bool :=
  match stripSuffix suffix s with Some _ => true | None => false end.

(** Modelled from the spec: [singular] of pluralize, which is not in the
    repository (strip common plural suffixes: trailing ies to y, trailing es
    after a sibilant, trailing s, with the exception of a trailing ss). *)
Definition singular (s : string) : string :=
  match stripSuffix "ies" s with
  | Some stem => stem ++ "y"
  | None =>
      if endsWith s "sses" || endsWith s "xes" || endsWith s "zes"
         || endsWith s "ches" || endsWith s "shes"
      then match stripSuffix "es" s with Some stem => stem | None => s end
      else if endsWith s "ss" then s
      else match stripSuffix "s" s with Some stem => stem | None => s end
  end.

Definition lib : NameLib :=
  Build_NameLib camelCase pascalCase singular.

End SpecLib.

(* ================================================================== *)
(** ** Vocabulary of the statements *)
(* ================================================================== *)

Fixpoint allChars (p : ascii -> bool) (s : string) : bool :=
  match s with
  | EmptyString => true
  | String c r => p c && allChars p r
  end.

Fixpoint anyChar (p : ascii -> bool) (s : string) : bool :=
  match s with
  | EmptyString => false
  | String c r => p c || anyChar p r
  end.

(** The identifier contains at least one upper-case character. *)
Definition hasUpperCase (s : string) : bool := anyChar isUpperCase s.

Definition notDollar (c : ascii) : bool := negb (Ascii.eqb c "$").

(** The text has no dollar sign, so that it stands for itself as the template
    of a replacement. *)
Definition noDollar (s : string) : bool := allChars notDollar s.

(** The line as the loop sees it, and the same without its indentation. *)
Definition lineOf (rawLine : string) : string := trimEnd rawLine.
Definition trimmedOf (rawLine : string) : string := trim (trimEnd rawLine).

(** The state of the loop after the lines [processed], when [remaining] are
    the lines still to come. *)
Fixpoint stateAfter (lib : NameLib) (tableMap columnMap : Map) (st : State)
    (processed remaining : list string) : State :=
  match processed with
  | [] => st
  | l :: rest =>
      stateAfter lib tableMap columnMap
        (fst (step lib tableMap columnMap st l (rest ++ remaining)%list)) rest remaining
  end.

(** The three tests of the header on a catalog table: its transformed name is
    the model name, its raw name is the lower-cased model name, or the
    transformation of its raw name is the model name. *)
Definition tableMatches (lib : NameLib) (tableName model : string) : bool :=
  String.eqb (transformTableName lib tableName) model
  || String.eqb tableName (toLowerCase model)
  || String.eqb (transformTableName lib tableName) model.

(** Every value of the table map is the transformation of its key. *)
Definition builtMap (lib : NameLib) (m : Map) : Prop :=
  forall t tr, In (t, tr) m -> tr = transformTableName lib t.

(** A catalog table that enters the table map and passes one of the tests. *)
Definition flagged (lib : NameLib) (model t : string) : bool :=
  shouldTransform t && tableMatches lib t model.

(** The relation between the three variables of the cursor that every pass
    maintains: there is a model exactly inside a block, and a table only
    inside a block. *)
Definition cursorInvariant (st : State) : Prop :=
  (inModelBlock st = true <-> currentModel st <> None)
  /\ (currentTable st <> None -> inModelBlock st = true).

(** The state inside a block whose model and table are known. *)
Definition inBlock (model table : string) (hasMap : bool) : State :=
  {| currentModel := Some model; currentTable := Some table;
     inModelBlock := true; tableHasMap := hasMap |}.

(** What the loop pushes for a line of a block that is neither a header nor
    the closing brace, when the table of the block is [table]. *)
Definition blockLine (lib : NameLib) (columnMap : Map) (table rawLine : string) : string :=
  if isDirectiveLine (trimmedOf rawLine)
  then transformDirectiveFields lib (lineOf rawLine) columnMap table
  else fieldLine lib columnMap table (lineOf rawLine).

(** A line [pre @@map( ws Q name Q ws ) post] whose part before the
    annotation has no at sign: an explicit table-mapping annotation with the
    parenthesis right after the name of the attribute. *)
Definition isTableAnnotation (l name : string) : Prop :=
  exists pre ws1 q1 q2 ws2 post,
    l = pre ++ "@@map(" ++ ws1 ++ String q1 (name ++ String q2 (ws2 ++ ")" ++ post))
    /\ allChars (fun c => negb (Ascii.eqb c "@")) pre = true
    /\ allChars isWhiteSpace ws1 = true
    /\ allChars isWhiteSpace ws2 = true
    /\ isQuote q1 = true /\ isQuote q2 = true
    /\ allChars notQuote name = true
    /\ name <> EmptyString.




(* ================================================================== *)
(** ** The expressions of the comment scripts *)
(* ================================================================== *)

Module ReComment.

(** [/^\w+\s/] as a test: the greedy run of word characters must be followed
    by white space; giving units of the run back leaves a word character
    where white space is required. *)
Definition startsWordSpace (s : string) : bool :=
  let (w, r) := span isWordChar s in
  negb (isEmpty w)
  && match r with String c _ => isWhiteSpace c | EmptyString => false end.

Fixpoint lastUnit (s : string) : option ascii :=
  match s with
  | EmptyString => None
  | String c r => match lastUnit r with Some d => Some d | None => Some c end
  end.

(** [/\/\/\/\s*@comment\s+(.+)$/] tried at the start of [s]: group 1.  There
    is no flag [m]: the dollar stands for the end of the subject, so group 1
    runs to the end and must be free of line terminators.  When the white
    space after the keyword reaches the end of the subject, the run gives its
    last unit back to the group. *)
Definition commentAt (s : string) : option string :=
  match stripPrefix "///" s with
  | None => None
  | Some r0 =>
      match stripPrefix "@comment" (snd (span isWhiteSpace r0)) with
      | None => None
      | Some r1 =>
          let (ws, r2) := span isWhiteSpace r1 in
          match r2 with
          | String _ _ =>
              if negb (isEmpty ws) && allChars notLineTerminator r2 then Some r2 else None
          | EmptyString =>
              match ws with
              | String _ ws' =>
                  match lastUnit ws' with
                  | Some c => if notLineTerminator c then Some (String c EmptyString) else None
                  | None => None
                  end
              | EmptyString => None
              end
          end
      end
  end.

(** The same expression unanchored: the leftmost start that matches. *)
Fixpoint matchComment (s : string) : option string :=
  match commentAt s with
  | Some c => Some c
  | None =>
      match s with
      | EmptyString => None
      | String _ r => matchComment r
      end
  end.

(** [/^@@map\s*\(\s*[Q]([^Q]+)[Q]\s*\)/] with [Q] the two quotes: an at sign,
    then the expression of the field mapping at the second unit. *)
Definition matchTableMap (s : string) : option string :=
  match s with
  | String "@" r => mapNameAt r
  | _ => None
  end.

(** [line.match(/^\s*/)?.[0] || ''], the indentation: the expression matches
    every subject. *)
Definition indentationOf (line : string) : string := fst (span isWhiteSpace line).

End ReComment.

Import ReComment.

(** The two expressions of the comment scripts that have no counterpart in
    dbMap.ts, for the reference matcher. *)
Module ReferenceComment.

Import Reference.

(** [/^\w+\s/] *)
Definition reWordSpace : Regex := Cat (some word) ws.

(** [/\/\/\/\s*@comment\s+(.+)$/] without the dollar, which is the final
    continuation of [refComment]. *)
Definition reComment : Regex :=
  Cat (lit "///") (Cat (any ws) (Cat (lit "@comment") (Cat (some ws) (Grp 1 (some dot))))).

(** [/^@@map\s*\(\s*[Q]([^Q]+)[Q]\s*\)/] *)
Definition reTableMap : Regex := Cat (lit "@") reMap.

Definition atEnd (s : string) (c : Captures) : option (string * Captures) :=
  if isEmpty s then Some (s, c) else None.

Fixpoint searchToEnd (r : Regex) (fuel : nat) (s : string) : option (string * Captures) :=
  match run fuel r s [] atEnd with
  | Some x => Some x
  | None =>
      match s with
      | EmptyString => None
      | String _ t => searchToEnd r fuel t
      end
  end.

Definition refComment (s : string) : option string :=
  match searchToEnd reComment (fuelFor s) s with
  | Some (_, c) => group 1 c
  | None => None
  end.

Definition refWordSpace (s : string) : bool :=
  match matchAt reWordSpace s with Some _ => true | None => false end.

Definition refTableMap (s : string) : option string :=
  match matchAt reTableMap s with Some (_, c) => group 1 c | None => None end.

Definition agreeOn (s : string) : bool :=
  sameOption (refComment s) (matchComment s)
  && Bool.eqb (refWordSpace s) (startsWordSpace s)
  && sameOption (refTableMap s) (matchTableMap s).

Definition subjects : list string :=
  [ "/// @comment the id"; "///@comment x"; "/// @comment"; "/// @comment "; "/// @comment  ";
    "/// @comment " ++ cr; "/// @comment " ++ cr ++ " "; "/// @comment a" ++ cr ++ "b";
    "/// @comment a" ++ cr ++ "b /// @comment c"; "//// @comment x"; "// @comment x";
    "id Int @id /// @comment key /// @comment second"; "/// @commentx"; "///  @comment" ++ tab ++ "t";
    "/// @comment " ++ tab; "/// comment x"; "///" ++ cr ++ "@comment  y ";
    "@@map(" ++ dq ++ "users" ++ dq ++ ")"; "@@map ( 'users' ) rest"; "@map('users')";
    " @@map('users')"; "@@@map('x')"; "@@map('')"; "@@map(users)";
    "a "; "a"; "ab" ++ tab ++ "c"; " a b"; "a-b c"; "_1 x"; "}" ; "a" ++ cr ]%string.

End ReferenceComment.

(* ================================================================== *)
(** ** The push script (src/unnamed/part_000): parsePrismaSchema *)
(* ================================================================== *)

Module Push.

Module Field.

(** [interface FieldInfo]. *)
Record FieldInfo : Type := {
  fieldName : string;
  dbColumn : string;
  comment : string
}.

End Field.

Module Model.

(** [interface ModelInfo]. *)
Record ModelInfo : Type := {
  modelName : string;
  tableName : string;
  comment : option string;
  fields : list Field.FieldInfo
}.

End Model.

Import Field Model.

(** The variables [models], [currentModel] and [inModelBlock] of the loop. *)
Record State : Type := {
  models : list ModelInfo;
  currentModel : option ModelInfo;
  inModelBlock : bool
}.

Definition initialState : State :=
  {| models := []; currentModel := None; inModelBlock := false |}.

(** The loop [Check table mapping] over the lines after the header: the
    match is tested before the stop condition. *)
Fixpoint tableMapping (following : list string) (modelName : string) : string :=
  match following with
  | [] => modelName
  | l :: r =>
      let mapLine := trim l in
      match matchMapName mapLine with
      | Some n => n
      | None =>
          if String.eqb mapLine "}" || startsWordSpace mapLine then modelName
          else tableMapping r modelName
      end
  end.

(** The loop [Check table comment] over at most [n] lines after the header
    (the source has [n = 4]). *)
Fixpoint tableComment (n : nat) (following : list string) : option string :=
  match n, following with
  | S k, l :: r =>
      let commentLine := trim l in
      match matchComment commentLine with
      | Some c => Some c
      | None => if startsWordSpace commentLine then None else tableComment k r
      end
  | _, _ => None
  end.

(** The branch [Process field and comment] on the trimmed line: the record
    pushed to the fields of the current model, if any. *)
Definition parseField (line : string) (following : list string) : option FieldInfo :=
  match matchField line with
  | Some (name, _) =>
      if negb (startsWith line "//") && negb (isEmpty line) then
        let column := match matchMapName line with Some n => n | None => name end in
        let found :=
          match matchComment line with
          | Some c => Some c
          | None =>
              match following with
              | next :: _ => matchComment (trim next)
              | [] => None
              end
          end in
        if truthy found then
          Some {| fieldName := name; dbColumn := column;
                  Field.comment := orElse found EmptyString |}
        else None
      else None
  | None => None
  end.

Definition pushField (m : ModelInfo) (f : FieldInfo) : ModelInfo :=
  {| modelName := modelName m; tableName := tableName m;
     Model.comment := Model.comment m; fields := (fields m ++ [f])%list |}.

(** One iteration of [for (let i = 0; i < lines.length; i++)]. *)
Definition step (st : State) (rawLine : string) (following : list string) : State :=
  let line := trim rawLine in
  match matchModelHeader line with
  | Some name =>
      {| models := models st;
         currentModel :=
           Some {| modelName := name; tableName := tableMapping following name;
                   Model.comment := tableComment 4 following; fields := [] |};
         inModelBlock := true |}
  | None =>
      if inModelBlock st && String.eqb line "}" then
        {| models := match currentModel st with
                     | Some m => (models st ++ [m])%list
                     | None => models st
                     end;
           currentModel := None; inModelBlock := false |}
      else
        match currentModel st with
        | Some m =>
            if inModelBlock st then
              match parseField line following with
              | Some f =>
                  {| models := models st; currentModel := Some (pushField m f);
                     inModelBlock := inModelBlock st |}
              | None => st
              end
            else st
        | None => st
        end
  end.

Fixpoint walk (st : State) (lines : list string) : State :=
  match lines with
  | [] => st
  | l :: rest => walk (step st l rest) rest
  end.

(** [function parsePrismaSchema(schema)]. *)
Definition parsePrismaSchema (schema : string) : list ModelInfo :=
  models (walk initialState (split "010"%char schema)).

End Push.

(* ================================================================== *)
(** ** dbCommentPull.ts: the annotation loop *)
(* ================================================================== *)

Module Pull.

(** The variables [currentModel], [currentTable] and [inModelBlock] of the
    loop; [modelStartLine] is written and never read. *)
Record State : Type := {
  currentModel : option string;
  currentTable : option string;
  inModelBlock : bool
}.

Definition initialState : State :=
  {| currentModel := None; currentTable := None; inModelBlock := false |}.

(** [tableComments.forEach(...)] into [tableCommentsMap]. *)
Definition buildTableComments (tableComments : list (string * string)) : Map :=
  fold_left (fun (m : Map) (t : string * string) => mapSet m (fst t) (snd t))
    tableComments ([] : Map).

(** [columnComments.forEach(...)] into [columnCommentsMap]: table, column and
    comment of each row. *)
Definition buildColumnComments (columnComments : list (string * string * string)) : Map :=
  fold_left
    (fun (m : Map) (c : string * string * string) =>
       let key := fst (fst c) ++ "." ++ snd (fst c) in
       mapSet m key (snd c))
    columnComments ([] : Map).

(** The lines [i + 1] to [modelEndLine]: up to and with the first line that
    is a closing brace, and no line at all when there is none. *)
Fixpoint untilClose (following : list string) : option (list string) :=
  match following with
  | [] => None
  | l :: r =>
      if String.eqb (trim l) "}" then Some [l]
      else match untilClose r with
           | Some b => Some (l :: b)
           | None => None
           end
  end.

Definition blockLines (following : list string) : list string :=
  match untilClose following with Some b => b | None => [] end.

(** The loop [Find @@map attribute within the model definition block]. *)
Fixpoint findTableMap (block : list string) : option string :=
  match block with
  | [] => None
  | l :: r =>
      match matchTableMap (trim l) with
      | Some n => Some n
      | None => findTableMap r
      end
  end.

(** The template [${indentation}/* @comment ${comment} */]. *)
Definition commentLine (indentation comment : string) : string :=
  indentation ++ "/* @comment " ++ comment ++ " */".

(** The lines pushed for [line] when the look-up gave [found]. *)
Definition withComment (found : option string) (indentation line : string) : list string :=
  if truthy found then [commentLine indentation (orElse found EmptyString); line]
  else [line].

Definition tableOf (st : State) : string :=
  match currentTable st with Some t => t | None => EmptyString end.

(** One iteration of [for (let i = 0; i < lines.length; i++)]: the state after
    it and the lines pushed to [resultLines]. *)
Definition step (tableCommentsMap columnCommentsMap : Map) (st : State)
    (rawLine : string) (following : list string) : State * list string :=
  let line := trimEnd rawLine in
  let trimmedLine := trim line in
  let indentation := indentationOf line in
  match matchModelHeader trimmedLine with
  | Some model =>
      let table :=
        match findTableMap (blockLines following) with
        | Some n => n
        | None => model
        end in
      ({| currentModel := Some model; currentTable := Some table; inModelBlock := true |},
       withComment (mapGet tableCommentsMap table) indentation line)
  | None =>
      if inModelBlock st && String.eqb trimmedLine "}" then
        ({| currentModel := None; currentTable := None; inModelBlock := false |}, [line])
      else if inModelBlock st && truthy (currentModel st) && truthy (currentTable st) then
        match matchField trimmedLine with
        | Some (fieldName, _) =>
            if negb (startsWith trimmedLine "//") && negb (startsWith trimmedLine "/*")
               && negb (isEmpty trimmedLine) then
              let dbColumn :=
                match matchMapName trimmedLine with Some n => n | None => fieldName end in
              let columnKey := tableOf st ++ "." ++ dbColumn in
              (st, withComment (mapGet columnCommentsMap columnKey) indentation line)
            else (st, [line])
        | None => (st, [line])
        end
      else (st, [line])
  end.

Fixpoint walk (tableCommentsMap columnCommentsMap : Map) (st : State) (lines : list string)
    : State * list string :=
  match lines with
  | [] => (st, [])
  | l :: rest =>
      let (st', out) := step tableCommentsMap columnCommentsMap st l rest in
      let (st'', outs) := walk tableCommentsMap columnCommentsMap st' rest in
      (st'', (out ++ outs)%list)
  end.

(** Steps 3 and 4 of [syncMySQLComments]: from the cleaned schema text and the
    two query results to the text written to the enhanced schema. *)
Definition annotate (cleanSchema : string) (tableComments : list (string * string))
    (columnComments : list (string * string * string)) : string :=
  let tableCommentsMap := buildTableComments tableComments in
  let columnCommentsMap := buildColumnComments columnComments in
  let lines := split "010"%char cleanSchema in
  join newline (snd (walk tableCommentsMap columnCommentsMap initialState lines)).

End Pull.

(* ================================================================== *)
(** ** dbCommentPull.ts: the cleaning of existing comments *)
(* ================================================================== *)

Module Clean.

(** [/\s*\/\/\/\s*@comment\s*.*$/gm] tried at the start of [s]: what is left
    of the subject after the match.  Every greedy run is followed by a unit
    that the run does not accept, and the greedy dot run ends before a line
    terminator or at the end of the subject, where the dollar of the flag [m]
    holds: the first path of the search succeeds. *)
Definition lineCommentAt (s : string) : option string :=
  match stripPrefix "///" (snd (span isWhiteSpace s)) with
  | None => None
  | Some r1 =>
      match stripPrefix "@comment" (snd (span isWhiteSpace r1)) with
      | None => None
      | Some r3 => Some (snd (span notLineTerminator (snd (span isWhiteSpace r3))))
      end
  end.

(** The white space run and the dollar of the flag [m] at the end of the
    second expression, on the text [t] after a closing mark: the run is cut
    where the dollar holds, at the end of the subject or, failing that, before
    the last line terminator of the run. *)
Fixpoint beforeLastTerminator (ws : string) : option string :=
  match ws with
  | EmptyString => None
  | String c r =>
      match beforeLastTerminator r with
      | Some rest => Some rest
      | None => if isLineTerminator c then Some ws else None
      end
  end.

Definition trailingEnd (t : string) : option string :=
  let (ws, r) := span isWhiteSpace t in
  match r with
  | EmptyString => Some EmptyString
  | String _ _ =>
      match beforeLastTerminator ws with
      | Some rest => Some (rest ++ r)
      | None => None
      end
  end.

(** The greedy dot run and the closing mark of the second expression: the
    last closing mark of the line after which [trailingEnd] succeeds. *)
Fixpoint closingEnd (s : string) : option string :=
  let here :=
    match stripPrefix "*/" s with
    | Some t => trailingEnd t
    | None => None
    end in
  match s with
  | EmptyString => here
  | String c r =>
      if notLineTerminator c then
        match closingEnd r with
        | Some rest => Some rest
        | None => here
        end
      else here
  end.

(** [/\s*\/\*\s*@comment\s*.*\*\/\s*$/gm] tried at the start of [s]: what is
    left of the subject after the match.  The white space run after the
    keyword is taken whole: giving units of it back to the dot run adds no
    closing mark to those the dot run can reach. *)
Definition blockCommentAt (s : string) : option string :=
  match stripPrefix "/*" (snd (span isWhiteSpace s)) with
  | None => None
  | Some r1 =>
      match stripPrefix "@comment" (snd (span isWhiteSpace r1)) with
      | None => None
      | Some r3 => closingEnd (snd (span isWhiteSpace r3))
      end
  end.

(** [s.replace(re, '')] with the flag [g]: every match, from the left, is
    removed, and the search goes on after it.  The matches are not empty, so
    a fuel of the length suffices. *)
Fixpoint removeAll (matchAt : string -> option string) (fuel : nat) (s : string) : string :=
  match fuel with
  | O => s
  | S f =>
      match matchAt s with
      | Some rest => removeAll matchAt f rest
      | None =>
          match s with
          | EmptyString => EmptyString
          | String c r => String c (removeAll matchAt f r)
          end
      end
  end.

(** [Clean line comments] and [Clean block comments]. *)
Definition cleanSchema (originalSchema : string) : string :=
  let cleaned := removeAll lineCommentAt (S (String.length originalSchema)) originalSchema in
  removeAll blockCommentAt (S (String.length cleaned)) cleaned.

End Clean.

(** [syncMySQLComments] from the schema text and the two query results to the
    text written to the enhanced schema. *)
Definition syncMySQLComments (originalSchema : string)
    (tableComments : list (string * string))
    (columnComments : list (string * string * string)) : string :=
  Pull.annotate (Clean.cleanSchema originalSchema) tableComments columnComments.

(** The two expressions of the cleaning for the reference matcher. *)
Module ReferenceClean.

Import Reference.

(** [/\s*\/\/\/\s*@comment\s*.*$/] without the dollar. *)
Definition reLineComment : Regex :=
  Cat (any ws) (Cat (lit "///") (Cat (any ws) (Cat (lit "@comment")
    (Cat (any ws) (any dot))))).

(** [/\s*\/\*\s*@comment\s*.*\*\/\s*$/] without the dollar. *)
Definition reBlockComment : Regex :=
  Cat (any ws) (Cat (lit "/*") (Cat (any ws) (Cat (lit "@comment")
    (Cat (any ws) (Cat (any dot) (Cat (lit "*/") (any ws))))))).

(** The dollar with the flag [m], as final continuation. *)
Definition atLineEnd (s : string) (c : Captures) : option (string * Captures) :=
  match s with
  | EmptyString => Some (s, c)
  | String x _ => if isLineTerminator x then Some (s, c) else None
  end.

Fixpoint refRemoveAll (r : Regex) (fuel : nat) (s : string) : string :=
  match fuel with
  | O => s
  | S f =>
      match run (fuelFor s) r s [] atLineEnd with
      | Some (rest, _) => refRemoveAll r f rest
      | None =>
          match s with
          | EmptyString => EmptyString
          | String c t => String c (refRemoveAll r f t)
          end
      end
  end.

Definition refCleanSchema (s : string) : string :=
  let cleaned := refRemoveAll reLineComment (S (String.length s)) s in
  refRemoveAll reBlockComment (S (String.length cleaned)) cleaned.

Definition lf : string := String "010"%char EmptyString.

Definition agreeOn (s : string) : bool :=
  String.eqb (refRemoveAll reLineComment (S (String.length s)) s)
             (Clean.removeAll Clean.lineCommentAt (S (String.length s)) s)
  && String.eqb (refRemoveAll reBlockComment (S (String.length s)) s)
                (Clean.removeAll Clean.blockCommentAt (S (String.length s)) s)
  && String.eqb (refCleanSchema s) (Clean.cleanSchema s).

Definition subjects : list string :=
  [ EmptyString; "model User {" ++ lf ++ "  id Int @id" ++ lf ++ "}";
    "  id Int /// @comment key" ++ lf ++ "  name String";
    "a" ++ lf ++ "  /* @comment the users */" ++ lf ++ "model User {";
    "/* @comment c */" ++ lf ++ "model User {";
    "a" ++ lf ++ lf ++ "  /* @comment c */" ++ lf ++ lf ++ "  b";
    "a /* @comment c */ b" ++ lf ++ "c";
    "a /* @comment c */ b */  " ++ lf ++ "  " ++ lf ++ "d";
    "a /* @comment c */ " ++ cr ++ lf ++ " " ++ tab;
    "a /* @comment" ++ lf ++ " x */" ++ lf ++ "b";
    "a /* @comment " ++ lf ++ " x" ++ lf ++ "b */";
    "/*@comment*/"; "/* @comment */ */ x"; "/* comment c */";
    "x ///@comment" ++ lf ++ "  next line" ++ lf ++ "last";
    "x /// @comment  a /// @comment b" ++ lf ++ "/// @comment c";
    "  " ++ lf ++ "  /// @comment" ; "//// @comment x"; "// / @comment";
    "/* @comment a */" ++ lf ++ "/* @comment b */" ++ lf ++ "x";
    "f /* @comment a */ /// @comment b */";
    "/* @comment c *" ++ lf ++ "/"; "a" ++ lf ++ "/*" ++ lf ++ "@comment" ++ lf ++ "*/" ++ lf;
    "/* @comment c */" ++ lf ++ lf ++ lf ++ "x";
    "/* @comment c */   x */  " ]%string.

End ReferenceClean.

(* ================================================================== *)
(** ** Vocabulary of the further statements *)
(* ================================================================== *)

Definition notDot (c : ascii) : bool := negb (Ascii.eqb c ".").

(** The text has no dot. *)
Definition noDot (s : string) : bool := allChars notDot s.

(** A non-empty run of word characters. *)
Definition isWord (s : string) : bool := negb (isEmpty s) && allChars isWordChar s.

Definition notBracket (c : ascii) : bool := negb (Ascii.eqb c "[").

(** Every entry of the column map comes from a catalog column. *)
Definition fromColumns (lib : NameLib) (columns : list (string * string)) (m : Map) : Prop :=
  forall k v, In (k, v) m ->
    exists t c, In (t, c) columns /\ k = t ++ "." ++ c /\ v = camelCase lib c.

(** The text of a parameter group: parentheses around a text without closing
    parenthesis, or nothing. *)
Definition isParams (s : string) : Prop :=
  s = EmptyString
  \/ exists inner, s = "(" ++ inner ++ ")"
                   /\ allChars (fun c => negb (Ascii.eqb c ")")) inner = true.

Definition isHeaderLine (rawLine : string) : bool :=
  match matchModelHeader (trimmedOf rawLine) with Some _ => true | None => false end.

(** The text has no line terminator. *)
Definition oneLine (s : string) : bool := allChars notLineTerminator s.

(** White space other than a line terminator. *)
Definition inlineSpace (c : ascii) : bool := isWhiteSpace c && notLineTerminator c.

(** The line is a model header, or a closing brace, for the three loops. *)
Definition isCloseLine (rawLine : string) : bool := String.eqb (trim rawLine) "}".

(** A recorded field: its name is a word, its column and its comment are not
    empty. *)
Definition wellFormedField (f : Push.Field.FieldInfo) : bool :=
  isWord (Push.Field.fieldName f)
  && negb (isEmpty (Push.Field.dbColumn f))
  && negb (isEmpty (Push.Field.comment f)).

(** A recorded model: its name is a word, its table is not empty, its
    comment is absent or not empty, and its fields are well formed. *)
Definition wellFormedModel (m : Push.Model.ModelInfo) : bool :=
  isWord (Push.Model.modelName m)
  && negb (isEmpty (Push.Model.tableName m))
  && match Push.Model.comment m with Some c => negb (isEmpty c) | None => true end
  && forallb wellFormedField (Push.Model.fields m).

(** The lines pushed for [rawLine] by the annotation loop: the line without
    its trailing white space, alone or after the block comment of a
    non-empty comment of one of the two maps, with the indentation of the
    line. *)
Definition commented (tableCommentsMap columnCommentsMap : Map) (rawLine : string)
    (group : list string) : Prop :=
  group = [trimEnd rawLine]
  \/ exists key comment,
       (mapGet tableCommentsMap key = Some comment
        \/ mapGet columnCommentsMap key = Some comment)
       /\ comment <> EmptyString
       /\ group = [Pull.commentLine (indentationOf (trimEnd rawLine)) comment; trimEnd rawLine].

(** The relation between the three variables of the cursor of the annotation
    loop: inside a block the model and the table are non-empty names, outside
    both are null. *)
Definition pullInvariant (st : Pull.State) : Prop :=
  if Pull.inModelBlock st
  then truthy (Pull.currentModel st) = true /\ truthy (Pull.currentTable st) = true
  else Pull.currentModel st = None /\ Pull.currentTable st = None.

(** A line that the table-mapping loop of [parsePrismaSchema] passes over: no
    mapping, no closing brace, no word followed by white space at its start. *)
Definition passedOver (rawLine : string) : bool :=
  match matchMapName (trim rawLine) with Some _ => false | None => true end
  && negb (isCloseLine rawLine)
  && negb (startsWordSpace (trim rawLine)).

(** What the loop of [parsePrismaSchema] keeps: the models pushed and the
    current model are well formed. *)
Definition wellFormedState (st : Push.State) : Prop :=
  forallb wellFormedModel (Push.models st) = true
  /\ match Push.currentModel st with
     | Some m => wellFormedModel m = true
     | None => True
     end.

(** A recorded model without comment and without field. *)
Definition uncommented (m : Push.Model.ModelInfo) : bool :=
  match Push.Model.comment m with Some _ => false | None => true end
  && match Push.Model.fields m with [] => true | _ :: _ => false end.

(* ================================================================== *)
(** ** Facts about the string primitives *)
(* ================================================================== *)

Section StringFacts.

Lemma append_assoc (a b c : string) : (a ++ b) ++ c = a ++ b ++ c.
Proof. induction a as [|x a IH]; simpl; [reflexivity | now rewrite IH]. Qed.

Lemma isEmpty_false (s : string) : isEmpty s = false -> s <> EmptyString.
Proof. destruct s; simpl; [discriminate | intros _ H; discriminate H]. Qed.

Lemma allChars_app (p : ascii -> bool) (a b : string) :
  allChars p (a ++ b) = allChars p a && allChars p b.
Proof.
  induction a as [|x a IH]; simpl; [reflexivity|].
  now rewrite IH, andb_assoc.
Qed.

Lemma stripPrefix_app (p r : string) : stripPrefix p (p ++ r) = Some r.
Proof.
  induction p as [|x p IH]; simpl; [reflexivity|].
  now rewrite Ascii.eqb_refl.
Qed.

Lemma stripPrefix_Some (p s r : string) : stripPrefix p s = Some r -> s = p ++ r.
Proof.
  revert s; induction p as [|x p IH]; intros s H; simpl in *.
  - now inversion H.
  - destruct s as [|y s]; [discriminate|].
    destruct (Ascii.eqb_spec x y) as [->|_]; [|discriminate].
    now rewrite (IH _ H).
Qed.

Lemma findFirst_Some (s pat b a : string) :
  findFirst s pat = Some (b, a) -> s = b ++ pat ++ a.
Proof.
  revert b; induction s as [|x s IH]; intros b H; simpl in H.
  - destruct (stripPrefix pat EmptyString) eqn:E; [|discriminate].
    inversion H; subst. now apply stripPrefix_Some in E.
  - destruct (stripPrefix pat (String x s)) eqn:E.
    + inversion H; subst. now apply stripPrefix_Some in E.
    + destruct (findFirst s pat) as [[b' a']|] eqn:F; [|discriminate].
      inversion H; subst. simpl. now rewrite (IH b' eq_refl).
Qed.

Lemma span_app (p : ascii -> bool) (s a b : string) :
  span p s = (a, b) -> s = a ++ b.
Proof.
  revert a b; induction s as [|x s IH]; intros a b H; simpl in H.
  - now inversion H.
  - destruct (p x).
    + destruct (span p s) as [a' b'] eqn:E. inversion H; subst.
      simpl. now rewrite (IH a' b eq_refl).
    + now inversion H.
Qed.

Lemma span_all (p : ascii -> bool) (s a b : string) :
  span p s = (a, b) -> allChars p a = true.
Proof.
  revert a b; induction s as [|x s IH]; intros a b H; simpl in H.
  - now inversion H.
  - destruct (p x) eqn:Px.
    + destruct (span p s) as [a' b'] eqn:E. inversion H; subst.
      simpl. rewrite Px. exact (IH a' b eq_refl).
    + now inversion H.
Qed.

Lemma span_stop (p : ascii -> bool) (s a : string) (c : ascii) (r : string) :
  span p s = (a, String c r) -> p c = false.
Proof.
  revert a; induction s as [|x s IH]; intros a H; simpl in H.
  - discriminate.
  - destruct (p x) eqn:Px.
    + destruct (span p s) as [a' b'] eqn:E. inversion H; subst.
      exact (IH a' eq_refl).
    + inversion H; subst. exact Px.
Qed.

(** A run of accepted units followed by nothing or by a refused unit is what
    [span] cuts off. *)
Lemma span_run (p : ascii -> bool) (a b : string) :
  allChars p a = true ->
  match b with EmptyString => True | String c _ => p c = false end ->
  span p (a ++ b) = (a, b).
Proof.
  intros Ha Hb. induction a as [|x a IH]; simpl in *.
  - destruct b as [|c r]; simpl; [reflexivity | now rewrite Hb].
  - apply andb_true_iff in Ha as [Hx Ha]. rewrite Hx, (IH Ha). reflexivity.
Qed.

Lemma trimStart_span (s : string) : trimStart s = snd (span isWhiteSpace s).
Proof.
  induction s as [|x s IH]; simpl; [reflexivity|].
  destruct (isWhiteSpace x); [|reflexivity].
  rewrite IH. now destruct (span isWhiteSpace s).
Qed.

Lemma trimEnd_idempotent (s : string) : trimEnd (trimEnd s) = trimEnd s.
Proof.
  induction s as [|x s IH]; simpl; [reflexivity|].
  destruct (isWhiteSpace x && isEmpty (trimEnd s)) eqn:E; [reflexivity|].
  simpl. now rewrite IH, E.
Qed.

Lemma trim_lineOf (raw : string) : trimmedOf raw = trimStart (lineOf raw).
Proof. unfold trimmedOf, lineOf, trim. now rewrite trimEnd_idempotent. Qed.

(** A template without dollar sign expands to itself. *)
Lemma getSubstitution_noDollar (m b a : string) (caps : list (option string)) (t : string) :
  noDollar t = true -> getSubstitution m b a caps t = t.
Proof.
  induction t as [|x t IH]; simpl; [reflexivity|].
  unfold noDollar; simpl. intros H. apply andb_true_iff in H as [Hx Ht].
  unfold notDollar in Hx. rewrite Hx. now rewrite (IH Ht).
Qed.

(** [$1] in front of a template, with one group, is the text of the group
    whatever follows: a following digit cannot make the reference two-digit. *)
Lemma getSubstitution_group1 (m b a g t : string) :
  getSubstitution m b a [Some g] ("$1" ++ t)
  = g ++ getSubstitution m b a [Some g] t.
Proof.
  simpl. destruct t as [|e t3]; [reflexivity|].
  rewrite andb_false_r. reflexivity.
Qed.

(** The white space that the loop removes from a line is at its end. *)
Lemma trimEnd_strips (s : string) :
  exists w, s = trimEnd s ++ w /\ allChars isWhiteSpace w = true.
Proof.
  induction s as [|c r (w & E & Hw)]; simpl.
  - now exists EmptyString.
  - destruct (isWhiteSpace c) eqn:Hc; simpl.
    + destruct (trimEnd r) eqn:T; simpl.
      * exists (String c w). simpl in E. subst r. simpl. now rewrite Hc, Hw.
      * exists w. split; [|exact Hw]. simpl in E. now rewrite <- E.
    + exists w. split; [|exact Hw]. now rewrite <- E.
Qed.

End StringFacts.

(* ================================================================== *)
(** ** Facts about the classes of code units *)
(* ================================================================== *)

Section UnitFacts.

Ltac by_units c :=
  destruct c as [[] [] [] [] [] [] [] []]; vm_compute;
  solve [ reflexivity | discriminate | intros; discriminate | intros H; discriminate H
        | intros _ H; discriminate H ].

Lemma white_not_word (c : ascii) : isWhiteSpace c = true -> isWordChar c = false.
Proof. by_units c. Qed.

Lemma word_not_white (c : ascii) : isWordChar c = true -> isWhiteSpace c = false.
Proof. by_units c. Qed.

Lemma upper_changes (c : ascii) : isUpperCase c = true -> toLowerUnit c <> c.
Proof. by_units c. Qed.

Lemma lower_unchanged (c : ascii) : isUpperCase c = false -> toLowerUnit c = c.
Proof. intros H. unfold toLowerUnit. now rewrite H. Qed.

(** The Classifier: an identifier needs transformation exactly when it has no
    upper-case character. *)
Lemma shouldTransform_hasUpperCase (s : string) :
  shouldTransform s = negb (hasUpperCase s).
Proof.
  unfold shouldTransform, hasUpperCase.
  induction s as [|x s IH]; simpl; [reflexivity|].
  destruct (isUpperCase x) eqn:U; simpl.
  - destruct (Ascii.eqb_spec x (toLowerUnit x)) as [E|_]; [|reflexivity].
    exfalso. now apply (upper_changes x U).
  - rewrite (lower_unchanged x U), Ascii.eqb_refl. exact IH.
Qed.

End UnitFacts.

(* ================================================================== *)
(** ** Facts about the matchers *)
(* ================================================================== *)

Section MatcherFacts.

(** What a match of the field expression says about the subject. *)
Lemma matchField_shape (t name fieldRest : string) :
  matchField t = Some (name, fieldRest) ->
  exists ws rest,
    t = name ++ ws ++ rest
    /\ name <> EmptyString /\ ws <> EmptyString
    /\ allChars isWordChar name = true
    /\ allChars isWhiteSpace ws = true
    /\ span isWhiteSpace (ws ++ rest) = (ws, rest)
    /\ match rest with
       | EmptyString => True
       | String c _ => isWhiteSpace c = false
                       /\ fieldRest = fst (span notLineTerminator rest)
       end.
Proof.
  unfold matchField. intros H.
  destruct (span isWordChar t) as [n r1] eqn:E1.
  destruct (span isWhiteSpace r1) as [ws r2] eqn:E2.
  destruct (isEmpty n || isEmpty ws) eqn:E; [discriminate|].
  apply orb_false_iff in E as [En Ew].
  assert (Hn : n = name).
  { destruct r2; [|now inversion H].
    destruct ws; [discriminate|]. destruct (lastNotLineTerminator ws); now inversion H. }
  subst n. exists ws, r2.
  pose proof (span_app _ _ _ _ E1) as A1. pose proof (span_app _ _ _ _ E2) as A2.
  subst r1. repeat split.
  - exact A1.
  - now apply isEmpty_false.
  - now apply isEmpty_false.
  - exact (span_all _ _ _ _ E1).
  - exact (span_all _ _ _ _ E2).
  - exact E2.
  - destruct r2 as [|c r]; [exact I|]. split.
    + exact (span_stop _ _ _ _ _ E2).
    + now inversion H.
Qed.

(** A field declaration starts with a word character. *)
Lemma matchField_head (t name fieldRest : string) :
  matchField t = Some (name, fieldRest) ->
  exists c r, t = String c r /\ isWordChar c = true.
Proof.
  intros H. destruct (matchField_shape _ _ _ H) as (ws & rest & -> & Hn & _ & Hw & _).
  destruct name as [|c n]; [congruence|]. simpl in Hw.
  apply andb_true_iff in Hw as [Hc _]. now exists c, (n ++ ws ++ rest).
Qed.

Lemma word_head_plain (c : ascii) (r : string) :
  isWordChar c = true ->
  startsWith (String c r) "//" = false
  /\ String.eqb (String c r) "}" = false
  /\ isDirectiveLine (String c r) = false.
Proof.
  destruct c as [[] [] [] [] [] [] [] []]; vm_compute; intros Hc;
    solve [ discriminate Hc | repeat split; reflexivity ].
Qed.

(** On a header the field expression reads the word [model]. *)
Lemma header_reads_model (t model name fieldRest : string) :
  matchModelHeader t = Some model ->
  matchField t = Some (name, fieldRest) ->
  name = "model".
Proof.
  unfold matchModelHeader. intros H F.
  destruct (stripPrefix "model" t) as [r0|] eqn:E0; [|discriminate].
  apply stripPrefix_Some in E0.
  destruct (span isWhiteSpace r0) as [ws1 r1] eqn:E1.
  destruct (span isWordChar r1) as [n r2].
  destruct (span isWhiteSpace r2) as [ws2 r3].
  destruct ws1 as [|c w]; [discriminate|].
  pose proof (span_all _ _ _ _ E1) as Hw. simpl in Hw.
  apply andb_true_iff in Hw as [Hc _].
  apply span_app in E1. subst r0 t.
  unfold matchField in F.
  assert (S : span isWordChar ("model" ++ String c w ++ r1) = ("model", String c w ++ r1)).
  { apply span_run; [reflexivity|]. simpl. now apply white_not_word. }
  rewrite S in F.
  destruct (span isWhiteSpace (String c w ++ r1)) as [ws r] eqn:E.
  destruct (isEmpty "model" || isEmpty ws); [discriminate|].
  destruct r; [|now inversion F].
  destruct ws as [|? ws']; [discriminate|].
  destruct (lastNotLineTerminator ws'); now inversion F.
Qed.

Lemma header_name_nonempty (t model : string) :
  matchModelHeader t = Some model -> isEmpty model = false.
Proof.
  unfold matchModelHeader. intros H.
  destruct (stripPrefix "model" t) as [r0|]; [|discriminate].
  destruct (span isWhiteSpace r0) as [ws1 r1].
  destruct (span isWordChar r1) as [n r2].
  destruct (span isWhiteSpace r2) as [ws2 r3].
  destruct (isEmpty ws1 || isEmpty n || isEmpty ws2) eqn:E; [discriminate|].
  destruct (startsWith r3 "{"); [|discriminate].
  inversion H; subst.
  apply orb_false_iff in E as [E _]. now apply orb_false_iff in E as [_ E].
Qed.

Lemma header_not_close (t model : string) :
  matchModelHeader t = Some model -> String.eqb t "}" = false.
Proof.
  intros H. destruct (String.eqb_spec t "}") as [->|_]; [discriminate H | reflexivity].
Qed.

(** The replacement of the leading identifier of a field declaration. *)
Lemma replaceFieldName_shape (indent name ws rest mapped : string) :
  allChars isWhiteSpace indent = true ->
  allChars isWordChar name = true -> name <> EmptyString ->
  ws <> EmptyString ->
  span isWhiteSpace (ws ++ rest) = (ws, rest) ->
  replaceFieldName (indent ++ name ++ ws ++ rest) name mapped
  = indent
    ++ getSubstitution (indent ++ name ++ ws) EmptyString rest [Some indent] (mapped ++ " ")
    ++ rest.
Proof.
  intros Hi Hn Hne Hw Hs. unfold replaceFieldName.
  assert (S : span isWhiteSpace (indent ++ name ++ ws ++ rest) = (indent, name ++ ws ++ rest)).
  { apply span_run; [exact Hi|].
    destruct name as [|c n]; [congruence|]. simpl in *.
    apply andb_true_iff in Hn as [Hc _]. now apply word_not_white. }
  rewrite S, stripPrefix_app, Hs.
  destruct ws; [congruence|]. cbn [isEmpty].
  change ("$1" ++ mapped ++ " ") with ("$1" ++ (mapped ++ " ")).
  rewrite getSubstitution_group1. now rewrite append_assoc.
Qed.

Lemma span_length (p : ascii -> bool) (s a b : string) :
  span p s = (a, b) -> String.length s = String.length a + String.length b.
Proof.
  revert a b; induction s as [|x s IH]; intros a b H; simpl in H.
  - now inversion H.
  - destruct (p x).
    + destruct (span p s) as [a' b'] eqn:E. inversion H; subst.
      simpl. now rewrite (IH a' b eq_refl).
    + now inversion H.
Qed.

Lemma takeParams_length (s p r : string) :
  takeParams s = Some (p, r) -> String.length r < String.length s.
Proof.
  unfold takeParams. destruct s as [|c s]; [discriminate|].
  destruct (Ascii.eqb_spec c "(") as [->|N].
  - destruct (span (fun c => negb (Ascii.eqb c ")")) s) as [inner r'] eqn:E.
    destruct r' as [|d r'']; [discriminate|].
    destruct (Ascii.eqb_spec d ")") as [->|N'].
    + intros H. inversion H; subst. apply span_length in E. simpl in *. lia.
    + intros H. exfalso. revert H.
      destruct d as [[] [] [] [] [] [] [] []]; try discriminate. now elim N'.
  - intros H. exfalso. revert H.
    destruct c as [[] [] [] [] [] [] [] []]; try discriminate. now elim N.
Qed.

(** The fuel of [tokens] is enough: every match consumes at least one code
    unit, so any fuel of at least the length gives the same matches. *)
Lemma scanTokens_enough (n m : nat) (s : string) :
  String.length s <= n -> String.length s <= m -> scanTokens n s = scanTokens m s.
Proof.
  revert m s. induction n as [|n IH]; intros m s Hn Hm.
  - destruct s; [|simpl in Hn; lia]. now destruct m.
  - destruct s as [|c r]; [now destruct m|].
    destruct m as [|m]; [simpl in Hm; lia|].
    cbn [scanTokens]. simpl in Hn, Hm.
    destruct (isWordChar c) eqn:Hc.
    + destruct (span isWordChar (String c r)) as [w r1] eqn:E.
      assert (L1 : String.length r1 <= String.length r).
      { pose proof (span_length _ _ _ _ E) as L. simpl in E. rewrite Hc in E.
        destruct (span isWordChar r) as [a b]. inversion E; subst. simpl in L. lia. }
      destruct (takeParams r1) as [[p r2]|] eqn:T.
      * apply takeParams_length in T. f_equal. apply IH; lia.
      * f_equal. apply IH; lia.
    + apply IH; lia.
Qed.

End MatcherFacts.

(* ================================================================== *)
(** ** Facts about one iteration of the loop *)
(* ================================================================== *)

Section StepFacts.

Variable lib : NameLib.
Variables tableMap columnMap : Map.

(** A field declaration that is not a header reaches the field branch, which
    applies when the cursor has a model and a table. *)
Lemma step_field (st : State) (raw : string) (following : list string)
    (name fieldRest : string) :
  matchModelHeader (trimmedOf raw) = None ->
  matchField (trimmedOf raw) = Some (name, fieldRest) ->
  step lib tableMap columnMap st raw following
  = (st, [if inModelBlock st && truthy (currentModel st) && truthy (currentTable st)
          then fieldLine lib columnMap (tableOf st) (lineOf raw)
          else lineOf raw]).
Proof.
  intros Hh Hf. unfold trimmedOf, lineOf in *. unfold step. cbv zeta. rewrite Hh.
  destruct (matchField_head _ _ _ Hf) as (c & r & E & Hc). rewrite E.
  destruct (word_head_plain c r Hc) as (_ & Hclose & Hdir).
  rewrite Hclose, Hdir, !andb_false_r.
  now destruct (inModelBlock st && truthy (currentModel st) && truthy (currentTable st)).
Qed.

Lemma fieldLine_guard (table line name fieldRest : string) :
  matchField (trim line) = Some (name, fieldRest) ->
  fieldLine lib columnMap table line
  = if negb (includes fieldRest "@map(") && shouldTransform name then
      if negb (String.eqb (camelCase lib name) name) then
        replaceFieldName line name
          (orElse (mapGet columnMap (table ++ "." ++ name)) (camelCase lib name))
        ++ fieldMapSuffix name
      else line
    else line.
Proof.
  intros Hf. unfold fieldLine. rewrite Hf.
  destruct (matchField_head _ _ _ Hf) as (c & r & E & Hc). rewrite E.
  destruct (word_head_plain c r Hc) as (Hs & _ & _). rewrite Hs. reflexivity.
Qed.

(** The shape of a renamed field declaration: indentation, the expansion of
    the new name and one space, the rest of the line, the annotation. *)
Lemma fieldLine_renamed (table raw name fieldRest : string) :
  matchField (trimmedOf raw) = Some (name, fieldRest) ->
  includes fieldRest "@map(" = false ->
  shouldTransform name = true ->
  camelCase lib name <> name ->
  exists indent ws rest,
    lineOf raw = indent ++ name ++ ws ++ rest
    /\ allChars isWhiteSpace indent = true
    /\ allChars isWhiteSpace ws = true
    /\ ws <> EmptyString
    /\ match rest with EmptyString => True | String c _ => isWhiteSpace c = false end
    /\ fieldLine lib columnMap table (lineOf raw)
       = indent
         ++ getSubstitution (indent ++ name ++ ws) EmptyString rest [Some indent]
              (orElse (mapGet columnMap (table ++ "." ++ name)) (camelCase lib name) ++ " ")
         ++ rest ++ fieldMapSuffix name.
Proof.
  intros Hf Hm Hs Hc.
  destruct (matchField_shape _ _ _ Hf) as (ws & rest & Et & Hn & Hw & An & Aw & Sw & Hr).
  destruct (span isWhiteSpace (lineOf raw)) as [indent t] eqn:Si.
  assert (Ht : t = trimmedOf raw).
  { rewrite trim_lineOf, trimStart_span, Si. reflexivity. }
  pose proof (span_app _ _ _ _ Si) as El. pose proof (span_all _ _ _ _ Si) as Ai.
  rewrite Ht, Et in El.
  exists indent, ws, rest. repeat split; try assumption.
  - destruct rest; [exact I | exact (proj1 Hr)].
  - rewrite (fieldLine_guard table (lineOf raw) name fieldRest Hf), Hm, Hs. simpl.
    destruct (String.eqb_spec (camelCase lib name) name) as [E|_]; [contradiction|]. simpl.
    rewrite El at 1. rewrite replaceFieldName_shape by assumption.
    now rewrite !append_assoc.
Qed.

Lemma fieldLine_annotated (table line name fieldRest : string) :
  matchField (trim line) = Some (name, fieldRest) ->
  includes fieldRest "@map(" = true ->
  fieldLine lib columnMap table line = line.
Proof. intros Hf Hm. rewrite (fieldLine_guard _ _ _ _ Hf), Hm. reflexivity. Qed.

Lemma fieldLine_upper (table line name fieldRest : string) :
  matchField (trim line) = Some (name, fieldRest) ->
  hasUpperCase name = true ->
  fieldLine lib columnMap table line = line.
Proof.
  intros Hf Hu. rewrite (fieldLine_guard _ _ _ _ Hf), shouldTransform_hasUpperCase, Hu.
  now rewrite andb_false_r.
Qed.




(** Outside a block only a header is rewritten. *)
Lemma step_outside (st : State) (raw : string) (following : list string) :
  matchModelHeader (trimmedOf raw) = None ->
  inModelBlock st = false ->
  step lib tableMap columnMap st raw following = (st, [lineOf raw]).
Proof.
  intros Hh Hb. unfold trimmedOf, lineOf in *. unfold step. cbv zeta.
  now rewrite Hh, Hb.
Qed.

End StepFacts.

(* ================================================================== *)
(** ** Facts about the directive rewriter *)
(* ================================================================== *)

Section DirectiveFacts.

Variable lib : NameLib.
Variable columnMap : Map.

(** An entry whose identifier has an upper-case character triggers no
    substitution. *)
Lemma replaceToken_upper (table acc name params : string) :
  hasUpperCase name = true ->
  replaceToken lib columnMap table acc (name, params) = acc.
Proof.
  intros H. unfold replaceToken. now rewrite shouldTransform_hasUpperCase, H.
Qed.

Lemma fold_replaceToken_upper (table : string) (toks : list (string * string)) (acc : string) :
  Forall (fun tok => hasUpperCase (fst tok) = true) toks ->
  fold_left (replaceToken lib columnMap table) toks acc = acc.
Proof.
  intros H. revert acc. induction H as [|[n p] toks Hn _ IH]; intros acc; cbn [fold_left].
  - reflexivity.
  - rewrite (replaceToken_upper table acc n p Hn). apply IH.
Qed.

(** Replacing a text without dollar sign by itself changes nothing. *)
Lemma replaceString_self (s pat : string) :
  noDollar pat = true -> replaceString s pat pat = s.
Proof.
  intros H. unfold replaceString.
  destruct (findFirst s pat) as [[b a]|] eqn:E; [|reflexivity].
  rewrite getSubstitution_noDollar by exact H.
  symmetry. now apply findFirst_Some.
Qed.

Lemma directive_upper_unchanged (line table fieldsStr : string) :
  matchDirective line = Some fieldsStr ->
  Forall (fun tok => hasUpperCase (fst tok) = true) (tokens fieldsStr) ->
  noDollar fieldsStr = true ->
  transformDirectiveFields lib line columnMap table = line.
Proof.
  intros Hm Hu Hd. unfold transformDirectiveFields. rewrite Hm.
  rewrite fold_replaceToken_upper by exact Hu.
  unfold replaceBracketed. apply replaceString_self.
  unfold noDollar in *. change ("[" ++ fieldsStr ++ "]") with (String "[" (fieldsStr ++ "]")).
  simpl. rewrite allChars_app, Hd. reflexivity.
Qed.

End DirectiveFacts.

(* ================================================================== *)
(** ** Facts about the resolution of the table of a header *)
(* ================================================================== *)

Section TableFacts.

Variable lib : NameLib.

Lemma findTable_entry (model t : string) (r : Map) :
  isEmpty model = false ->
  findTable lib ((t, transformTableName lib t) :: r) model
  = if tableMatches lib t model then Some (t, transformTableName lib t)
    else findTable lib r model.
Proof.
  intros Hm. unfold tableMatches. simpl. rewrite Hm. simpl.
  destruct (String.eqb (transformTableName lib t) model); simpl; [reflexivity|].
  destruct (String.eqb t (toLowerCase model)); reflexivity.
Qed.

Lemma mapSet_built (m : Map) (t : string) :
  builtMap lib m -> builtMap lib (mapSet m t (transformTableName lib t)).
Proof.
  unfold builtMap. induction m as [|[k v] m IH]; intros Hb a b Hin; simpl in *.
  - destruct Hin as [E|[]]. now inversion E.
  - destruct (String.eqb_spec k t) as [->|_].
    + destruct Hin as [E|Hin]; [now inversion E | apply Hb; now right].
    + destruct Hin as [E|Hin]; [apply Hb; now left|].
      apply IH; [intros; apply Hb; now right | exact Hin].
Qed.

Lemma findTable_mapSet (m : Map) (model t : string) :
  isEmpty model = false -> builtMap lib m ->
  findTable lib (mapSet m t (transformTableName lib t)) model
  = match findTable lib m model with
    | Some r => Some r
    | None => if tableMatches lib t model then Some (t, transformTableName lib t) else None
    end.
Proof.
  intros Hm. induction m as [|[k v] m IH]; intros Hb.
  - simpl mapSet. now rewrite findTable_entry.
  - assert (Hv : v = transformTableName lib k) by (apply Hb; now left).
    assert (Hb' : builtMap lib m) by (intros a b Hin; apply Hb; now right).
    subst v. simpl mapSet. destruct (String.eqb_spec k t) as [->|_].
    + rewrite findTable_entry by exact Hm.
      destruct (tableMatches lib t model) eqn:E; [reflexivity|].
      destruct (findTable lib m model); reflexivity.
    + rewrite !findTable_entry by exact Hm.
      destruct (tableMatches lib k model); [reflexivity | now apply IH].
Qed.

Lemma findTable_fold (tables : list string) (acc : Map) (model : string) :
  isEmpty model = false -> builtMap lib acc ->
  findTable lib
    (fold_left
       (fun (m : Map) (t : string) =>
          if shouldTransform t then mapSet m t (transformTableName lib t) else m)
       tables acc) model
  = match findTable lib acc model with
    | Some r => Some r
    | None =>
        match find (flagged lib model) tables with
        | Some t => Some (t, transformTableName lib t)
        | None => None
        end
    end.
Proof.
  intros Hm. revert acc. induction tables as [|x xs IH]; intros acc Hb; simpl.
  - now destruct (findTable lib acc model).
  - unfold flagged at 1. destruct (shouldTransform x); simpl.
    + rewrite IH by now apply mapSet_built.
      rewrite findTable_mapSet by assumption.
      destruct (findTable lib acc model); [reflexivity|].
      destruct (tableMatches lib x model); reflexivity.
    + now apply IH.
Qed.

(** The header loop over the built map finds the first catalog table, in the
    order of the catalog, that the Classifier flags and that passes one of
    the three tests. *)
Lemma findTable_buildTableMap (tables : list string) (model : string) :
  isEmpty model = false ->
  findTable lib (buildTableMap lib tables) model
  = match find (flagged lib model) tables with
    | Some t => Some (t, transformTableName lib t)
    | None => None
    end.
Proof.
  intros Hm. unfold buildTableMap. rewrite findTable_fold; [reflexivity | exact Hm |].
  intros t tr [].
Qed.

Lemma find_first (f : string -> bool) (l1 l2 : list string) (t : string) :
  (forall x, In x l1 -> f x = false) -> f t = true ->
  find f (l1 ++ t :: l2)%list = Some t.
Proof.
  intros H1 Ht. induction l1 as [|x l1 IH]; simpl.
  - now rewrite Ht.
  - rewrite (H1 x (or_introl eq_refl)). apply IH. intros y Hy. apply H1. now right.
Qed.

End TableFacts.

(* ================================================================== *)
(** ** Facts about the cursor *)
(* ================================================================== *)

Section CursorFacts.

Variable lib : NameLib.
Variables tableMap columnMap : Map.

Lemma headerStep_cursor (st : State) (line model : string) (following : list string) :
  let st' := fst (headerStep lib tableMap st line model following) in
  currentModel st' = Some model /\ inModelBlock st' = true.
Proof.
  unfold headerStep. destruct (lookahead following) as [found|]; simpl.
  - now split.
  - destruct (findTable lib tableMap model) as [[t n]|]; simpl; now split.
Qed.

Lemma headerStep_table (st : State) (line model : string) (following : list string) :
  isEmpty model = false ->
  lookahead following <> Some None ->
  currentTable (fst (headerStep lib tableMap st line model following)) <> None.
Proof.
  intros Hm Hl. unfold headerStep.
  destruct (lookahead following) as [[n|]|]; simpl.
  - discriminate.
  - congruence.
  - destruct (findTable lib tableMap model) as [[t n]|]; simpl; [discriminate|].
    rewrite Hm. discriminate.
Qed.

(** The cases of one iteration, as far as the cursor is concerned. *)
Lemma step_cases (st : State) (raw : string) (following : list string) :
  let st' := fst (step lib tableMap columnMap st raw following) in
  match matchModelHeader (trimmedOf raw) with
  | Some model =>
      st' = fst (headerStep lib tableMap st (lineOf raw) model following)
  | None =>
      if inModelBlock st && String.eqb (trimmedOf raw) "}" then
        currentModel st' = None /\ currentTable st' = None /\ inModelBlock st' = false
      else st' = st
  end.
Proof.
  unfold trimmedOf, lineOf, step. cbv zeta.
  destruct (matchModelHeader (trim (trimEnd raw))) as [model|]; [reflexivity|].
  destruct (inModelBlock st && String.eqb (trim (trimEnd raw)) "}"); [now repeat split|].
  destruct (inModelBlock st && truthy (currentTable st) && isDirectiveLine (trim (trimEnd raw)));
    [reflexivity|].
  now destruct (inModelBlock st && truthy (currentModel st) && truthy (currentTable st)).
Qed.

Lemma step_invariant (st : State) (raw : string) (following : list string) :
  cursorInvariant st ->
  cursorInvariant (fst (step lib tableMap columnMap st raw following)).
Proof.
  intros Hinv. pose proof (step_cases st raw following) as H. cbv zeta in H.
  destruct (matchModelHeader (trimmedOf raw)) as [model|].
  - rewrite H.
    destruct (headerStep_cursor st (lineOf raw) model following) as [Hm Hb].
    unfold cursorInvariant. rewrite Hm, Hb.
    split; [split; [discriminate | reflexivity] | reflexivity].
  - destruct (inModelBlock st && String.eqb (trimmedOf raw) "}").
    + destruct H as (Hm & Ht & Hb). unfold cursorInvariant. rewrite Hm, Ht, Hb.
      split; [split; [discriminate | congruence] | congruence].
    + now rewrite H.
Qed.

Lemma stateAfter_invariant (processed remaining : list string) (st : State) :
  cursorInvariant st ->
  cursorInvariant (stateAfter lib tableMap columnMap st processed remaining).
Proof.
  revert st. induction processed as [|l rest IH]; intros st Hinv; simpl.
  - exact Hinv.
  - apply IH. now apply step_invariant.
Qed.

(** [stateAfter] is the state that [walk] threads. *)
Lemma walk_state (lines : list string) (st : State) :
  fst (walk lib tableMap columnMap st lines)
  = stateAfter lib tableMap columnMap st lines [].
Proof.
  revert st. induction lines as [|l rest IH]; intros st; cbn [walk stateAfter].
  - reflexivity.
  - rewrite app_nil_r.
    destruct (step lib tableMap columnMap st l rest) as [st' out] eqn:E.
    specialize (IH st').
    destruct (walk lib tableMap columnMap st' rest) as [st'' outs].
    exact IH.
Qed.

Lemma initialState_invariant : cursorInvariant initialState.
Proof. split; [split; [discriminate | intros H; now elim H] | intros H; now elim H]. Qed.

(** The cursor leaves a block exactly on the closing brace. *)
Lemma step_leaves_block (st : State) (raw : string) (following : list string) :
  inModelBlock st = true ->
  (inModelBlock (fst (step lib tableMap columnMap st raw following)) = false
   <-> trimmedOf raw = "}").
Proof.
  intros Hb. pose proof (step_cases st raw following) as H. cbv zeta in H.
  rewrite Hb in H. simpl in H.
  destruct (matchModelHeader (trimmedOf raw)) as [model|] eqn:Hh.
  - rewrite H.
    destruct (headerStep_cursor st (lineOf raw) model following) as [_ Hb'].
    rewrite Hb'. split; [discriminate|].
    intros E. apply header_not_close in Hh. rewrite E in Hh. discriminate Hh.
  - destruct (String.eqb_spec (trimmedOf raw) "}") as [E|N].
    + destruct H as (_ & _ & Hb'). now split.
    + rewrite H, Hb. split; [discriminate | contradiction].
Qed.

End CursorFacts.

(* ================================================================== *)
(** ** Facts about a block with an explicit table-mapping annotation *)
(* ================================================================== *)

Section AnnotatedBlock.

Variable lib : NameLib.
Variables tableMap columnMap : Map.

Lemma findFirst_unfold (s pat : string) :
  findFirst s pat
  = match stripPrefix pat s with
    | Some after => Some (EmptyString, after)
    | None =>
        match s with
        | EmptyString => None
        | String c r =>
            match findFirst r pat with
            | Some (b, a) => Some (String c b, a)
            | None => None
            end
        end
    end.
Proof. destruct s; reflexivity. Qed.

Lemma includes_app (pre pat post : string) : includes (pre ++ pat ++ post) pat = true.
Proof.
  unfold includes. induction pre as [|c pre IH]; cbn [append]; rewrite findFirst_unfold.
  - now rewrite stripPrefix_app.
  - destruct (stripPrefix pat (String c (pre ++ pat ++ post))); [reflexivity|].
    destruct (findFirst (pre ++ pat ++ post) pat) as [[b a]|]; [reflexivity | discriminate IH].
Qed.

Lemma quote_not_white (c : ascii) : isQuote c = true -> isWhiteSpace c = false.
Proof.
  destruct c as [[] [] [] [] [] [] [] []]; vm_compute; intros H;
    solve [ reflexivity | discriminate H ].
Qed.

(** The name is read at an annotation that starts the subject. *)
Lemma mapNameAt_annotation (ws1 name ws2 post : string) (q1 q2 : ascii) :
  allChars isWhiteSpace ws1 = true ->
  allChars isWhiteSpace ws2 = true ->
  isQuote q1 = true -> isQuote q2 = true ->
  allChars notQuote name = true -> name <> EmptyString ->
  mapNameAt ("@map(" ++ ws1 ++ String q1 (name ++ String q2 (ws2 ++ ")" ++ post)))
  = Some name.
Proof.
  intros H1 H2 Q1 Q2 Hn Hne. unfold mapNameAt.
  change ("@map(" ++ ws1 ++ String q1 (name ++ String q2 (ws2 ++ ")" ++ post)))
    with ("@map" ++ String "(" (ws1 ++ String q1 (name ++ String q2 (ws2 ++ ")" ++ post)))).
  rewrite stripPrefix_app.
  assert (S0 : forall r, span isWhiteSpace (String "(" r) = (EmptyString, String "(" r))
    by reflexivity.
  rewrite S0. cbn [snd].
  rewrite (span_run isWhiteSpace ws1 (String q1 (name ++ String q2 (ws2 ++ ")" ++ post)))
             H1 (quote_not_white q1 Q1)).
  cbn [snd]. rewrite Q1.
  assert (Sn : span notQuote (name ++ String q2 (ws2 ++ ")" ++ post))
               = (name, String q2 (ws2 ++ ")" ++ post))).
  { apply span_run; [exact Hn|]. unfold notQuote. now rewrite Q2. }
  rewrite Sn.
  destruct name as [|c n]; [congruence|]. cbn [isEmpty].
  assert (S2 : span isWhiteSpace (ws2 ++ ")" ++ post) = (ws2, ")" ++ post)).
  { apply span_run; [exact H2 | reflexivity]. }
  rewrite S2. reflexivity.
Qed.

(** On a line of the form [isTableAnnotation] the test of the look-ahead
    passes and the expression reads the annotated name. *)
Lemma matchMapName_unfold (s : string) :
  matchMapName s
  = match mapNameAt s with
    | Some n => Some n
    | None => match s with EmptyString => None | String _ r => matchMapName r end
    end.
Proof. destruct s; reflexivity. Qed.

Lemma annotation_recognized (l name : string) :
  isTableAnnotation l name ->
  includes l "@@map(" = true /\ matchMapName l = Some name.
Proof.
  intros (pre & ws1 & q1 & q2 & ws2 & post & -> & Hp & H1 & H2 & Q1 & Q2 & Hn & Hne).
  split; [apply includes_app|].
  set (body := ws1 ++ String q1 (name ++ String q2 (ws2 ++ ")" ++ post))).
  assert (Hat : matchMapName ("@map(" ++ body) = Some name).
  { rewrite matchMapName_unfold. unfold body. now rewrite mapNameAt_annotation. }
  induction pre as [|c pre IH].
  - change (EmptyString ++ "@@map(" ++ body) with (String "@" ("@map(" ++ body)).
    rewrite matchMapName_unfold.
    change (mapNameAt (String "@" ("@map(" ++ body))) with (@None string).
    exact Hat.
  - simpl in Hp. apply andb_true_iff in Hp as [Hc Hp].
    change (String c pre ++ "@@map(" ++ body) with (String c (pre ++ "@@map(" ++ body)).
    rewrite matchMapName_unfold.
    assert (E : mapNameAt (String c (pre ++ "@@map(" ++ body)) = None).
    { unfold mapNameAt. cbn [stripPrefix].
      destruct (Ascii.eqb_spec "@" c) as [<-|_]; [discriminate Hc | reflexivity]. }
    rewrite E. exact (IH Hp).
Qed.

Lemma lookahead_annotation (before after : list string) (ann name : string) :
  (forall l, In l before -> startsWith (trim l) "}" = false /\ includes l "@@map(" = false) ->
  startsWith (trim ann) "}" = false ->
  isTableAnnotation ann name ->
  lookahead (before ++ ann :: after)%list = Some (Some name).
Proof.
  intros Hb Ha Hann. induction before as [|l before IH]; cbn [app lookahead].
  - destruct (annotation_recognized _ _ Hann) as [Hi Hm]. now rewrite Ha, Hi, Hm.
  - destruct (Hb l (or_introl eq_refl)) as [H1 H2]. rewrite H1, H2.
    apply IH. intros x Hx. apply Hb. now right.
Qed.

(** Inside a block whose table is known, a line that is neither a header nor
    the closing brace is rewritten with that table and leaves the cursor as
    it is. *)
Lemma step_block (model table : string) (hasMap : bool) (raw : string)
    (following : list string) :
  model <> EmptyString -> table <> EmptyString ->
  matchModelHeader (trimmedOf raw) = None ->
  trimmedOf raw <> "}" ->
  step lib tableMap columnMap (inBlock model table hasMap) raw following
  = (inBlock model table hasMap, [blockLine lib columnMap table raw]).
Proof.
  intros Hm Ht Hh Hc. unfold blockLine, trimmedOf, lineOf in *. unfold step. cbv zeta.
  rewrite Hh. cbn [inBlock inModelBlock currentTable currentModel tableOf andb].
  destruct (String.eqb_spec (trim (trimEnd raw)) "}") as [E|_]; [contradiction|].
  destruct model; [congruence|]. destruct table; [congruence|]. cbn [truthy andb].
  now destruct (isDirectiveLine (trim (trimEnd raw))).
Qed.

Lemma walk_block (model table : string) (hasMap : bool) (body tail : list string) :
  model <> EmptyString -> table <> EmptyString ->
  (forall l, In l body -> matchModelHeader (trimmedOf l) = None /\ trimmedOf l <> "}") ->
  walk lib tableMap columnMap (inBlock model table hasMap) (body ++ tail)%list
  = (fst (walk lib tableMap columnMap (inBlock model table hasMap) tail),
     (map (blockLine lib columnMap table) body
      ++ snd (walk lib tableMap columnMap (inBlock model table hasMap) tail))%list).
Proof.
  intros Hm Ht Hb. induction body as [|l body IH]; cbn [app map walk].
  - now destruct (walk lib tableMap columnMap (inBlock model table hasMap) tail).
  - destruct (Hb l (or_introl eq_refl)) as [Hh Hc].
    rewrite (step_block model table hasMap l (body ++ tail)%list Hm Ht Hh Hc).
    rewrite IH by (intros x Hx; apply Hb; now right). reflexivity.
Qed.

End AnnotatedBlock.

(* ================================================================== *)
(** ** The primitives on sample inputs *)
(* ================================================================== *)

Section Samples.

(** The patterns of a replacement template; [$1] is literal without groups. *)
Example replaceString_patterns :
  replaceString "abcabc" "bc" "[$&|$`|$'|$1|$$|$0|$]" = "a[bc|a|abc|$1|$|$0|$]abc".
Proof. vm_compute. reflexivity. Qed.

(** A digit after [$1] does not make a two-digit reference with one group. *)
Example replaceFieldName_digit :
  replaceFieldName "  a_b   Int" "a_b" "1x" = "  1x Int".
Proof. vm_compute. reflexivity. Qed.

(** A parameter group needs its closing parenthesis; without it the scan
    goes on inside the parentheses. *)
Example tokens_sample :
  tokens "a(b, c) d(e" = [("a", "(b, c)"); ("d", EmptyString); ("e", EmptyString)].
Proof. vm_compute. reflexivity. Qed.

(** White space at the end of the subject is given back to group 2. *)
Example matchField_gives_back : matchField "ab  " = Some ("ab", " ").
Proof. vm_compute. reflexivity. Qed.

Example matchModelHeader_needs_space : matchModelHeader "model Foo{" = None.
Proof. vm_compute. reflexivity. Qed.

(** The leftmost start that matches, not the leftmost directive name. *)
Example matchDirective_leftmost :
  matchDirective "@@index [x] @@unique( [a, b] )" = Some "a, b".
Proof. vm_compute. reflexivity. Qed.

(** On a list of subjects chosen for the corners of the expressions (runs
    that reach the end, line terminators, missing or nested parentheses,
    several candidates on a line) the direct matchers and the reference
    matcher agree. *)
Example matchers_agree : forallb Reference.agreeOn Reference.subjects = true.
Proof. vm_compute. reflexivity. Qed.

Example mapSet_keeps_place :
  mapSet [("a", "1"); ("b", "2")] "a" "3" = [("a", "3"); ("b", "2")].
Proof. vm_compute. reflexivity. Qed.

Example specLib_samples :
  camelCase SpecLib.lib "user_id" = "userId"
  /\ transformTableName SpecLib.lib "order_items" = "OrderItem"
  /\ transformTableName SpecLib.lib "categories" = "Category".
Proof. vm_compute. repeat split. Qed.

End Samples.

(* ================================================================== *)
(** ** Facts about the frame of a rewrite *)
(* ================================================================== *)

Section FrameFacts.

Variable lib : NameLib.
Variables tableMap columnMap : Map.








End FrameFacts.

Section GateFacts.

Variable lib : NameLib.
Variables tableMap columnMap : Map.

(** A text that starts with [p], a text other than a closing brace at its
    first unit, does not start with a closing brace. *)
Lemma startsWith_other (s p : string) (c : ascii) :
  startsWith s (String c p) = true -> Ascii.eqb "}" c = false -> startsWith s "}" = false.
Proof.
  unfold startsWith. destruct s as [|x s]; [discriminate|]. cbn [stripPrefix].
  destruct (Ascii.eqb_spec c x) as [<-|_]; [|discriminate].
  intros _ ->. reflexivity.
Qed.

(** A header whose look-ahead finds no line with the text of an annotation:
    the table comes from the catalog or from the model name. *)
Lemma step_resolved (st : State) (raw model : string) (following : list string) :
  matchModelHeader (trimmedOf raw) = Some model ->
  lookahead following = None ->
  step lib tableMap columnMap st raw following
  = match findTable lib tableMap model with
    | Some (t, n) =>
        ({| currentModel := Some model; currentTable := Some t;
            inModelBlock := true; tableHasMap := false |},
         ("model " ++ n ++ " {") :: synthesizedMap lib (Some t))
    | None =>
        ({| currentModel := Some model; currentTable := Some (toLowerCase model);
            inModelBlock := true; tableHasMap := false |},
         lineOf raw :: synthesizedMap lib (Some (toLowerCase model)))
    end.
Proof.
  intros Hh Hl. unfold trimmedOf, lineOf in *. unfold step. cbv zeta. rewrite Hh.
  unfold headerStep. rewrite Hl.
  destruct (findTable lib tableMap model) as [[t n]|]; [reflexivity|].
  now rewrite (header_name_nonempty _ _ Hh).
Qed.

(** A header whose look-ahead stops on a line with the text of an
    annotation: the catalog is not consulted. *)
Lemma step_gated (st : State) (raw model : string) (following : list string)
    (found : option string) :
  matchModelHeader (trimmedOf raw) = Some model ->
  lookahead following = Some found ->
  step lib tableMap columnMap st raw following
  = ({| currentModel := Some model;
        currentTable := match found with Some n => Some n | None => currentTable st end;
        inModelBlock := true; tableHasMap := true |},
     [lineOf raw]).
Proof.
  intros Hh Hl. unfold trimmedOf, lineOf in *. unfold step. cbv zeta. rewrite Hh.
  unfold headerStep. now rewrite Hl.
Qed.

Lemma lookahead_first (before after : list string) (l : string) :
  (forall x, In x before -> startsWith (trim x) "}" = false /\ includes x "@@map(" = false) ->
  startsWith (trim l) "}" = false ->
  includes l "@@map(" = true ->
  lookahead (before ++ l :: after)%list = Some (matchMapName l).
Proof.
  intros Hb Hc Hi. induction before as [|x before IH]; cbn [app lookahead].
  - now rewrite Hc, Hi.
  - destruct (Hb x (or_introl eq_refl)) as [H1 H2]. rewrite H1, H2.
    apply IH. intros y Hy. apply Hb. now right.
Qed.

End GateFacts.

(* ================================================================== *)
(** ** The claims *)
(* ================================================================== *)

(** Closed equations between computed values. *)
Ltac run := vm_compute; reflexivity.

(** Evaluation of a closed call in which the naming packages are only known
    by the equations [H1], [H2], [H3]. *)
Ltac eval_with H1 H2 H3 :=
  cbv -[camelCase pascalCase singular];
  rewrite ?H1, ?H2, ?H3;
  vm_compute;
  reflexivity.

(** Replaces a closed call [t] by its value. *)
Ltac value_of t H1 H2 H3 :=
  let r := fresh "r" in
  let E := fresh "E" in
  let T := type of t in
  evar (r : T);
  assert (E : t = r) by (subst r; eval_with H1 H2 H3);
  subst r; rewrite E; clear E.

(** Runs the first iteration of the loop that the goal mentions. *)
Ltac first_step H1 H2 H3 :=
  cbn [walk];
  lazymatch goal with
  | |- context [step ?l ?tm ?cm ?st ?line ?rest] =>
      value_of (step l tm cm st line rest) H1 H2 H3
  end;
  cbv beta iota.

(** C1.  With the catalog tables [order_items] and columns
    [(order_items, user_id)], the text made of the lines [model order_items {],
    [  user_id Int], [}] is converted to the header [model OrderItem {], the
    synthesized table annotation, the renamed and annotated field, and the
    closing brace. *)
Theorem C1_end_to_end_scenario (lib : NameLib) :
  camelCase lib "user_id" = "userId" ->
  pascalCase lib (singular lib "order_items") = "OrderItem" ->
  convertToCamelAndPascal lib
    (join newline ["model order_items {"; "  user_id Int"; "}"])
    ["order_items"] [("order_items", "user_id")]
  = join newline
      ["model OrderItem {";
       "  @@map(" ++ String dquote "order_items" ++ String dquote ")";
       "  userId Int @map(" ++ String dquote "user_id" ++ String dquote ")";
       "}"].
Proof.
  intros Hc Hp. unfold convertToCamelAndPascal.
  value_of (buildTableMap lib ["order_items"]) Hc Hp Hp.
  value_of (buildColumnMap lib [("order_items", "user_id")]) Hc Hp Hp.
  value_of (split "010" (join newline ["model order_items {"; "  user_id Int"; "}"])) Hc Hp Hp.
  cbv zeta. do 3 first_step Hc Hp Hp. run.
Qed.

Lemma C1_end_to_end_scenario_witness :
  convertToCamelAndPascal SpecLib.lib
    (join newline ["model order_items {"; "  user_id Int"; "}"])
    ["order_items"] [("order_items", "user_id")]
  = join newline
      ["model OrderItem {";
       "  @@map(" ++ String dquote "order_items" ++ String dquote ")";
       "  userId Int @map(" ++ String dquote "user_id" ++ String dquote ")";
       "}"].
Proof.
  apply (C1_end_to_end_scenario SpecLib.lib); run.
Defined.

(** C2 (the code departs from the claim).  On the list [a_bMixed, a_b] the
    rewriter looks for the text [a_b] of the second entry in the whole list
    and replaces its first occurrence, which lies inside the first entry: the
    first entry is corrupted and the second is left as it was. *)
Theorem C2_first_occurrence_is_replaced (lib : NameLib) :
  camelCase lib "a_b" = "aB" ->
  tokens "a_bMixed, a_b" = [("a_bMixed", EmptyString); ("a_b", EmptyString)]
  /\ transformDirectiveFields lib "  @@index([a_bMixed, a_b])"
       (buildColumnMap lib [("t", "a_b")]) "t"
     = "  @@index([aBMixed, a_b])".
Proof.
  intros Hc. split; [run|].
  value_of (buildColumnMap lib [("t", "a_b")]) Hc Hc Hc.
  eval_with Hc Hc Hc.
Qed.

Lemma C2_first_occurrence_is_replaced_witness :
  transformDirectiveFields SpecLib.lib "  @@index([a_bMixed, a_b])"
    (buildColumnMap SpecLib.lib [("t", "a_b")]) "t"
  = "  @@index([aBMixed, a_b])".
Proof.
  apply (C2_first_occurrence_is_replaced SpecLib.lib). run.
Defined.

(** When the first line of a block that contains the text of
    a table-mapping annotation, before any line that starts with a closing
    brace, is an annotation spelled with the parenthesis right after the
    attribute name (white space allowed inside the parentheses, single or
    double quotes, no at sign before it on the line), the walker takes the
    annotated name as the table of the block: the header is pushed as it is,
    nothing is synthesized, the table map is not consulted, and every line of
    the block up to its closing brace is rewritten with the annotated name as
    the table of the column look-ups, whatever the catalog contains. *)
Lemma explicit_annotation_priority (lib : NameLib) (tableMap columnMap : Map)
    (st : State) (header model : string)
    (before after : list string) (ann name closing : string) (tail : list string) :
  matchModelHeader (trimmedOf header) = Some model ->
  (forall l, In l before -> startsWith (trim l) "}" = false /\ includes l "@@map(" = false) ->
  startsWith (trim ann) "}" = false ->
  isTableAnnotation ann name ->
  (forall l, In l (before ++ ann :: after)%list ->
     matchModelHeader (trimmedOf l) = None /\ trimmedOf l <> "}") ->
  trimmedOf closing = "}" ->
  walk lib tableMap columnMap st (header :: (before ++ ann :: after) ++ closing :: tail)%list
  = (fst (walk lib tableMap columnMap
            {| currentModel := None; currentTable := None;
               inModelBlock := false; tableHasMap := true |} tail),
     (lineOf header
      :: map (blockLine lib columnMap name) (before ++ ann :: after)
      ++ lineOf closing
      :: snd (walk lib tableMap columnMap
                {| currentModel := None; currentTable := None;
                   inModelBlock := false; tableHasMap := true |} tail))%list).
Proof.
  intros Hh Hb Ha Hann Hbody Hc.
  assert (Hm : model <> EmptyString)
    by (apply isEmpty_false; exact (header_name_nonempty _ _ Hh)).
  assert (Hn : name <> EmptyString)
    by (destruct Hann as (? & ? & ? & ? & ? & ? & _ & _ & _ & _ & _ & _ & _ & H); exact H).
  cbn [walk].
  assert (E : step lib tableMap columnMap st header
                ((before ++ ann :: after) ++ closing :: tail)%list
              = (inBlock model name true, [lineOf header])).
  { unfold trimmedOf in Hh. unfold step. cbv zeta. rewrite Hh. unfold headerStep.
    rewrite <- app_assoc. cbn [app].
    now rewrite (lookahead_annotation before (after ++ closing :: tail)%list ann name
                   Hb Ha Hann). }
  rewrite E.
  rewrite (walk_block lib tableMap columnMap model name true (before ++ ann :: after)
             (closing :: tail) Hm Hn Hbody).
  cbn [walk fst snd].
  assert (Ec : step lib tableMap columnMap (inBlock model name true) closing tail
               = ({| currentModel := None; currentTable := None;
                     inModelBlock := false; tableHasMap := true |}, [lineOf closing])).
  { unfold trimmedOf in Hc. unfold step. cbv zeta. rewrite Hc. reflexivity. }
  rewrite Ec.
  destruct (walk lib tableMap columnMap
              {| currentModel := None; currentTable := None;
                 inModelBlock := false; tableHasMap := true |} tail) as [st' outs].
  reflexivity.
Qed.

Lemma explicit_annotation_priority_sample :
  isTableAnnotation "  @@map( 'legacy_tbl' )" "legacy_tbl"
  /\ mapGet (buildTableMap SpecLib.lib ["foos"; "users"]) "legacy_tbl" = None
  /\ walk SpecLib.lib (buildTableMap SpecLib.lib ["foos"; "users"])
       [("legacy_tbl.a_b", "aB"); ("foos.c_d", "cD")] initialState
       ["model Foo {"; "  id Int"; "  @@map( 'legacy_tbl' )"; "  a_b Int";
        "  @@index([a_b, c_d])"; "}"; "// end"]
     = ({| currentModel := None; currentTable := None;
           inModelBlock := false; tableHasMap := true |},
        ["model Foo {"; "  id Int"; "  @@map( 'legacy_tbl' )";
         "  aB Int @map(" ++ String dquote "a_b" ++ String dquote ")";
         "  @@index([aB, cD])"; "}"; "// end"]).
Proof.
  assert (Hann : isTableAnnotation "  @@map( 'legacy_tbl' )" "legacy_tbl").
  { exists "  ", " ", squote, squote, " ", EmptyString.
    repeat split; try reflexivity. discriminate. }
  split; [exact Hann|]. split; [run|].
  pose proof
    (explicit_annotation_priority SpecLib.lib
       (buildTableMap SpecLib.lib ["foos"; "users"])
       [("legacy_tbl.a_b", "aB"); ("foos.c_d", "cD")] initialState
       "model Foo {" "Foo" ["  id Int"] ["  a_b Int"; "  @@index([a_b, c_d])"]
       "  @@map( 'legacy_tbl' )" "legacy_tbl" "}" ["// end"]
       ltac:(run)
       ltac:(intros l [<-|[]]; split; run)
       ltac:(run)
       Hann
       ltac:(intros l [<-|[<-|[<-|[<-|[]]]]]; (split; [run | vm_compute; discriminate]))
       ltac:(run)) as E.
  cbn [app] in E. rewrite E. run.
Qed.

(** C3 (the code departs from the claim).  An annotation line spelled with
    white space between the name of the attribute and its parenthesis, from
    which the expression of the look-ahead reads the name, is not seen by the
    look-ahead, whose test is the text of the attribute with the parenthesis
    right after it: the header is resolved as if the block had no annotation,
    against the catalog or to the lower-cased model name, the annotated name
    is not taken as table, and an annotation of the resolved table is
    synthesized when the transformation changes its name. *)
Theorem C3_spaced_annotation_is_missed (lib : NameLib) (tableMap columnMap : Map)
    (st : State) (header model ann name : string) (rest : list string) :
  matchModelHeader (trimmedOf header) = Some model ->
  startsWith (trim ann) "@@map" = true ->
  matchMapName ann = Some name ->
  includes ann "@@map(" = false ->
  lookahead rest = None ->
  step lib tableMap columnMap st header (ann :: rest)
  = match findTable lib tableMap model with
    | Some (t, n) =>
        ({| currentModel := Some model; currentTable := Some t;
            inModelBlock := true; tableHasMap := false |},
         ("model " ++ n ++ " {") :: synthesizedMap lib (Some t))
    | None =>
        ({| currentModel := Some model; currentTable := Some (toLowerCase model);
            inModelBlock := true; tableHasMap := false |},
         lineOf header :: synthesizedMap lib (Some (toLowerCase model)))
    end.
Proof.
  intros Hh Ha _ Hi Hl. apply step_resolved; [exact Hh|].
  cbn [lookahead]. rewrite Hi.
  now destruct (startsWith (trim ann) "}").
Qed.

Lemma C3_spaced_annotation_is_missed_witness :
  matchMapName "  @@map ('legacy_tbl')" = Some "legacy_tbl"
  /\ step SpecLib.lib (buildTableMap SpecLib.lib []) (buildColumnMap SpecLib.lib [])
       initialState "model Foo {" ["  @@map ('legacy_tbl')"; "  @@index([a_b])"; "}"]
     = (inBlock "Foo" "foo" false,
        ["model Foo {"; "  @@map(" ++ String dquote "foo" ++ String dquote ")"])
  /\ currentTable
       (fst (step SpecLib.lib (buildTableMap SpecLib.lib []) (buildColumnMap SpecLib.lib [])
               initialState "model Foo {"
               ["  @@map ('legacy_tbl')"; "  @@index([a_b])"; "}"]))
     <> Some "legacy_tbl".
Proof.
  pose proof (C3_spaced_annotation_is_missed SpecLib.lib (buildTableMap SpecLib.lib [])
                (buildColumnMap SpecLib.lib []) initialState "model Foo {" "Foo"
                "  @@map ('legacy_tbl')" "legacy_tbl" ["  @@index([a_b])"; "}"]
                ltac:(run) ltac:(run) ltac:(run) ltac:(run) ltac:(run)) as E.
  split; [run|]. split.
  - rewrite E. run.
  - rewrite E. vm_compute. discriminate.
Defined.




(** C5 (the code departs from the claim).  The entry [field_name(sort: Desc)]
    alone becomes [fieldName(sort: Desc)].  In the list [a_a(b_c), b_c] the
    text [b_c] of the second entry is first found inside the parameter of the
    first one: the parameter text of the first entry is altered and the
    second entry is left as it was.  In the list
    [Xb_c(sort: Desc), b_c(sort: Desc)] the text of the second entry is first
    found inside the first one, which is rewritten in its place. *)
Theorem C5_parameter_text_altered (lib : NameLib) :
  camelCase lib "field_name" = "fieldName" ->
  camelCase lib "a_a" = "aA" ->
  camelCase lib "b_c" = "bC" ->
  let columnMap := buildColumnMap lib [("t", "field_name"); ("t", "a_a"); ("t", "b_c")] in
  transformDirectiveFields lib "  @@index([field_name(sort: Desc)])" columnMap "t"
  = "  @@index([fieldName(sort: Desc)])"
  /\ tokens "a_a(b_c), b_c" = [("a_a", "(b_c)"); ("b_c", EmptyString)]
  /\ transformDirectiveFields lib "  @@index([a_a(b_c), b_c])" columnMap "t"
     = "  @@index([aA(bC), b_c])"
  /\ tokens "Xb_c(sort: Desc), b_c(sort: Desc)"
     = [("Xb_c", "(sort: Desc)"); ("b_c", "(sort: Desc)")]
  /\ transformDirectiveFields lib "  @@index([Xb_c(sort: Desc), b_c(sort: Desc)])"
       columnMap "t"
     = "  @@index([XbC(sort: Desc), b_c(sort: Desc)])".
Proof.
  intros H1 H2 H3 columnMap. subst columnMap.
  value_of (buildColumnMap lib [("t", "field_name"); ("t", "a_a"); ("t", "b_c")]) H1 H2 H3.
  split; [|split; [|split; [|split]]].
  - eval_with H1 H2 H3.
  - run.
  - eval_with H1 H2 H3.
  - run.
  - eval_with H1 H2 H3.
Qed.

Lemma C5_parameter_text_altered_witness :
  transformDirectiveFields SpecLib.lib "  @@index([a_a(b_c), b_c])"
    (buildColumnMap SpecLib.lib [("t", "field_name"); ("t", "a_a"); ("t", "b_c")]) "t"
  = "  @@index([aA(bC), b_c])".
Proof.
  apply (C5_parameter_text_altered SpecLib.lib); run.
Defined.

(** C6 (amended).  A field declaration whose identifier contains an
    upper-case character is pushed without rename and without annotation,
    for every catalog and every state of the cursor.  A directive entry whose
    identifier contains an upper-case character triggers no substitution, and
    a directive line all of whose entries are such, with no dollar sign in its
    list, is returned unchanged.  The identifier of a model header is not
    covered. *)
Theorem C6_upper_case_untouched (lib : NameLib) (tableMap columnMap : Map) :
  (forall st raw following name fieldRest,
     matchField (trimmedOf raw) = Some (name, fieldRest) ->
     hasUpperCase name = true ->
     step lib tableMap columnMap st raw following = (st, [trimEnd raw]))
  /\ (forall table acc name params,
        hasUpperCase name = true ->
        replaceToken lib columnMap table acc (name, params) = acc)
  /\ (forall line table fieldsStr,
        matchDirective line = Some fieldsStr ->
        Forall (fun tok => hasUpperCase (fst tok) = true) (tokens fieldsStr) ->
        noDollar fieldsStr = true ->
        transformDirectiveFields lib line columnMap table = line).
Proof.
  split; [|split].
  - intros st raw following name fieldRest Hf Hu.
    assert (Hh : matchModelHeader (trimmedOf raw) = None).
    { destruct (matchModelHeader (trimmedOf raw)) as [model|] eqn:E; [|reflexivity].
      rewrite (header_reads_model _ _ _ _ E Hf) in Hu. discriminate Hu. }
    rewrite (step_field lib tableMap columnMap st raw following _ _ Hh Hf).
    unfold lineOf. rewrite (fieldLine_upper lib columnMap (tableOf st) _ _ _ Hf Hu).
    now destruct (inModelBlock st && truthy (currentModel st) && truthy (currentTable st)).
  - intros table acc name params. apply replaceToken_upper.
  - intros line table fieldsStr. apply directive_upper_unchanged.
Qed.

Lemma C6_upper_case_untouched_witness :
  step SpecLib.lib [("t", "T")] [("t.userid", "userid")] (inBlock "T" "t" false)
    "  userId Int " []
  = (inBlock "T" "t" false, ["  userId Int"])
  /\ replaceToken SpecLib.lib [] "t" "userId(sort: Desc), b" ("userId", "(sort: Desc)")
     = "userId(sort: Desc), b"
  /\ transformDirectiveFields SpecLib.lib "  @@index([userId, createdAt(sort: Desc)])" [] "t"
     = "  @@index([userId, createdAt(sort: Desc)])".
Proof.
  destruct (C6_upper_case_untouched SpecLib.lib [("t", "T")] [("t.userid", "userid")])
    as (Hfield & _ & _).
  destruct (C6_upper_case_untouched SpecLib.lib [] []) as (_ & Htoken & Hline).
  split; [|split].
  - apply (Hfield (inBlock "T" "t" false) "  userId Int " [] "userId" "Int"); run.
  - apply Htoken. run.
  - apply (Hline _ "t" "userId, createdAt(sort: Desc)").
    + run.
    + vm_compute. repeat constructor.
    + run.
Defined.

(** C6, as stated, fails on model headers: a header whose identifier has
    upper-case characters is given a synthesized annotation, and is rewritten
    when the catalog has a table with its lower-cased name. *)
Lemma C6_counterexample :
  hasUpperCase "OrderItems" = true
  /\ snd (walk SpecLib.lib (buildTableMap SpecLib.lib []) [] initialState
            ["model OrderItems {"; "}"])
     = ["model OrderItems {"; "  @@map(" ++ String dquote "orderitems" ++ String dquote ")"; "}"]
  /\ snd (walk SpecLib.lib (buildTableMap SpecLib.lib ["orderitems"]) [] initialState
            ["model OrderItems {"; "}"])
     = ["model Orderitem {"; "  @@map(" ++ String dquote "orderitems" ++ String dquote ")"; "}"].
Proof. vm_compute. repeat split. Qed.

(** C7 (the code departs from the claim).  On a block with the directive
    [@@index([a_bMixed, a_b])] the first pass rewrites the first entry instead
    of the second, and a second pass over its output, with the same catalog,
    rewrites the second entry: the output of the first pass is not a fixed
    point. *)
Theorem C7_second_pass_changes_output (lib : NameLib) :
  camelCase lib "a_b" = "aB" ->
  pascalCase lib (singular lib "t") = "T" ->
  let convert := fun text => convertToCamelAndPascal lib text ["t"] [("t", "a_b")] in
  let schema :=
    join newline ["model T {"; "  @@map('t')"; "  @@index([a_bMixed, a_b])"; "}"] in
  convert schema
  = join newline ["model T {"; "  @@map('t')"; "  @@index([aBMixed, a_b])"; "}"]
  /\ convert (convert schema)
     = join newline ["model T {"; "  @@map('t')"; "  @@index([aBMixed, aB])"; "}"]
  /\ convert (convert schema) <> convert schema.
Proof.
  intros Hc Hp convert schema.
  assert (E1 : convert schema
               = join newline ["model T {"; "  @@map('t')"; "  @@index([aBMixed, a_b])"; "}"]).
  { subst convert schema. cbv beta. unfold convertToCamelAndPascal.
    value_of (buildTableMap lib ["t"]) Hc Hp Hp.
    value_of (buildColumnMap lib [("t", "a_b")]) Hc Hp Hp.
    value_of (split "010"
                (join newline ["model T {"; "  @@map('t')"; "  @@index([a_bMixed, a_b])"; "}"]))
      Hc Hp Hp.
    cbv zeta. do 4 first_step Hc Hp Hp. run. }
  assert (E2 : convert (convert schema)
               = join newline ["model T {"; "  @@map('t')"; "  @@index([aBMixed, aB])"; "}"]).
  { rewrite E1. subst convert. cbv beta. unfold convertToCamelAndPascal.
    value_of (buildTableMap lib ["t"]) Hc Hp Hp.
    value_of (buildColumnMap lib [("t", "a_b")]) Hc Hp Hp.
    value_of (split "010"
                (join newline ["model T {"; "  @@map('t')"; "  @@index([aBMixed, a_b])"; "}"]))
      Hc Hp Hp.
    cbv zeta. do 4 first_step Hc Hp Hp. run. }
  split; [exact E1|]. split; [exact E2|].
  rewrite E2, E1. vm_compute. discriminate.
Qed.

Lemma C7_second_pass_changes_output_witness :
  let convert := fun text => convertToCamelAndPascal SpecLib.lib text ["t"] [("t", "a_b")] in
  let schema :=
    join newline ["model T {"; "  @@map('t')"; "  @@index([a_bMixed, a_b])"; "}"] in
  convert (convert schema) <> convert schema.
Proof.
  exact (proj2 (proj2 (C7_second_pass_changes_output SpecLib.lib ltac:(run) ltac:(run)))).
Defined.

(** At every point of the pass the cursor has a model exactly
    when it is inside a block, and has a table only inside a block; inside a
    block the cursor leaves it exactly on a closing-brace line, and outside a
    block model and table are both null.  After a header line the table is
    non-null unless the look-ahead stopped on a line that contains the text
    of a table-mapping annotation from which no quoted name can be read. *)
Lemma cursor_invariant_of_pass (lib : NameLib) (tableMap columnMap : Map)
    (processed remaining : list string) :
  let st := stateAfter lib tableMap columnMap initialState processed remaining in
  (inModelBlock st = true <-> currentModel st <> None)
  /\ (currentTable st <> None -> inModelBlock st = true)
  /\ (forall raw following,
        let st' := fst (step lib tableMap columnMap st raw following) in
        (inModelBlock st = true ->
           (inModelBlock st' = false <-> trimmedOf raw = "}"))
        /\ (inModelBlock st' = false ->
              currentModel st' = None /\ currentTable st' = None)
        /\ (forall model,
              matchModelHeader (trimmedOf raw) = Some model ->
              lookahead following <> Some None ->
              currentTable st' <> None)).
Proof.
  intros st.
  assert (Hinv : cursorInvariant st)
    by (apply stateAfter_invariant, initialState_invariant).
  destruct Hinv as [Hm Ht]. split; [exact Hm|]. split; [exact Ht|].
  intros raw following st'. split; [|split].
  - intros Hb. now apply step_leaves_block.
  - intros Hb'.
    assert (Hinv' : cursorInvariant st') by (apply step_invariant; now split).
    destruct Hinv' as [Hm' Ht']. split.
    + destruct (currentModel st') eqn:E; [|reflexivity].
      assert (inModelBlock st' = true) by (apply Hm'; discriminate). congruence.
    + destruct (currentTable st') eqn:E; [|reflexivity].
      assert (inModelBlock st' = true) by (apply Ht'; discriminate). congruence.
  - intros model Hh Hl. subst st'.
    pose proof (step_cases lib tableMap columnMap st raw following) as H. cbv zeta in H.
    rewrite Hh in H. rewrite H.
    apply headerStep_table; [exact (header_name_nonempty _ _ Hh) | exact Hl].
Qed.

Lemma cursor_invariant_of_pass_sample :
  let st := stateAfter SpecLib.lib [] [] initialState ["model A {"] ["  id Int"; "}"] in
  let st' := fst (step SpecLib.lib [] [] st "  id Int" ["}"]) in
  let st'' := fst (step SpecLib.lib [] [] st "}" []) in
  inModelBlock st = true /\ currentModel st <> None /\ currentTable st <> None
  /\ inModelBlock st' = true /\ inModelBlock st'' = false
  /\ currentModel st'' = None /\ currentTable st'' = None.
Proof.
  intros st st' st''.
  destruct (cursor_invariant_of_pass SpecLib.lib [] [] ["model A {"] ["  id Int"; "}"])
    as (Hm & Ht & Hstep).
  fold st in Hm, Ht, Hstep.
  assert (Hb : inModelBlock st = true) by reflexivity.
  destruct (Hstep "}" []) as (Hclose & Hnull & _). fold st'' in Hclose, Hnull.
  assert (Hb'' : inModelBlock st'' = false) by (apply (Hclose Hb); reflexivity).
  destruct (Hnull Hb'') as [Hm'' Ht''].
  repeat split; try assumption.
  - now apply Hm.
  - vm_compute. discriminate.
Qed.

(** C8 (the code departs from the claim).  A header whose look-ahead stops on
    a line that contains the text of a table annotation from which no quoted
    name can be read sets no table: the cursor enters the block with the
    table it had, null at the start and after a closed block.  Inside such a
    block without table every line other than a header and the closing brace
    is pushed as it is: no field is renamed and no directive is rewritten.
    The annotation with a named argument is such a line. *)
Theorem C8_table_left_unset (lib : NameLib) (tableMap columnMap : Map)
    (st : State) (raw model : string) (following : list string) :
  matchModelHeader (trimmedOf raw) = Some model ->
  lookahead following = Some None ->
  step lib tableMap columnMap st raw following
  = ({| currentModel := Some model; currentTable := currentTable st;
        inModelBlock := true; tableHasMap := true |},
     [lineOf raw])
  /\ (currentTable st = None ->
      forall line rest,
        matchModelHeader (trimmedOf line) = None ->
        trimmedOf line <> "}" ->
        step lib tableMap columnMap
          (fst (step lib tableMap columnMap st raw following)) line rest
        = (fst (step lib tableMap columnMap st raw following), [lineOf line])).
Proof.
  intros Hh Hl.
  pose proof (step_gated lib tableMap columnMap st raw model following None Hh Hl) as E.
  split; [exact E|].
  intros Ht line rest Hh' Hc. rewrite E. cbn [fst]. rewrite Ht.
  unfold trimmedOf, lineOf in *. unfold step. cbv zeta. rewrite Hh'.
  cbn [inModelBlock currentTable currentModel truthy andb].
  destruct (String.eqb_spec (trim (trimEnd line)) "}") as [Ec|_]; [contradiction|].
  now rewrite !andb_false_r.
Qed.

Lemma C8_table_left_unset_witness :
  walk SpecLib.lib (buildTableMap SpecLib.lib ["users"])
    (buildColumnMap SpecLib.lib [("users", "user_id")]) initialState
    ["model users {";
     "  @@map(name: " ++ String dquote ("users" ++ String dquote ")");
     "  user_id Int"]
  = ({| currentModel := Some "users"; currentTable := None;
        inModelBlock := true; tableHasMap := true |},
     ["model users {";
      "  @@map(name: " ++ String dquote ("users" ++ String dquote ")");
      "  user_id Int"])
  /\ convertToCamelAndPascal SpecLib.lib
       (join newline
          ["model users {";
           "  @@map(name: " ++ String dquote ("users" ++ String dquote ")");
           "  user_id Int"; "}"])
       ["users"] [("users", "user_id")]
     = join newline
         ["model users {";
          "  @@map(name: " ++ String dquote ("users" ++ String dquote ")");
          "  user_id Int"; "}"]
  /\ convertToCamelAndPascal SpecLib.lib
       (join newline ["model users {"; "  user_id Int"; "}"])
       ["users"] [("users", "user_id")]
     = join newline
         ["model User {"; "  @@map(" ++ String dquote ("users" ++ String dquote ")");
          "  userId Int @map(" ++ String dquote ("user_id" ++ String dquote ")"); "}"].
Proof.
  split; [|split; run].
  destruct (C8_table_left_unset SpecLib.lib (buildTableMap SpecLib.lib ["users"])
              (buildColumnMap SpecLib.lib [("users", "user_id")]) initialState
              "model users {" "users"
              ["  @@map(name: " ++ String dquote ("users" ++ String dquote ")");
               "  user_id Int"]
              ltac:(run) ltac:(run)) as [E1 E2].
  specialize (E2 eq_refl).
  cbn [walk]. rewrite E1.
  pose proof (E2 ("  @@map(name: " ++ String dquote ("users" ++ String dquote ")"))
                ["  user_id Int"] ltac:(run) ltac:(vm_compute; discriminate)) as Ea.
  pose proof (E2 "  user_id Int" [] ltac:(run) ltac:(vm_compute; discriminate)) as Eb.
  rewrite E1 in Ea, Eb. cbn [fst] in Ea, Eb. rewrite Ea, Eb. run.
Defined.

(** When the look-ahead finds no annotation, the header is resolved to
    the first catalog table, in the order of the catalog, that the Classifier
    flags and that passes one of the three tests (transformed name equal to
    the model name, raw name equal to the lower-cased model name,
    transformation of the raw name equal to the model name); the tables that
    come after it, whatever test they pass, are not considered. *)
Lemma first_matching_table (lib : NameLib) (columnMap : Map) (st : State)
    (raw : string) (following : list string) (model : string)
    (tables l1 l2 : list string) (t : string) :
  matchModelHeader (trimmedOf raw) = Some model ->
  lookahead following = None ->
  tables = (l1 ++ t :: l2)%list ->
  (forall x, In x l1 -> shouldTransform x = true -> tableMatches lib x model = false) ->
  shouldTransform t = true ->
  tableMatches lib t model = true ->
  step lib (buildTableMap lib tables) columnMap st raw following
  = ({| currentModel := Some model; currentTable := Some t;
        inModelBlock := true; tableHasMap := false |},
     ("model " ++ transformTableName lib t ++ " {") :: synthesizedMap lib (Some t)).
Proof.
  intros Hh Hl -> H1 Hs Ht.
  unfold trimmedOf in Hh. unfold step. cbv zeta. rewrite Hh.
  unfold headerStep. rewrite Hl.
  rewrite findTable_buildTableMap by exact (header_name_nonempty _ _ Hh).
  rewrite (find_first (flagged lib model) l1 l2 t).
  - reflexivity.
  - intros x Hx. unfold flagged. destruct (shouldTransform x) eqn:E; [|reflexivity].
    simpl. now apply H1.
  - unfold flagged. now rewrite Hs, Ht.
Qed.

Lemma first_matching_table_sample :
  tableMatches SpecLib.lib "users" "OrderItem" = false
  /\ tableMatches SpecLib.lib "orderitem" "OrderItem" = true
  /\ String.eqb (transformTableName SpecLib.lib "orderitem") "OrderItem" = false
  /\ String.eqb (transformTableName SpecLib.lib "order_items") "OrderItem" = true
  /\ step SpecLib.lib (buildTableMap SpecLib.lib ["users"; "orderitem"; "order_items"]) []
       initialState "model OrderItem {" ["  id Int"; "}"]
     = ({| currentModel := Some "OrderItem"; currentTable := Some "orderitem";
           inModelBlock := true; tableHasMap := false |},
        ["model Orderitem {"; "  @@map(" ++ String dquote "orderitem" ++ String dquote ")"]).
Proof.
  do 4 (split; [reflexivity|]).
  apply (first_matching_table SpecLib.lib [] initialState "model OrderItem {"
           ["  id Int"; "}"] "OrderItem" ["users"; "orderitem"; "order_items"]
           ["users"] ["order_items"] "orderitem").
  - reflexivity.
  - reflexivity.
  - reflexivity.
  - intros x [<-|[]] _. reflexivity.
  - reflexivity.
  - reflexivity.
Qed.

(** C9 (the code departs from the claim).  In a block without annotation
    whose first line with the text of a table annotation is a comment, the
    look-ahead takes the comment for the annotation: the header is pushed as
    it is and the catalog is not consulted, whatever tables match the model
    name; the table is what the mapping expression reads in the comment, and
    the table of the cursor when it reads nothing. *)
Theorem C9_comment_taken_for_annotation (lib : NameLib) (tableMap columnMap : Map)
    (st : State) (raw model : string) (before after : list string) (comment : string) :
  matchModelHeader (trimmedOf raw) = Some model ->
  (forall l, In l before -> startsWith (trim l) "}" = false /\ includes l "@@map(" = false) ->
  startsWith (trim comment) "//" = true ->
  includes comment "@@map(" = true ->
  step lib tableMap columnMap st raw (before ++ comment :: after)%list
  = ({| currentModel := Some model;
        currentTable := match matchMapName comment with
                        | Some n => Some n
                        | None => currentTable st
                        end;
        inModelBlock := true; tableHasMap := true |},
     [lineOf raw]).
Proof.
  intros Hh Hb Hc Hi. apply step_gated; [exact Hh|].
  apply lookahead_first; [exact Hb | | exact Hi].
  exact (startsWith_other _ _ _ Hc eq_refl).
Qed.

Lemma C9_comment_taken_for_annotation_witness :
  tableMatches SpecLib.lib "orderitem" "OrderItem" = true
  /\ tableMatches SpecLib.lib "order_items" "OrderItem" = true
  /\ step SpecLib.lib (buildTableMap SpecLib.lib ["users"; "orderitem"; "order_items"]) []
       initialState "model OrderItem {" ["  id Int"; "}"]
     = ({| currentModel := Some "OrderItem"; currentTable := Some "orderitem";
           inModelBlock := true; tableHasMap := false |},
        ["model Orderitem {"; "  @@map(" ++ String dquote "orderitem" ++ String dquote ")"])
  /\ step SpecLib.lib (buildTableMap SpecLib.lib ["users"; "orderitem"; "order_items"]) []
       initialState "model OrderItem {"
       ["  id Int"; "  // todo: add @@map(...) for the table"; "}"]
     = ({| currentModel := Some "OrderItem"; currentTable := None;
           inModelBlock := true; tableHasMap := true |},
        ["model OrderItem {"]).
Proof.
  split; [run|]. split; [run|]. split; [run|].
  exact (C9_comment_taken_for_annotation SpecLib.lib
           (buildTableMap SpecLib.lib ["users"; "orderitem"; "order_items"]) []
           initialState "model OrderItem {" "OrderItem" ["  id Int"] ["}"]
           "  // todo: add @@map(...) for the table"
           ltac:(run) ltac:(intros l [<-|[]]; split; run) ltac:(run) ltac:(run)).
Defined.

(** C10.  A field declaration whose remainder contains the text of a
    field-mapping annotation anywhere, be it inside a comment, is pushed
    without rename and without annotation.  A field declaration that is
    renamed is pushed as its indentation, the new name and one space, then
    all that followed the separating white space on the line, trailing
    comment included, and only then the synthesized annotation, which
    therefore ends the line. *)
Theorem C10_annotation_ends_line (lib : NameLib) (tableMap columnMap : Map)
    (st : State) (raw : string) (following : list string) (name fieldRest : string) :
  matchModelHeader (trimmedOf raw) = None ->
  matchField (trimmedOf raw) = Some (name, fieldRest) ->
  (includes fieldRest "@map(" = true ->
   step lib tableMap columnMap st raw following = (st, [trimEnd raw]))
  /\ (inModelBlock st = true ->
      truthy (currentModel st) = true ->
      truthy (currentTable st) = true ->
      includes fieldRest "@map(" = false ->
      shouldTransform name = true ->
      camelCase lib name <> name ->
      exists indent ws rest,
        trimEnd raw = indent ++ name ++ ws ++ rest
        /\ allChars isWhiteSpace indent = true
        /\ allChars isWhiteSpace ws = true
        /\ ws <> EmptyString
        /\ match rest with EmptyString => True | String c _ => isWhiteSpace c = false end
        /\ step lib tableMap columnMap st raw following
           = (st,
              [indent
               ++ getSubstitution (indent ++ name ++ ws) EmptyString rest [Some indent]
                    (orElse (mapGet columnMap (tableOf st ++ "." ++ name))
                       (camelCase lib name) ++ " ")
               ++ rest ++ fieldMapSuffix name])).
Proof.
  intros Hh Hf. rewrite (step_field lib tableMap columnMap st raw following _ _ Hh Hf).
  split.
  - intros Hm. unfold lineOf.
    rewrite (fieldLine_annotated lib columnMap (tableOf st) (trimEnd raw) name fieldRest Hf Hm).
    now destruct (inModelBlock st && truthy (currentModel st) && truthy (currentTable st)).
  - intros Hb Hcm Hct Hm Hs Hc. rewrite Hb, Hcm, Hct. simpl.
    destruct (fieldLine_renamed lib columnMap (tableOf st) raw name fieldRest Hf Hm Hs Hc)
      as (indent & ws & rest & El & Ai & Aw & Hw & Hr & E).
    exists indent, ws, rest. rewrite E. now repeat split.
Qed.

Lemma C10_annotation_ends_line_witness :
  step SpecLib.lib [] [] (inBlock "T" "t" false) "  a_b Int // see @map(x)" []
  = (inBlock "T" "t" false, ["  a_b Int // see @map(x)"])
  /\ exists indent ws rest,
       "  a_b   Int // key" = indent ++ "a_b" ++ ws ++ rest
       /\ rest = "Int // key"
       /\ step SpecLib.lib [] [] (inBlock "T" "t" false) "  a_b   Int // key  " []
          = (inBlock "T" "t" false,
             [indent ++ "aB " ++ rest ++ " @map(" ++ String dquote "a_b" ++ String dquote ")"]).
Proof.
  split.
  - apply (proj1 (C10_annotation_ends_line SpecLib.lib [] [] (inBlock "T" "t" false)
                    "  a_b Int // see @map(x)" [] "a_b" "Int // see @map(x)"
                    eq_refl eq_refl)).
    reflexivity.
  - destruct (proj2 (C10_annotation_ends_line SpecLib.lib [] [] (inBlock "T" "t" false)
                       "  a_b   Int // key  " [] "a_b" "Int // key" eq_refl eq_refl)
                eq_refl eq_refl eq_refl eq_refl eq_refl)
      as (indent & ws & rest & El & Ai & Aw & Hw & Hr & E).
    + vm_compute. discriminate.
    + assert (Hi : indent = "  ").
      { change (trimEnd "  a_b   Int // key  ") with ("  " ++ "a_b" ++ "   " ++ "Int // key") in El.
        pose proof (span_run isWhiteSpace indent ("a_b" ++ ws ++ rest) Ai eq_refl) as S.
        rewrite <- El in S. vm_compute in S. now inversion S. }
      subst indent.
      assert (Hsplit : ws = "   " /\ rest = "Int // key").
      { change (trimEnd "  a_b   Int // key  ") with ("  a_b" ++ "   Int // key") in El.
        change ("  " ++ "a_b" ++ ws ++ rest) with ("  a_b" ++ ws ++ rest) in El.
        assert (E2 : "   Int // key" = ws ++ rest).
        { assert (S0 : stripPrefix "  a_b" ("  a_b" ++ ws ++ rest) = Some (ws ++ rest))
            by apply stripPrefix_app.
          rewrite <- El in S0. vm_compute in S0. now inversion S0. }
        assert (S : span isWhiteSpace (ws ++ rest) = (ws, rest)).
        { apply span_run; [exact Aw|]. destruct rest; [exact I | exact Hr]. }
        rewrite <- E2 in S. vm_compute in S. inversion S. now split. }
      destruct Hsplit as [-> ->].
      exists "  ", "   ", "Int // key". split; [reflexivity|]. split; [reflexivity|].
      rewrite E. reflexivity.
Defined.

(* ================================================================== *)
(** ** Further properties of dbMap.ts *)
(* ================================================================== *)

Section MapFacts.

Lemma mapGet_mapSet (m : Map) (k v k' : string) :
  mapGet (mapSet m k v) k' = if String.eqb k k' then Some v else mapGet m k'.
Proof.
  induction m as [|[a b] m IH]; simpl.
  - reflexivity.
  - destruct (String.eqb_spec a k) as [->|N]; simpl.
    + destruct (String.eqb_spec k k'); reflexivity.
    + destruct (String.eqb_spec a k') as [->|N'].
      * destruct (String.eqb_spec k k') as [->|_]; [congruence | reflexivity].
      * exact IH.
Qed.

Lemma mapGet_In (m : Map) (k v : string) : mapGet m k = Some v -> In (k, v) m.
Proof.
  induction m as [|[a b] m IH]; simpl; [discriminate|].
  destruct (String.eqb_spec a k) as [->|_].
  - intros H. inversion H. now left.
  - intros H. right. now apply IH.
Qed.

Lemma In_mapSet (m : Map) (k v a b : string) :
  In (a, b) (mapSet m k v) -> In (a, b) m \/ (a = k /\ b = v).
Proof.
  induction m as [|[x y] m IH]; simpl.
  - intros [E|[]]. inversion E. now right.
  - destruct (String.eqb_spec x k) as [->|_]; simpl.
    + intros [E|H]; [inversion E; now right | left; now right].
    + intros [E|H]; [left; now left|].
      destruct (IH H) as [H'|H']; [left; now right | now right].
Qed.

End MapFacts.

Lemma if_same (A : Type) (b : bool) (x : A) : (if b then x else x) = x.
Proof. now destruct b. Qed.

Lemma toLowerUnit_idempotent (c : ascii) : toLowerUnit (toLowerUnit c) = toLowerUnit c.
Proof. destruct c as [[] [] [] [] [] [] [] []]; vm_compute; reflexivity. Qed.

Lemma toLowerCase_flagged (s : string) : shouldTransform (toLowerCase s) = true.
Proof.
  unfold shouldTransform. induction s as [|c s IH]; simpl; [reflexivity|].
  now rewrite toLowerUnit_idempotent, Ascii.eqb_refl.
Qed.

(** X1.  The Classifier flags a string exactly when none of its characters is
    upper-case; the lower-cased form of any string is flagged, and so is the
    empty string. *)
Theorem X1_classifier_flags_lower_case (s : string) :
  (shouldTransform s = true <-> hasUpperCase s = false)
  /\ shouldTransform (toLowerCase s) = true
  /\ shouldTransform EmptyString = true.
Proof.
  rewrite shouldTransform_hasUpperCase. split; [|split].
  - destruct (hasUpperCase s); simpl; split; congruence.
  - apply toLowerCase_flagged.
  - reflexivity.
Qed.

Lemma mapGet_tableFold (lib : NameLib) (tables : list string) (acc : Map) (t : string) :
  mapGet
    (fold_left
       (fun (m : Map) (x : string) =>
          if shouldTransform x then mapSet m x (transformTableName lib x) else m)
       tables acc) t
  = if existsb (String.eqb t) tables && shouldTransform t
    then Some (transformTableName lib t) else mapGet acc t.
Proof.
  revert acc. induction tables as [|x xs IH]; intros acc; simpl; [reflexivity|].
  rewrite IH.
  destruct (String.eqb_spec t x) as [->|N]; simpl.
  - destruct (shouldTransform x).
    + rewrite mapGet_mapSet, String.eqb_refl. now rewrite !andb_true_r, if_same.
    + now rewrite !andb_false_r.
  - destruct (existsb (String.eqb t) xs && shouldTransform t); [reflexivity|].
    destruct (shouldTransform x); [|reflexivity].
    rewrite mapGet_mapSet. destruct (String.eqb_spec x t); [congruence | reflexivity].
Qed.

(** X2.  The table map holds exactly the catalog tables that the Classifier
    flags, each with its transformed name: a look-up finds the transformed
    name of a flagged catalog table and nothing for any other name (a table
    absent from the catalog, or one with an upper-case character). *)
Theorem X2_table_map_lookup (lib : NameLib) (tables : list string) (t : string) :
  mapGet (buildTableMap lib tables) t
  = if existsb (String.eqb t) tables && shouldTransform t
    then Some (transformTableName lib t) else None.
Proof. unfold buildTableMap. now rewrite mapGet_tableFold. Qed.

Section ColumnMapFacts.

Variable lib : NameLib.

Lemma dotted_key_column (a b c f : string) :
  a ++ "." ++ c = b ++ "." ++ f -> noDot c = true -> noDot f = true -> c = f.
Proof.
  unfold noDot. revert b. induction a as [|x a IH]; intros b E Hc Hf.
  - destruct b as [|y b]; simpl in E.
    + now inversion E.
    + inversion E; subst. rewrite allChars_app in Hc.
      apply andb_true_iff in Hc as [_ Hc]. discriminate Hc.
  - destruct b as [|y b]; simpl in E.
    + inversion E; subst. rewrite allChars_app in Hf.
      apply andb_true_iff in Hf as [_ Hf]. discriminate Hf.
    + inversion E. now apply (IH b).
Qed.

Lemma columnFold_fromColumns (columns todo : list (string * string)) (acc : Map) :
  (forall tc, In tc todo -> In tc columns) ->
  fromColumns lib columns acc ->
  fromColumns lib columns
    (fold_left
       (fun (m : Map) (tc : string * string) =>
          let (t, c) := tc in
          if shouldTransform c then mapSet m (t ++ "." ++ c) (camelCase lib c) else m)
       todo acc).
Proof.
  revert acc. induction todo as [|[t c] todo IH]; intros acc Hsub Hacc; simpl.
  - exact Hacc.
  - apply IH; [intros tc H; apply Hsub; now right|].
    destruct (shouldTransform c); [|exact Hacc].
    intros k v Hin. destruct (In_mapSet _ _ _ _ _ Hin) as [H|[-> ->]].
    + now apply Hacc.
    + exists t, c. split; [apply Hsub; now left | now split].
Qed.

Lemma buildColumnMap_fromColumns (columns : list (string * string)) :
  fromColumns lib columns (buildColumnMap lib columns).
Proof.
  unfold buildColumnMap. apply columnFold_fromColumns; [auto|]. intros k v [].
Qed.

End ColumnMapFacts.

(** X3.  When no catalog column name contains a dot, the look-up in the
    column map never changes the name given to a field or directive entry
    (whose name, made of word characters, has no dot either): for every table
    the name chosen by look-up with fall-back is the camelCase of the name
    itself. *)
Theorem X3_column_lookup_is_camelCase (lib : NameLib) (columns : list (string * string))
    (table fieldName : string) :
  (forall t c, In (t, c) columns -> noDot c = true) ->
  noDot fieldName = true ->
  orElse (mapGet (buildColumnMap lib columns) (table ++ "." ++ fieldName))
    (camelCase lib fieldName)
  = camelCase lib fieldName.
Proof.
  intros Hcols Hf.
  destruct (mapGet (buildColumnMap lib columns) (table ++ "." ++ fieldName)) as [v|] eqn:E;
    [|reflexivity].
  apply mapGet_In in E.
  destruct (buildColumnMap_fromColumns lib columns _ _ E) as (t & c & Hin & Hk & ->).
  symmetry in Hk. rewrite (dotted_key_column _ _ _ _ Hk (Hcols t c Hin) Hf).
  now destruct (camelCase lib fieldName).
Qed.

Lemma X3_column_lookup_is_camelCase_witness :
  orElse (mapGet (buildColumnMap SpecLib.lib [("users", "user_id"); ("users", "id")])
            ("users" ++ "." ++ "user_id"))
    (camelCase SpecLib.lib "user_id")
  = camelCase SpecLib.lib "user_id".
Proof.
  apply X3_column_lookup_is_camelCase.
  - intros t c [E|[E|[]]]; inversion E; vm_compute; reflexivity.
  - vm_compute. reflexivity.
Defined.

Section TextFacts.

Lemma split_nonempty (sep : ascii) (s : string) : split sep s <> [].
Proof.
  destruct s as [|c r]; simpl; [discriminate|].
  destruct (Ascii.eqb c sep); [discriminate|].
  destruct (split sep r); discriminate.
Qed.

Lemma join_cons_unit (c : ascii) (h : string) (t : list string) :
  join newline (String c h :: t) = String c (join newline (h :: t)).
Proof. destruct t; reflexivity. Qed.

(** Joining the lines of a text gives the text back. *)
Lemma join_split (s : string) : join newline (split "010"%char s) = s.
Proof.
  induction s as [|c r IH]; [reflexivity|]. simpl split.
  destruct (split "010"%char r) as [|h t] eqn:E; [now apply split_nonempty in E|].
  destruct (Ascii.eqb_spec c "010"%char) as [->|_].
  - change (join newline (EmptyString :: h :: t))
      with (EmptyString ++ newline ++ join newline (h :: t)).
    now rewrite IH.
  - now rewrite join_cons_unit, IH.
Qed.

Lemma map_fixed (f : string -> string) (l : list string) :
  (forall x, In x l -> f x = x) -> map f l = l.
Proof.
  induction l as [|x l IH]; intros H; simpl; [reflexivity|].
  rewrite (H x (or_introl eq_refl)), IH; [reflexivity|]. intros y Hy. apply H. now right.
Qed.

End TextFacts.

Lemma walk_outside (lib : NameLib) (tableMap columnMap : Map) (st : State)
    (lines : list string) :
  inModelBlock st = false ->
  (forall l, In l lines -> matchModelHeader (trimmedOf l) = None) ->
  walk lib tableMap columnMap st lines = (st, map trimEnd lines).
Proof.
  intros Hb. induction lines as [|l rest IH]; intros Hh; cbn [walk map]; [reflexivity|].
  rewrite (step_outside lib tableMap columnMap st l rest (Hh l (or_introl eq_refl)) Hb).
  rewrite IH by (intros x Hx; apply Hh; now right). reflexivity.
Qed.

(** X4.  A schema none of whose lines is a model header comes out with the
    trailing white space of each line removed and nothing else changed,
    whatever the catalog; when no line has trailing white space the text
    comes out as it went in. *)
Theorem X4_schema_without_model (lib : NameLib) (originalSchema : string)
    (tables : list string) (columns : list (string * string)) :
  (forall l, In l (split "010"%char originalSchema) ->
     matchModelHeader (trimmedOf l) = None) ->
  convertToCamelAndPascal lib originalSchema tables columns
  = join newline (map trimEnd (split "010"%char originalSchema))
  /\ ((forall l, In l (split "010"%char originalSchema) -> trimEnd l = l) ->
      convertToCamelAndPascal lib originalSchema tables columns = originalSchema).
Proof.
  intros Hh.
  assert (E : convertToCamelAndPascal lib originalSchema tables columns
              = join newline (map trimEnd (split "010"%char originalSchema))).
  { unfold convertToCamelAndPascal. cbv zeta.
    now rewrite (walk_outside lib _ _ initialState _ eq_refl Hh). }
  split; [exact E|].
  intros Ht. rewrite E, (map_fixed trimEnd _ Ht). apply join_split.
Qed.

Lemma X4_schema_without_model_witness :
  let schema :=
    join newline ["generator client {"; "  provider = 'prisma-client-js'"; "}"; EmptyString;
                  "enum user_role {"; "  admin_user"; "}"] in
  convertToCamelAndPascal SpecLib.lib schema ["user_role"] [("user_role", "admin_user")]
  = schema.
Proof.
  intros schema.
  apply (proj2 (X4_schema_without_model SpecLib.lib schema ["user_role"]
                  [("user_role", "admin_user")]
                  ltac:(intros l H; vm_compute in H;
                        repeat (destruct H as [<-|H]; [vm_compute; reflexivity|]);
                        destruct H))).
  intros l H. vm_compute in H.
  repeat (destruct H as [<-|H]; [vm_compute; reflexivity|]). destruct H.
Defined.

Section HeaderFacts.

Lemma find_all_false (f : string -> bool) (l : list string) :
  (forall x, In x l -> f x = false) -> find f l = None.
Proof.
  induction l as [|x l IH]; intros H; simpl; [reflexivity|].
  rewrite (H x (or_introl eq_refl)). apply IH. intros y Hy. apply H. now right.
Qed.

Lemma isEmpty_app_unit (a : string) (c : ascii) : isEmpty (a ++ String c EmptyString) = false.
Proof. now destruct a. Qed.

(** A text that ends with a unit other than white space has nothing to trim
    at its end. *)
Lemma trimEnd_end (a : string) (c : ascii) :
  isWhiteSpace c = false ->
  trimEnd (a ++ String c EmptyString) = a ++ String c EmptyString.
Proof.
  intros Hc. induction a as [|x a IH]; simpl.
  - now rewrite Hc.
  - now rewrite IH, isEmpty_app_unit, andb_false_r.
Qed.

Lemma tableMapLine_end (t : string) :
  tableMapLine t = ("  @@map(" ++ String dquote (t ++ String dquote EmptyString)) ++ ")".
Proof.
  unfold tableMapLine. simpl. do 9 f_equal.
  now rewrite append_assoc.
Qed.

Lemma tableMapLine_annotation (t : string) :
  t <> EmptyString -> allChars notQuote t = true ->
  isTableAnnotation (tableMapLine t) t.
Proof.
  intros Hne Hq. exists "  ", EmptyString, dquote, dquote, EmptyString, EmptyString.
  repeat split; try reflexivity; assumption.
Qed.

Lemma tableMapLine_trim (t : string) :
  trim (tableMapLine t) = "@@map(" ++ String dquote (t ++ String dquote ")").
Proof.
  unfold trim. rewrite tableMapLine_end, trimEnd_end by reflexivity.
  rewrite <- tableMapLine_end. reflexivity.
Qed.

End HeaderFacts.

(** X5.  A header whose block has no annotation line and whose model name
    matches no flagged catalog table falls back to the lower-cased model
    name as table: the header is pushed as it is, and the annotation of that
    table is synthesized exactly when the transformation changes the name. *)
Theorem X5_fallback_to_lower_case (lib : NameLib) (columnMap : Map) (st : State)
    (raw : string) (following : list string) (model : string) (tables : list string) :
  matchModelHeader (trimmedOf raw) = Some model ->
  lookahead following = None ->
  (forall x, In x tables -> shouldTransform x = true -> tableMatches lib x model = false) ->
  step lib (buildTableMap lib tables) columnMap st raw following
  = ({| currentModel := Some model; currentTable := Some (toLowerCase model);
        inModelBlock := true; tableHasMap := false |},
     trimEnd raw
     :: (if String.eqb (transformTableName lib (toLowerCase model)) (toLowerCase model)
         then [] else [tableMapLine (toLowerCase model)])).
Proof.
  intros Hh Hl Hno.
  pose proof (header_name_nonempty _ _ Hh) as Hm.
  unfold trimmedOf in Hh. unfold step. cbv zeta. rewrite Hh.
  unfold headerStep. rewrite Hl.
  rewrite findTable_buildTableMap by exact Hm.
  rewrite find_all_false.
  - rewrite Hm. unfold synthesizedMap.
    destruct model as [|c m]; [discriminate Hm|]. reflexivity.
  - intros x Hx. unfold flagged. destruct (shouldTransform x) eqn:E; [|reflexivity].
    simpl. now apply Hno.
Qed.

Lemma X5_fallback_to_lower_case_witness :
  step SpecLib.lib (buildTableMap SpecLib.lib ["users"; "Posts"]) [] initialState
    "model AuditLog {" ["  id Int"; "}"]
  = ({| currentModel := Some "AuditLog"; currentTable := Some "auditlog";
        inModelBlock := true; tableHasMap := false |},
     ["model AuditLog {"; "  @@map(" ++ String dquote "auditlog" ++ String dquote ")"]).
Proof.
  rewrite (X5_fallback_to_lower_case SpecLib.lib [] initialState "model AuditLog {"
             ["  id Int"; "}"] "AuditLog" ["users"; "Posts"]
             ltac:(vm_compute; reflexivity) ltac:(vm_compute; reflexivity)).
  - vm_compute. reflexivity.
  - intros x [<-|[<-|[]]] H; vm_compute; [reflexivity | discriminate H].
Defined.

(** X6.  The annotation that the walker synthesizes is one that its look-ahead
    reads back: a header followed by the synthesized annotation of a table
    (a non-empty name without quote character) takes that table, is pushed as
    it is and gets no second annotation, whatever the catalog and the state
    of the cursor. *)
Theorem X6_synthesized_annotation_read_back (lib : NameLib) (tableMap columnMap : Map)
    (st : State) (raw model table : string) (rest : list string) :
  matchModelHeader (trimmedOf raw) = Some model ->
  table <> EmptyString ->
  allChars notQuote table = true ->
  lookahead (tableMapLine table :: rest) = Some (Some table)
  /\ step lib tableMap columnMap st raw (tableMapLine table :: rest)
     = (inBlock model table true, [trimEnd raw]).
Proof.
  intros Hh Hne Hq.
  assert (L : lookahead (tableMapLine table :: rest) = Some (Some table)).
  { apply (lookahead_annotation [] rest (tableMapLine table) table).
    - intros l [].
    - rewrite tableMapLine_trim. reflexivity.
    - now apply tableMapLine_annotation. }
  split; [exact L|].
  unfold trimmedOf in Hh. unfold step. cbv zeta. rewrite Hh.
  unfold headerStep. now rewrite L.
Qed.

Lemma X6_synthesized_annotation_read_back_witness :
  step SpecLib.lib (buildTableMap SpecLib.lib ["order_items"]) [] initialState
    "model OrderItem {" [tableMapLine "order_items"; "  id Int"; "}"]
  = (inBlock "OrderItem" "order_items" true, ["model OrderItem {"]).
Proof.
  apply (X6_synthesized_annotation_read_back SpecLib.lib).
  - vm_compute. reflexivity.
  - discriminate.
  - vm_compute. reflexivity.
Defined.

Section IdentifierFacts.

Lemma matchModelHeader_word (s model : string) :
  matchModelHeader s = Some model -> isWord model = true.
Proof.
  unfold matchModelHeader, isWord. intros H.
  destruct (stripPrefix "model" s) as [r0|]; [|discriminate].
  destruct (span isWhiteSpace r0) as [ws1 r1].
  destruct (span isWordChar r1) as [n r2] eqn:E.
  destruct (span isWhiteSpace r2) as [ws2 r3].
  destruct (isEmpty ws1 || isEmpty n || isEmpty ws2) eqn:Em; [discriminate|].
  destruct (startsWith r3 "{"); [|discriminate].
  inversion H; subst.
  apply orb_false_iff in Em as [Em _]. apply orb_false_iff in Em as [_ Em].
  now rewrite Em, (span_all _ _ _ _ E).
Qed.

Lemma not_white_not_terminator (c : ascii) :
  isWhiteSpace c = false -> notLineTerminator c = true.
Proof.
  destruct c as [[] [] [] [] [] [] [] []]; vm_compute; intros H;
    solve [ reflexivity | discriminate H ].
Qed.

Lemma matchField_word (s name fieldRest : string) :
  matchField s = Some (name, fieldRest) ->
  isWord name = true /\ fieldRest <> EmptyString.
Proof.
  unfold matchField, isWord. intros H.
  destruct (span isWordChar s) as [n r1] eqn:E1.
  destruct (span isWhiteSpace r1) as [w r2] eqn:E2.
  destruct (isEmpty n || isEmpty w) eqn:Em; [discriminate|].
  apply orb_false_iff in Em as [En _].
  pose proof (span_all _ _ _ _ E1) as An.
  destruct r2 as [|c2 r2'].
  - destruct w as [|? w']; [discriminate|].
    destruct (lastNotLineTerminator w'); inversion H; subst.
    rewrite En, An. split; [reflexivity | discriminate].
  - inversion H; subst. rewrite En, An. split; [reflexivity|].
    simpl. rewrite (not_white_not_terminator c2 (span_stop _ _ _ _ _ E2)).
    destruct (span notLineTerminator r2'). discriminate.
Qed.

Lemma takeParams_app (s p r : string) :
  takeParams s = Some (p, r) ->
  s = p ++ r
  /\ exists inner, p = "(" ++ inner ++ ")"
                   /\ allChars (fun c => negb (Ascii.eqb c ")")) inner = true.
Proof.
  unfold takeParams. destruct s as [|c s]; [discriminate|].
  destruct (Ascii.eqb_spec c "(") as [->|N].
  - destruct (span (fun c => negb (Ascii.eqb c ")")) s) as [inner r'] eqn:E.
    destruct r' as [|d r'']; [discriminate|].
    destruct (Ascii.eqb_spec d ")") as [->|N'].
    + intros H. inversion H; subst. split.
      * rewrite (span_app _ _ _ _ E). simpl. now rewrite append_assoc.
      * exists inner. split; [reflexivity | exact (span_all _ _ _ _ E)].
    + intros H. exfalso. revert H.
      destruct d as [[] [] [] [] [] [] [] []]; try discriminate. now elim N'.
  - intros H. exfalso. revert H.
    destruct c as [[] [] [] [] [] [] [] []]; try discriminate. now elim N.
Qed.

Lemma scanTokens_shape (n : nat) (s : string) :
  Forall (fun tok => isWord (fst tok) = true /\ isParams (snd tok)) (scanTokens n s).
Proof.
  revert s. induction n as [|n IH]; intros s; cbn [scanTokens]; [constructor|].
  destruct s as [|c r]; [constructor|].
  destruct (isWordChar c) eqn:Hc; [|apply IH].
  destruct (span isWordChar (String c r)) as [w r1] eqn:E.
  assert (Hw : isWord w = true).
  { unfold isWord. rewrite (span_all _ _ _ _ E). simpl in E. rewrite Hc in E.
    destruct (span isWordChar r). now inversion E. }
  destruct (takeParams r1) as [[p r2]|] eqn:T.
  - constructor; [|apply IH]. split; [exact Hw|].
    right. exact (proj2 (takeParams_app _ _ _ T)).
  - constructor; [|apply IH]. split; [exact Hw | now left].
Qed.

(** The text of every match is made of units of the list. *)
Lemma scanTokens_units (p : ascii -> bool) (n : nat) (s : string) :
  allChars p s = true ->
  Forall (fun tok => allChars p (fst tok ++ snd tok) = true) (scanTokens n s).
Proof.
  revert s. induction n as [|n IH]; intros s Hs; cbn [scanTokens]; [constructor|].
  destruct s as [|c r]; [constructor|].
  destruct (isWordChar c) eqn:Hc.
  - destruct (span isWordChar (String c r)) as [w r1] eqn:E.
    rewrite (span_app _ _ _ _ E), allChars_app in Hs.
    apply andb_true_iff in Hs as [Hw H1].
    destruct (takeParams r1) as [[q r2]|] eqn:T.
    + destruct (takeParams_app _ _ _ T) as [-> _].
      rewrite allChars_app in H1. apply andb_true_iff in H1 as [Hq H2].
      constructor; [|now apply IH]. cbn [fst snd]. now rewrite allChars_app, Hw, Hq.
    + constructor; [|now apply IH]. cbn [fst snd]. now rewrite allChars_app, Hw.
  - apply IH. simpl in Hs. now apply andb_true_iff in Hs as [_ Hs].
Qed.

End IdentifierFacts.

(** X8.  Every identifier that the walker reads in the schema text, the model
    name of a header, the name of a field declaration and the name of each
    directive entry, is a non-empty run of word characters; the remainder of
    a field declaration is not empty, and the parameter text of a directive
    entry is empty or a parenthesized text without closing parenthesis. *)
Theorem X8_identifiers_are_words :
  (forall s model, matchModelHeader s = Some model -> isWord model = true)
  /\ (forall s name fieldRest,
        matchField s = Some (name, fieldRest) ->
        isWord name = true /\ fieldRest <> EmptyString)
  /\ (forall s, Forall (fun tok => isWord (fst tok) = true /\ isParams (snd tok)) (tokens s)).
Proof.
  split; [exact matchModelHeader_word|]. split; [exact matchField_word|].
  intros s. apply scanTokens_shape.
Qed.

Lemma X8_identifiers_are_words_witness :
  isWord "order_items" = true
  /\ (isWord "user_id" = true /\ "Int @id" <> EmptyString)
  /\ Forall (fun tok => isWord (fst tok) = true /\ isParams (snd tok))
       [("a_b", "(sort: Desc)"); ("c", EmptyString)].
Proof.
  destruct X8_identifiers_are_words as (Hm & Hf & Ht).
  split; [|split].
  - apply (Hm "model order_items {"). vm_compute. reflexivity.
  - apply (Hf "user_id Int @id"). vm_compute. reflexivity.
  - exact (Ht "a_b(sort: Desc), c").
Defined.

Section ConformantDirective.

Variable lib : NameLib.
Variable columnMap : Map.

Lemma fold_replaceToken_fixed (table : string) (toks : list (string * string)) (acc : string) :
  Forall (fun tok => noDollar (fst tok ++ snd tok) = true) toks ->
  Forall (fun tok =>
            shouldTransform (fst tok) = true ->
            orElse (mapGet columnMap (table ++ "." ++ fst tok)) (camelCase lib (fst tok))
            = fst tok) toks ->
  fold_left (replaceToken lib columnMap table) toks acc = acc.
Proof.
  intros Hd Hf. revert acc.
  induction toks as [|[n p] toks IH]; intros acc; cbn [fold_left]; [reflexivity|].
  inversion Hd as [|? ? Hd1 Hd2]; inversion Hf as [|? ? Hf1 Hf2]; subst.
  cbn [fst snd] in *.
  assert (E : replaceToken lib columnMap table acc (n, p) = acc).
  { unfold replaceToken. destruct (shouldTransform n) eqn:S; [|reflexivity].
    rewrite (Hf1 eq_refl). now apply replaceString_self. }
  rewrite E. now apply IH.
Qed.

Lemma directiveListAt_bracket (s : string) :
  allChars notBracket s = true -> directiveListAt s = None.
Proof.
  unfold directiveListAt. intros H.
  destruct (stripPrefix "@@" s) as [r0|] eqn:E0; [|reflexivity].
  apply stripPrefix_Some in E0. subst s. rewrite allChars_app in H.
  apply andb_true_iff in H as [_ H].
  assert (H1 : forall r1, stripDirectiveName r0 = Some r1 -> allChars notBracket r1 = true).
  { unfold stripDirectiveName. intros r1.
    destruct (stripPrefix "index" r0) as [x|] eqn:A;
      [intros X; inversion X; subst; apply stripPrefix_Some in A; subst r0;
       rewrite allChars_app in H; now apply andb_true_iff in H as [_ H]|].
    destruct (stripPrefix "unique" r0) as [x|] eqn:B;
      [intros X; inversion X; subst; apply stripPrefix_Some in B; subst r0;
       rewrite allChars_app in H; now apply andb_true_iff in H as [_ H]|].
    destruct (stripPrefix "id" r0) as [x|] eqn:C;
      [intros X; inversion X; subst; apply stripPrefix_Some in C; subst r0;
       rewrite allChars_app in H; now apply andb_true_iff in H as [_ H]|].
    intros D. apply stripPrefix_Some in D; subst r0.
    rewrite allChars_app in H; now apply andb_true_iff in H as [_ H]. }
  destruct (stripDirectiveName r0) as [r1|]; [|reflexivity].
  specialize (H1 r1 eq_refl).
  destruct (span isWhiteSpace r1) as [w1 r2] eqn:S1. cbn [snd].
  rewrite (span_app _ _ _ _ S1), allChars_app in H1.
  apply andb_true_iff in H1 as [_ H2].
  destruct r2 as [|c r3]; [reflexivity|].
  destruct (Ascii.eqb_spec c "(") as [->|N].
  - destruct (span isWhiteSpace r3) as [w2 r4] eqn:S2. cbn [snd].
    simpl in H2. rewrite (span_app _ _ _ _ S2), allChars_app in H2.
    apply andb_true_iff in H2 as [_ H4].
    destruct r4 as [|d r5]; [reflexivity|].
    destruct (Ascii.eqb_spec d "[") as [->|N'].
    + simpl in H4. discriminate H4.
    + destruct d as [[] [] [] [] [] [] [] []]; try reflexivity. now elim N'.
  - destruct c as [[] [] [] [] [] [] [] []]; try reflexivity. now elim N.
Qed.

Lemma matchDirective_bracket (s : string) :
  allChars notBracket s = true -> matchDirective s = None.
Proof.
  induction s as [|c s IH]; intros H.
  - reflexivity.
  - cbn [matchDirective]. rewrite (directiveListAt_bracket _ H).
    apply IH. simpl in H. now apply andb_true_iff in H as [_ H].
Qed.

End ConformantDirective.

(** X9.  A directive line is returned unchanged when every entry of its list
    that the Classifier flags is mapped to itself (one lower-case word such as
    [id] or [name]) and the list has no dollar sign; entries with an
    upper-case character need nothing.  The line of the cursor is then a
    fixed point of the rewriter. *)
Theorem X9_conformant_directive_unchanged (lib : NameLib) (columnMap : Map)
    (line table fieldsStr : string) :
  matchDirective line = Some fieldsStr ->
  noDollar fieldsStr = true ->
  Forall (fun tok =>
            shouldTransform (fst tok) = true ->
            orElse (mapGet columnMap (table ++ "." ++ fst tok)) (camelCase lib (fst tok))
            = fst tok) (tokens fieldsStr) ->
  transformDirectiveFields lib line columnMap table = line.
Proof.
  intros Hm Hd Hf. unfold transformDirectiveFields. rewrite Hm.
  rewrite (fold_replaceToken_fixed lib columnMap table (tokens fieldsStr) fieldsStr).
  - unfold replaceBracketed. apply replaceString_self.
    unfold noDollar in *. change ("[" ++ fieldsStr ++ "]") with (String "[" (fieldsStr ++ "]")).
    simpl. rewrite allChars_app, Hd. reflexivity.
  - apply scanTokens_units. exact Hd.
  - exact Hf.
Qed.

Lemma X9_conformant_directive_unchanged_witness :
  transformDirectiveFields SpecLib.lib "  @@unique([id, userId(sort: Desc), name])"
    (buildColumnMap SpecLib.lib [("t", "id"); ("t", "name")]) "t"
  = "  @@unique([id, userId(sort: Desc), name])".
Proof.
  apply (X9_conformant_directive_unchanged SpecLib.lib _ _ "t"
           "id, userId(sort: Desc), name").
  - vm_compute. reflexivity.
  - vm_compute. reflexivity.
  - assert (E : tokens "id, userId(sort: Desc), name"
                = [("id", EmptyString); ("userId", "(sort: Desc)"); ("name", EmptyString)])
      by (vm_compute; reflexivity).
    rewrite E. repeat constructor; cbn [fst]; intros H;
      solve [ vm_compute; reflexivity | vm_compute in H; discriminate H ].
Defined.

(** X10.  A line without opening bracket has no identifier list: the directive
    rewriter returns it unchanged, whatever the column map and the table. *)
Theorem X10_directive_without_list (lib : NameLib) (columnMap : Map) (line table : string) :
  allChars notBracket line = true ->
  transformDirectiveFields lib line columnMap table = line.
Proof.
  intros H. unfold transformDirectiveFields. now rewrite matchDirective_bracket.
Qed.

Lemma X10_directive_without_list_witness :
  transformDirectiveFields SpecLib.lib "  @@index(user_id)" [("t.user_id", "userId")] "t"
  = "  @@index(user_id)".
Proof.
  apply X10_directive_without_list. vm_compute. reflexivity.
Defined.

Section LineCount.

Variable lib : NameLib.
Variables tableMap columnMap : Map.

Lemma synthesizedMap_length (table : option string) :
  length (synthesizedMap lib table) <= 1.
Proof.
  unfold synthesizedMap. destruct table as [[|c r]|]; simpl; try lia.
  destruct (String.eqb _ _); simpl; lia.
Qed.

Lemma step_length (st : State) (raw : string) (following : list string) :
  let n := length (snd (step lib tableMap columnMap st raw following)) in
  1 <= n /\ n <= 1 + (if isHeaderLine raw then 1 else 0).
Proof.
  unfold isHeaderLine, trimmedOf. unfold step. cbv zeta.
  destruct (matchModelHeader (trim (trimEnd raw))) as [model|].
  - unfold headerStep. destruct (lookahead following) as [found|]; cbn [snd length]; [lia|].
    destruct (findTable lib tableMap model) as [[t name]|]; cbn [snd length].
    + pose proof (synthesizedMap_length (Some t)). lia.
    + pose proof (synthesizedMap_length
                    (if isEmpty model then currentTable st else Some (toLowerCase model))). lia.
  - repeat match goal with |- context [if ?b then _ else _] => destruct b end;
      cbn [snd length]; lia.
Qed.

End LineCount.

(** X11.  The pass never drops a line: the output has at least as many lines
    as the input, and at most one more line for every model header (the
    synthesized table annotation), from any state of the cursor and for any
    catalog.  A schema without header keeps its number of lines. *)
Theorem X11_output_line_count (lib : NameLib) (tableMap columnMap : Map) (st : State)
    (lines : list string) :
  length lines <= length (snd (walk lib tableMap columnMap st lines))
  /\ length (snd (walk lib tableMap columnMap st lines))
     <= length lines + length (filter isHeaderLine lines).
Proof.
  revert st. induction lines as [|l rest IH]; intros st; cbn [walk].
  - simpl. lia.
  - pose proof (step_length lib tableMap columnMap st l rest) as Hs. cbv zeta in Hs.
    destruct (step lib tableMap columnMap st l rest) as [st' out].
    specialize (IH st').
    destruct (walk lib tableMap columnMap st' rest) as [st'' outs].
    cbn [snd] in *. rewrite length_app. cbn [filter length].
    destruct (isHeaderLine l); cbn [length]; lia.
Qed.

Section SecondPass.

Lemma allChars_impl (p q : ascii -> bool) (s : string) :
  (forall c, p c = true -> q c = true) -> allChars p s = true -> allChars q s = true.
Proof.
  intros Hpq. induction s as [|c s IH]; simpl; [reflexivity|].
  intros H. apply andb_true_iff in H as [Hc Hs]. now rewrite (Hpq _ Hc), IH.
Qed.

Lemma word_not_terminator (c : ascii) : isWordChar c = true -> notLineTerminator c = true.
Proof.
  intros H. apply not_white_not_terminator. now apply word_not_white.
Qed.

Lemma span_whole (p : ascii -> bool) (s : string) :
  allChars p s = true -> span p s = (s, EmptyString).
Proof.
  intros H. induction s as [|c s IH]; simpl; [reflexivity|].
  simpl in H. apply andb_true_iff in H as [Hc Hs]. now rewrite Hc, IH.
Qed.

(** A word, white space, then a text on one line that starts with something
    else than white space: the field expression reads the word and the text. *)
Lemma matchField_parts (w ws : string) (c : ascii) (r : string) :
  isWord w = true ->
  allChars isWhiteSpace ws = true -> ws <> EmptyString ->
  isWhiteSpace c = false ->
  oneLine (String c r) = true ->
  matchField (w ++ ws ++ String c r) = Some (w, String c r).
Proof.
  unfold isWord, oneLine. intros Hw Aw Nw Hc Hl.
  apply andb_true_iff in Hw as [Ew Wd].
  unfold matchField.
  assert (S1 : span isWordChar (w ++ ws ++ String c r) = (w, ws ++ String c r)).
  { apply span_run; [exact Wd|]. destruct ws as [|x ws]; [contradiction|].
    simpl. simpl in Aw. apply andb_true_iff in Aw as [Hx _]. now apply white_not_word. }
  rewrite S1.
  rewrite (span_run isWhiteSpace ws (String c r) Aw Hc).
  apply negb_true_iff in Ew. rewrite Ew.
  destruct ws as [|x ws]; [contradiction|]. cbn [isEmpty orb].
  now rewrite (span_whole _ _ Hl).
Qed.

Lemma trimEnd_app (a b : string) :
  trimEnd b = b -> b <> EmptyString -> trimEnd (a ++ b) = a ++ b.
Proof.
  intros Hb Nb. induction a as [|x a IH]; simpl; [exact Hb|].
  rewrite IH. destruct (a ++ b) eqn:E.
  - destruct a; simpl in E; [contradiction | discriminate].
  - simpl. now rewrite andb_false_r.
Qed.

Lemma fieldMapSuffix_end (name : string) :
  trimEnd (fieldMapSuffix name) = fieldMapSuffix name.
Proof.
  unfold fieldMapSuffix.
  change (" @map(" ++ String dquote (name ++ String dquote ")"))
    with (" @map(" ++ String dquote (name ++ String dquote (EmptyString ++ ")"))).
  replace (" @map(" ++ String dquote (name ++ String dquote (EmptyString ++ ")")))
    with ((" @map(" ++ String dquote (name ++ String dquote EmptyString)) ++ ")").
  - now apply trimEnd_end.
  - simpl. do 7 f_equal. now rewrite append_assoc.
Qed.

Lemma fieldMapSuffix_oneLine (name : string) :
  oneLine name = true -> oneLine (String "@" "map(" ++ String dquote (name ++ String dquote ")")) = true.
Proof.
  unfold oneLine. intros H. simpl. now rewrite allChars_app, H.
Qed.

Lemma trimStart_indent (indent : string) (c : ascii) (r : string) :
  allChars isWhiteSpace indent = true -> isWhiteSpace c = false ->
  trimStart (indent ++ String c r) = String c r.
Proof.
  intros Hi Hc. rewrite trimStart_span, (span_run isWhiteSpace indent (String c r) Hi Hc).
  reflexivity.
Qed.

Lemma app_nonempty (a b : string) : b <> EmptyString -> a ++ b <> EmptyString.
Proof. intros Nb. destruct a; simpl; [exact Nb | discriminate]. Qed.

(** The line written for a renamed field, as a later pass reads it: nothing
    to trim at its end, the new name as field name, and the annotation in
    the remainder. *)
Lemma annotated_line_shape (indent mapped rest name : string) :
  allChars isWhiteSpace indent = true ->
  isWord mapped = true ->
  oneLine rest = true -> oneLine name = true ->
  match rest with EmptyString => True | String c _ => isWhiteSpace c = false end ->
  let out := indent ++ (mapped ++ " ") ++ rest ++ fieldMapSuffix name in
  trimEnd out = out
  /\ trim out = mapped ++ " " ++ rest ++ fieldMapSuffix name
  /\ span isWhiteSpace out = (indent, mapped ++ " " ++ rest ++ fieldMapSuffix name)
  /\ exists fieldRest,
       matchField (trim out) = Some (mapped, fieldRest)
       /\ includes fieldRest "@map(" = true.
Proof.
  intros Hi Hw Lr Ln Hr out.
  assert (Hb : exists ws c r,
             mapped ++ " " ++ rest ++ fieldMapSuffix name = mapped ++ ws ++ String c r
             /\ allChars isWhiteSpace ws = true /\ ws <> EmptyString
             /\ isWhiteSpace c = false /\ oneLine (String c r) = true
             /\ includes (String c r) "@map(" = true).
  { destruct rest as [|c r].
    - exists "  ", "@"%char, ("map(" ++ String dquote (name ++ String dquote ")")).
      split; [reflexivity|]. split; [reflexivity|]. split; [discriminate|].
      split; [reflexivity|]. split.
      + now apply fieldMapSuffix_oneLine.
      + exact (includes_app EmptyString "@map(" (String dquote (name ++ String dquote ")"))).
    - exists " ", c, (r ++ fieldMapSuffix name).
      split; [reflexivity|]. split; [reflexivity|]. split; [discriminate|].
      split; [assumption|]. split.
      + unfold oneLine in *. change (String c (r ++ fieldMapSuffix name))
          with (String c r ++ " " ++ String "@" "map(" ++ String dquote (name ++ String dquote ")")).
        rewrite allChars_app, Lr. simpl. apply (fieldMapSuffix_oneLine name Ln).
      + replace (String c (r ++ fieldMapSuffix name))
          with ((String c r ++ " ") ++ "@map(" ++ String dquote (name ++ String dquote ")")).
        * apply includes_app.
        * now rewrite append_assoc. }
  destruct Hb as (ws & c & r & E & Aw & Nw & Hc & Hl & Hinc).
  pose proof (matchField_parts mapped ws c r Hw Aw Nw Hc Hl) as Hf. rewrite <- E in Hf.
  assert (Hend : trimEnd out = out).
  { unfold out. assert (Ns : fieldMapSuffix name <> EmptyString) by discriminate.
    pose proof (fieldMapSuffix_end name) as Es.
    pose proof (trimEnd_app rest _ Es Ns) as E1.
    pose proof (trimEnd_app (mapped ++ " ") _ E1 (app_nonempty rest _ Ns)) as E2.
    exact (trimEnd_app indent _ E2 (app_nonempty _ _ (app_nonempty rest _ Ns))). }
  assert (Hsp : span isWhiteSpace out = (indent, mapped ++ " " ++ rest ++ fieldMapSuffix name)).
  { unfold out. rewrite append_assoc.
    unfold isWord in Hw. apply andb_true_iff in Hw as [Ew Wd].
    destruct mapped as [|m mapped']; [discriminate|].
    simpl in Wd. apply andb_true_iff in Wd as [Hm _].
    apply (span_run isWhiteSpace indent _ Hi). exact (word_not_white m Hm). }
  assert (Ht : trim out = mapped ++ " " ++ rest ++ fieldMapSuffix name).
  { unfold trim. rewrite Hend, trimStart_span, Hsp. reflexivity. }
  split; [exact Hend|]. split; [exact Ht|]. split; [exact Hsp|].
  exists (String c r). rewrite Ht. split; [exact Hf | exact Hinc].
Qed.

Lemma annotated_line_stable (lib : NameLib) (tableMap columnMap : Map) (st : State)
    (following : list string) (indent mapped rest name : string) :
  allChars isWhiteSpace indent = true ->
  isWord mapped = true -> mapped <> "model" ->
  oneLine rest = true -> oneLine name = true ->
  match rest with EmptyString => True | String c _ => isWhiteSpace c = false end ->
  let out := indent ++ (mapped ++ " ") ++ rest ++ fieldMapSuffix name in
  step lib tableMap columnMap st out following = (st, [out]).
Proof.
  intros Hi Hw Nm Lr Ln Hr out.
  destruct (annotated_line_shape indent mapped rest name Hi Hw Lr Ln Hr)
    as (Hend & Ht & _ & fieldRest & Hf & Hinc).
  fold out in Hend, Ht, Hf.
  assert (Htr : trimmedOf out = trim out) by (unfold trimmedOf; now rewrite Hend).
  assert (Hh : matchModelHeader (trimmedOf out) = None).
  { destruct (matchModelHeader (trimmedOf out)) as [model|] eqn:Eh; [|reflexivity].
    rewrite Htr in Eh. elim Nm. exact (header_reads_model _ _ _ _ Eh Hf). }
  rewrite <- Htr in Hf.
  rewrite (step_field lib tableMap columnMap st out following _ _ Hh Hf).
  unfold lineOf. rewrite Hend. rewrite Htr in Hf.
  rewrite (fieldLine_annotated lib columnMap (tableOf st) out _ _ Hf Hinc).
  now destruct (inModelBlock st && truthy (currentModel st) && truthy (currentTable st)).
Qed.

End SecondPass.

(** X7.  The line written for a renamed field is a fixed point of any later
    pass: when the rewritten name is a word other than [model] and the line
    has no line terminator, one more step over the output line, from any
    state of the cursor and with any catalog and naming library, pushes
    exactly that line and leaves the cursor as it is. *)
Theorem X7_renamed_field_is_stable (lib : NameLib) (columnMap : Map)
    (table raw name fieldRest : string) :
  matchField (trimmedOf raw) = Some (name, fieldRest) ->
  includes fieldRest "@map(" = false ->
  shouldTransform name = true ->
  camelCase lib name <> name ->
  oneLine (lineOf raw) = true ->
  isWord (orElse (mapGet columnMap (table ++ "." ++ name)) (camelCase lib name)) = true ->
  orElse (mapGet columnMap (table ++ "." ++ name)) (camelCase lib name) <> "model" ->
  forall (lib' : NameLib) (tableMap' columnMap' : Map) (st : State) (following : list string),
    step lib' tableMap' columnMap' st (fieldLine lib columnMap table (lineOf raw)) following
    = (st, [fieldLine lib columnMap table (lineOf raw)]).
Proof.
  intros Hf Hm Hs Hc Hl Hw Nm lib' tableMap' columnMap' st following.
  destruct (fieldLine_renamed lib columnMap table raw name fieldRest Hf Hm Hs Hc)
    as (indent & ws & rest & El & Ai & Aw & Nw & Hr & Ef).
  set (mapped := orElse (mapGet columnMap (table ++ "." ++ name)) (camelCase lib name)) in *.
  assert (Hd : noDollar (mapped ++ " ") = true).
  { unfold noDollar. rewrite allChars_app. unfold isWord in Hw.
    apply andb_true_iff in Hw as [_ Wd].
    rewrite (allChars_impl isWordChar notDollar mapped); [reflexivity | | exact Wd].
    intros c. destruct c as [[] [] [] [] [] [] [] []]; vm_compute; congruence. }
  rewrite getSubstitution_noDollar in Ef by exact Hd.
  rewrite Ef. unfold oneLine in Hl. rewrite El, !allChars_app in Hl.
  apply andb_true_iff in Hl as [_ Hl]. apply andb_true_iff in Hl as [Ln Hl].
  apply andb_true_iff in Hl as [_ Lr].
  now apply annotated_line_stable.
Qed.

Lemma X7_renamed_field_is_stable_witness :
  step SpecLib.lib [] [] (inBlock "User" "users" false)
    ("  userId Int @default(0) @map(" ++ String dquote ("user_id" ++ String dquote ")")) []
  = (inBlock "User" "users" false,
     ["  userId Int @default(0) @map(" ++ String dquote ("user_id" ++ String dquote ")")]).
Proof.
  pose proof (X7_renamed_field_is_stable SpecLib.lib [("users.user_id", "userId")] "users"
                "  user_id   Int @default(0)  " "user_id" "Int @default(0)"
                ltac:(vm_compute; reflexivity) ltac:(vm_compute; reflexivity)
                ltac:(vm_compute; reflexivity) ltac:(vm_compute; discriminate)
                ltac:(vm_compute; reflexivity) ltac:(vm_compute; reflexivity)
                ltac:(vm_compute; discriminate)
                SpecLib.lib [] [] (inBlock "User" "users" false) []) as H.
  vm_compute in H. vm_compute. exact H.
Defined.

(* ================================================================== *)
(** ** Properties of the comment scripts *)
(* ================================================================== *)

Example comment_matchers_agree :
  forallb ReferenceComment.agreeOn ReferenceComment.subjects = true.
Proof. vm_compute. reflexivity. Qed.

Section CommentMatcherFacts.

Lemma mapNameAt_nonempty (s n : string) : mapNameAt s = Some n -> isEmpty n = false.
Proof.
  unfold mapNameAt. destruct (stripPrefix "@map" s) as [r0|]; [|discriminate].
  destruct (snd (span isWhiteSpace r0)) as [|c r2]; [discriminate|].
  destruct (Ascii.eqb_spec c "(") as [->|N].
  - destruct (snd (span isWhiteSpace r2)) as [|q r4]; [discriminate|].
    destruct (isQuote q); [|discriminate].
    destruct (span notQuote r4) as [name r5]. destruct r5 as [|x r6]; [discriminate|].
    destruct (isEmpty name) eqn:E; [discriminate|].
    destruct (startsWith _ _); [|discriminate]. intros H. now inversion H; subst.
  - intros H. exfalso. revert H.
    destruct c as [[] [] [] [] [] [] [] []]; try discriminate. now elim N.
Qed.

Lemma matchMapName_nonempty (s n : string) : matchMapName s = Some n -> isEmpty n = false.
Proof.
  induction s as [|c s IH]; cbn [matchMapName].
  - destruct (mapNameAt EmptyString) eqn:E; [|discriminate].
    intros H. inversion H; subst. exact (mapNameAt_nonempty _ _ E).
  - destruct (mapNameAt (String c s)) eqn:E; [|exact IH].
    intros H. inversion H; subst. exact (mapNameAt_nonempty _ _ E).
Qed.

Lemma commentAt_nonempty (s c : string) : commentAt s = Some c -> isEmpty c = false.
Proof.
  unfold commentAt. destruct (stripPrefix "///" s) as [r0|]; [|discriminate].
  destruct (stripPrefix "@comment" _) as [r1|]; [|discriminate].
  destruct (span isWhiteSpace r1) as [ws r2]. destruct r2 as [|x r2].
  - destruct ws as [|y ws']; [discriminate|].
    destruct (lastUnit ws') as [d|]; [|discriminate].
    destruct (notLineTerminator d); [|discriminate]. intros H. now inversion H.
  - destruct (_ && _); [|discriminate]. intros H. now inversion H.
Qed.

Lemma matchComment_nonempty (s c : string) : matchComment s = Some c -> isEmpty c = false.
Proof.
  induction s as [|x s IH]; cbn [matchComment].
  - destruct (commentAt EmptyString) eqn:E; [|discriminate].
    intros H. inversion H; subst. exact (commentAt_nonempty _ _ E).
  - destruct (commentAt (String x s)) eqn:E; [|exact IH].
    intros H. inversion H; subst. exact (commentAt_nonempty _ _ E).
Qed.

End CommentMatcherFacts.

Lemma filter_none (p : string -> bool) (l : list string) :
  forallb (fun x => negb (p x)) l = true -> filter p l = [].
Proof.
  induction l as [|x l IH]; cbn; [reflexivity|].
  intros H. apply andb_true_iff in H as [Hx Hl].
  apply negb_true_iff in Hx. rewrite Hx. now apply IH.
Qed.

Section ParsedModels.

Lemma tableMapping_nonempty (following : list string) (model : string) :
  isEmpty model = false -> isEmpty (Push.tableMapping following model) = false.
Proof.
  intros Hm. induction following as [|l r IH]; cbn [Push.tableMapping]; [exact Hm|].
  destruct (matchMapName (trim l)) as [n|] eqn:E.
  - exact (matchMapName_nonempty _ _ E).
  - now destruct (_ || _).
Qed.

Lemma tableComment_nonempty (n : nat) (following : list string) (c : string) :
  Push.tableComment n following = Some c -> isEmpty c = false.
Proof.
  revert following. induction n as [|n IH]; intros following; [now destruct following|].
  destruct following as [|l r]; [discriminate|]. cbn [Push.tableComment].
  destruct (matchComment (trim l)) as [c'|] eqn:E.
  - intros H. inversion H; subst. exact (matchComment_nonempty _ _ E).
  - destruct (startsWordSpace (trim l)); [discriminate | apply IH].
Qed.

Lemma parseField_wellFormed (line : string) (following : list string) (f : Push.Field.FieldInfo) :
  Push.parseField line following = Some f -> wellFormedField f = true.
Proof.
  unfold Push.parseField. destruct (matchField line) as [[name fieldRest]|] eqn:Ef; [|discriminate].
  destruct (_ && _); [|discriminate].
  set (found := match matchComment line with Some c => Some c | None => _ end).
  destruct (truthy found) eqn:Et; [|discriminate].
  intros H. inversion H; subst. unfold wellFormedField. cbn.
  rewrite (proj1 (matchField_word _ _ _ Ef)).
  assert (Hc : isEmpty (match matchMapName line with Some n => n | None => name end) = false).
  { destruct (matchMapName line) as [n|] eqn:Em; [exact (matchMapName_nonempty _ _ Em)|].
    pose proof (proj1 (matchField_word _ _ _ Ef)) as Hw. unfold isWord in Hw.
    apply andb_true_iff in Hw as [Hw _]. now apply negb_true_iff in Hw. }
  rewrite Hc. destruct found as [[|x c]|]; try discriminate. reflexivity.
Qed.

Lemma parse_step_wellFormed (st : Push.State) (raw : string) (following : list string) :
  wellFormedState st -> wellFormedState (Push.step st raw following).
Proof.
  intros [Hm Hc]. unfold Push.step. cbv zeta.
  destruct (matchModelHeader (trim raw)) as [name|] eqn:Eh.
  - split; [exact Hm|].
    pose proof (matchModelHeader_word _ _ Eh) as Hw.
    assert (Hn : isEmpty name = false).
    { unfold isWord in Hw. apply andb_true_iff in Hw as [Hw _]. now apply negb_true_iff in Hw. }
    pose proof (tableMapping_nonempty following name Hn) as Ht.
    pose proof (tableComment_nonempty 4 following) as Hk.
    destruct (Push.tableComment 4 following) as [c|];
      cbn [Push.currentModel]; unfold wellFormedModel;
      cbn [Push.Model.modelName Push.Model.tableName Push.Model.comment Push.Model.fields forallb]; rewrite Hw, Ht.
    + now rewrite (Hk c eq_refl).
    + reflexivity.
  - destruct (Push.inModelBlock st && String.eqb (trim raw) "}").
    + split; [|exact I]. cbn. destruct (Push.currentModel st) as [m|]; [|exact Hm].
      rewrite forallb_app, Hm. cbn. now rewrite Hc.
    + destruct (Push.currentModel st) as [m|] eqn:Em; [|split; [exact Hm | now rewrite Em]].
      destruct (Push.inModelBlock st); [|split; [exact Hm | now rewrite Em]].
      destruct (Push.parseField (trim raw) following) as [f|] eqn:Ef;
        [|split; [exact Hm | now rewrite Em]].
      split; [exact Hm|]. cbn. unfold wellFormedModel in *. cbn.
      apply andb_true_iff in Hc as [Hc Hf]. rewrite Hc, forallb_app, Hf. cbn.
      now rewrite (parseField_wellFormed _ _ _ Ef).
Qed.

Lemma parse_walk_wellFormed (st : Push.State) (lines : list string) :
  wellFormedState st -> wellFormedState (Push.walk st lines).
Proof.
  revert st. induction lines as [|l rest IH]; intros st H; cbn [Push.walk]; [exact H|].
  apply IH. now apply parse_step_wellFormed.
Qed.

(** The two counts of the loop: the Push.models pushed are closed blocks, and
    every one of them, like the current one, was opened by a header. *)
Lemma parse_walk_counts (st : Push.State) (lines : list string) :
  let st' := Push.walk st lines in
  length (Push.models st') <= length (Push.models st) + length (filter isCloseLine lines)
  /\ length (Push.models st') + match Push.currentModel st' with Some _ => 1 | None => 0 end
     <= length (Push.models st) + match Push.currentModel st with Some _ => 1 | None => 0 end
        + length (filter isHeaderLine lines).
Proof.
  revert st. induction lines as [|l rest IH]; intros st; cbn [Push.walk filter].
  - cbn. lia.
  - specialize (IH (Push.step st l rest)). cbv zeta in *.
    destruct IH as [H1 H2].
    assert (Hs : length (Push.models (Push.step st l rest))
                 <= length (Push.models st) + (if isCloseLine l then 1 else 0)
                 /\ length (Push.models (Push.step st l rest))
                    + match Push.currentModel (Push.step st l rest) with Some _ => 1 | None => 0 end
                    <= length (Push.models st) + match Push.currentModel st with Some _ => 1 | None => 0 end
                       + (if isHeaderLine l then 1 else 0)).
    { unfold Push.step, isHeaderLine, isCloseLine, trimmedOf, trim. cbv zeta.
      rewrite trimEnd_idempotent. fold (trim l).
      destruct (matchModelHeader (trim l)) as [name|] eqn:Eh.
      - cbn. destruct (Push.currentModel st); destruct (String.eqb (trim l) "}"); lia.
      - destruct (Push.inModelBlock st); cbn [andb].
        + destruct (String.eqb (trim l) "}"); cbn.
          * destruct (Push.currentModel st); cbn; rewrite ?length_app; cbn; lia.
          * destruct (Push.currentModel st) as [m|] eqn:Em; [|rewrite Em; lia].
            destruct (Push.parseField (trim l) rest); cbn; rewrite ?Em; lia.
        + destruct (Push.currentModel st) as [m|] eqn:Em; rewrite ?Em;
            destruct (String.eqb (trim l) "}"); lia. }
    destruct Hs as [S1 S2].
    destruct (isCloseLine l), (isHeaderLine l); cbn [length]; lia.
Qed.

End ParsedModels.

(** X12.  Whatever the schema text, every model that [parsePrismaSchema]
    returns has a word as name, a non-empty table name and a comment that is
    absent or non-empty, and every field recorded in it has a word as name, a
    non-empty column and a non-empty comment: a field without comment is
    never recorded. *)
Theorem X12_parsed_models_well_formed (schema : string) :
  forallb wellFormedModel (Push.parsePrismaSchema schema) = true.
Proof.
  unfold Push.parsePrismaSchema.
  apply (parse_walk_wellFormed Push.initialState). split; [reflexivity | exact I].
Qed.

(** X13.  [parsePrismaSchema] returns at most one model for every line that
    is a closing brace and at most one for every model header; a model whose
    block is never closed by such a line is dropped, and a schema without
    closing-brace line gives no model at all. *)
Theorem X13_models_are_closed_blocks (schema : string) :
  length (Push.parsePrismaSchema schema)
  <= length (filter isCloseLine (split "010"%char schema))
  /\ length (Push.parsePrismaSchema schema)
     <= length (filter isHeaderLine (split "010"%char schema))
  /\ (forallb (fun l => negb (isCloseLine l)) (split "010"%char schema) = true ->
      Push.parsePrismaSchema schema = []).
Proof.
  unfold Push.parsePrismaSchema.
  pose proof (parse_walk_counts Push.initialState (split "010"%char schema)) as [H1 H2].
  cbn in H1, H2. split; [exact H1|]. split; [lia|].
  intros Hn.
  rewrite (filter_none _ _ Hn) in H1. cbn in H1.
  destruct (Push.models _); [reflexivity | cbn in H1; lia].
Qed.

Lemma X13_models_are_closed_blocks_witness :
  Push.parsePrismaSchema ("model User {" ++ newline ++ "  id Int /// @comment key") = [].
Proof.
  apply (X13_models_are_closed_blocks
           ("model User {" ++ newline ++ "  id Int /// @comment key")).
  vm_compute. reflexivity.
Defined.

Section RoundTrip.

Lemma trim_trimEnd (s : string) : trim (trimEnd s) = trim s.
Proof. unfold trim. now rewrite trimEnd_idempotent. Qed.

Lemma tableMapLine_read (t : string) :
  t <> EmptyString -> allChars notQuote t = true ->
  matchMapName (trim (tableMapLine t)) = Some t
  /\ matchTableMap (trim (tableMapLine t)) = Some t
  /\ isCloseLine (tableMapLine t) = false.
Proof.
  intros Hne Hq.
  pose proof (mapNameAt_annotation EmptyString t EmptyString EmptyString dquote dquote
                eq_refl eq_refl eq_refl eq_refl Hq Hne) as Hat.
  cbn [append] in Hat.
  unfold isCloseLine. rewrite tableMapLine_trim.
  change ("@@map(" ++ String dquote (t ++ String dquote ")"))
    with (String "@" ("@map(" ++ String dquote (t ++ String dquote ")"))).
  split; [|split].
  - rewrite matchMapName_unfold.
    change (mapNameAt (String "@" ("@map(" ++ String dquote (t ++ String dquote ")"))))
      with (@None string).
    rewrite matchMapName_unfold. cbn [append] in *. now rewrite Hat.
  - cbn [matchTableMap]. exact Hat.
  - reflexivity.
Qed.

Lemma untilClose_closed (lines : list string) :
  match Pull.untilClose lines with
  | Some b => existsb isCloseLine lines = true /\ exists r, lines = (b ++ r)%list
  | None => existsb isCloseLine lines = false
  end.
Proof.
  induction lines as [|l r IH]; cbn [Pull.untilClose existsb]; [reflexivity|].
  unfold isCloseLine at 1 3. destruct (String.eqb (trim l) "}").
  - split; [reflexivity|]. now exists r.
  - destruct (Pull.untilClose r) as [b|].
    + destruct IH as [He [r' ->]]. split; [exact He|]. now exists r'.
    + exact IH.
Qed.

End RoundTrip.

(** X14.  The table annotation that dbMap.ts synthesizes after a header is
    read back by both comment scripts: on a header followed by that line,
    [parsePrismaSchema] opens a model with the annotated table, and the
    annotation loop of [syncMySQLComments] takes the annotated table when a
    later line closes the block.  When no line closes the block the latter
    searches no line at all and keeps the model name as table. *)
Theorem X14_table_annotation_is_read_back (raw model table : string) (rest : list string) :
  matchModelHeader (trim raw) = Some model ->
  table <> EmptyString -> allChars notQuote table = true ->
  (forall st,
     Push.currentModel (Push.step st raw (tableMapLine table :: rest))
     = Some {| Push.Model.modelName := model; Push.Model.tableName := table;
               Push.Model.comment := Push.tableComment 4 (tableMapLine table :: rest);
               Push.Model.fields := [] |})
  /\ (forall tableCommentsMap columnCommentsMap st,
        Pull.currentTable
          (fst (Pull.step tableCommentsMap columnCommentsMap st raw (tableMapLine table :: rest)))
        = Some (if existsb isCloseLine rest then table else model)).
Proof.
  intros Hh Hne Hq. destruct (tableMapLine_read table Hne Hq) as (Hm & Ht & Hc).
  split.
  - intros st. unfold Push.step. cbv zeta. rewrite Hh. cbn [Push.currentModel].
    cbn [Push.tableMapping]. now rewrite Hm.
  - intros tcm ccm st. unfold Pull.step. cbv zeta. rewrite trim_trimEnd, Hh.
    cbn [fst Pull.currentTable]. unfold Pull.blockLines. cbn [Pull.untilClose].
    unfold isCloseLine in Hc. rewrite Hc.
    pose proof (untilClose_closed rest) as Hu.
    destruct (Pull.untilClose rest) as [b|].
    + destruct Hu as [-> _]. cbn [Pull.findTableMap]. now rewrite Ht.
    + now rewrite Hu.
Qed.

Lemma X14_table_annotation_is_read_back_witness :
  Pull.currentTable
    (fst (Pull.step [] [] Pull.initialState "model OrderItem {"
            [tableMapLine "order_items"; "  id Int"; "}"]))
  = Some "order_items".
Proof.
  exact (proj2 (X14_table_annotation_is_read_back "model OrderItem {" "OrderItem" "order_items"
                  ["  id Int"; "}"]
                  ltac:(vm_compute; reflexivity) ltac:(discriminate)
                  ltac:(vm_compute; reflexivity))
           [] [] Pull.initialState).
Defined.

Section FieldRoundTrip.

Lemma includes_false_tail (c : ascii) (s pat : string) :
  includes (String c s) pat = false ->
  stripPrefix pat (String c s) = None /\ includes s pat = false.
Proof.
  unfold includes. rewrite findFirst_unfold.
  destruct (stripPrefix pat (String c s)); [discriminate|].
  destruct (findFirst s pat) as [[b a]|]; [discriminate|]. now split.
Qed.

Lemma includes_right (a b pat : string) :
  includes (a ++ b) pat = false -> includes b pat = false.
Proof.
  intros H. destruct (includes b pat) eqn:E; [|reflexivity].
  unfold includes in E. destruct (findFirst b pat) as [[x y]|] eqn:Ef; [|discriminate].
  apply findFirst_Some in Ef. subst b.
  rewrite <- append_assoc in H. now rewrite includes_app in H.
Qed.

(** The text [@map] has no space: it cannot start in a text without it and
    end after a space that follows this text. *)
Lemma no_straddle (r x : string) :
  stripPrefix "@map" r = None -> stripPrefix "@map" (r ++ String " " x) = None.
Proof.
  intros H.
  destruct r as [|c1 [|c2 [|c3 [|c4 r]]]]; cbn [stripPrefix append] in *;
    repeat match goal with
           | |- context [Ascii.eqb ?a ?b] => is_var b; destruct (Ascii.eqb a b)
           end; try reflexivity; try discriminate.
Qed.

Lemma mapNameAt_prefix (s : string) : stripPrefix "@map" s = None -> mapNameAt s = None.
Proof. unfold mapNameAt. now intros ->. Qed.

Lemma matchMapName_after (x b : string) :
  includes x "@map" = false -> matchMapName (x ++ String " " b) = matchMapName b.
Proof.
  induction x as [|c x IH]; intros H; cbn [append]; rewrite matchMapName_unfold.
  - now rewrite (mapNameAt_prefix (String " " b)).
  - destruct (includes_false_tail c x "@map" H) as [Hp Hx].
    pose proof (mapNameAt_prefix _ (no_straddle (String c x) b Hp)) as Hn.
    cbn [append] in Hn. rewrite Hn. now apply IH.
Qed.

Lemma includes_word (w r : string) :
  allChars isWordChar w = true ->
  includes r "@map" = false -> includes (w ++ String " " r) "@map" = false.
Proof.
  intros Hw Hr. induction w as [|c w IH]; cbn [append].
  - unfold includes in *. rewrite findFirst_unfold.
    change (stripPrefix "@map" (String " " r)) with (@None string).
    now destruct (findFirst r "@map") as [[? ?]|].
  - simpl in Hw. apply andb_true_iff in Hw as [Hc Hw]. specialize (IH Hw).
    unfold includes in *. rewrite findFirst_unfold.
    assert (Hp : stripPrefix "@map" (String c (w ++ String " " r)) = None).
    { cbn [stripPrefix]. destruct (Ascii.eqb_spec "@" c) as [<-|_]; [discriminate Hc | reflexivity]. }
    rewrite Hp. now destruct (findFirst (w ++ String " " r) "@map") as [[? ?]|].
Qed.

Lemma word_oneLine (w : string) : allChars isWordChar w = true -> oneLine w = true.
Proof. apply allChars_impl. exact word_not_terminator. Qed.

Lemma word_notQuote (w : string) : allChars isWordChar w = true -> allChars notQuote w = true.
Proof.
  apply allChars_impl. intros c.
  destruct c as [[] [] [] [] [] [] [] []]; vm_compute; congruence.
Qed.

(** The annotation at the end of the line written for a renamed field is the
    one that the mapping expression finds. *)
Lemma annotated_line_column (mapped rest name : string) :
  isWord mapped = true -> isWord name = true ->
  includes rest "@map" = false ->
  matchMapName (mapped ++ " " ++ rest ++ fieldMapSuffix name) = Some name.
Proof.
  unfold isWord. intros Hw Hn Hr.
  apply andb_true_iff in Hw as [_ Hw]. apply andb_true_iff in Hn as [En Hn].
  replace (mapped ++ " " ++ rest ++ fieldMapSuffix name)
    with ((mapped ++ " " ++ rest)
          ++ String " " ("@map(" ++ String dquote (name ++ String dquote ")"))).
  - rewrite matchMapName_after by now apply includes_word.
    rewrite matchMapName_unfold.
    pose proof (mapNameAt_annotation EmptyString name EmptyString EmptyString dquote dquote
                  eq_refl eq_refl eq_refl eq_refl (word_notQuote _ Hn)) as Hat.
    cbn [append] in Hat. cbn [append]. rewrite Hat; [reflexivity|].
    intros ->. discriminate En.
  - unfold fieldMapSuffix. rewrite !append_assoc. reflexivity.
Qed.

Lemma span_indent (indent w r : string) :
  allChars isWhiteSpace indent = true -> isWord w = true ->
  span isWhiteSpace (indent ++ w ++ r) = (indent, w ++ r).
Proof.
  unfold isWord. intros Hi Hw. apply andb_true_iff in Hw as [En Wn].
  destruct w as [|c w]; [discriminate|].
  simpl in Wn. apply andb_true_iff in Wn as [Hc _].
  apply (span_run isWhiteSpace indent (String c w ++ r) Hi). exact (word_not_white c Hc).
Qed.

(** The parts of the line written for a renamed field. *)
Lemma renamed_line_parts (lib : NameLib) (columnMap : Map)
    (table raw name fieldRest : string) :
  matchField (trimmedOf raw) = Some (name, fieldRest) ->
  includes fieldRest "@map(" = false ->
  shouldTransform name = true ->
  camelCase lib name <> name ->
  oneLine (lineOf raw) = true ->
  isWord (orElse (mapGet columnMap (table ++ "." ++ name)) (camelCase lib name)) = true ->
  exists indent ws rest,
    lineOf raw = indent ++ name ++ ws ++ rest
    /\ fieldLine lib columnMap table (lineOf raw)
       = indent
         ++ (orElse (mapGet columnMap (table ++ "." ++ name)) (camelCase lib name) ++ " ")
         ++ rest ++ fieldMapSuffix name
    /\ allChars isWhiteSpace indent = true
    /\ oneLine rest = true /\ oneLine name = true
    /\ match rest with EmptyString => True | String c _ => isWhiteSpace c = false end.
Proof.
  intros Hf Hm Hs Hc Hl Hw.
  destruct (fieldLine_renamed lib columnMap table raw name fieldRest Hf Hm Hs Hc)
    as (indent & ws & rest & El & Ai & Aw & Nw & Hr & Ef).
  set (mapped := orElse (mapGet columnMap (table ++ "." ++ name)) (camelCase lib name)) in *.
  assert (Hd : noDollar (mapped ++ " ") = true).
  { unfold noDollar. rewrite allChars_app. unfold isWord in Hw.
    apply andb_true_iff in Hw as [_ Wd].
    rewrite (allChars_impl isWordChar notDollar mapped); [reflexivity | | exact Wd].
    intros c. destruct c as [[] [] [] [] [] [] [] []]; vm_compute; congruence. }
  rewrite getSubstitution_noDollar in Ef by exact Hd.
  unfold oneLine in Hl. rewrite El, !allChars_app in Hl.
  apply andb_true_iff in Hl as [_ Hl]. apply andb_true_iff in Hl as [Ln Hl].
  apply andb_true_iff in Hl as [_ Lr].
  exists indent, ws, rest. repeat split; assumption.
Qed.

End FieldRoundTrip.

(** X15.  The column annotation that dbMap.ts appends to a renamed field is
    read back by both comment scripts.  When the original line has no other
    text [@map], on the line written for the field the annotation loop of
    [syncMySQLComments] looks the comment up under the table of the cursor
    and the original column name, and pushes the line after the comment, if
    any; [parsePrismaSchema] records the field exactly when the line or the
    next line has a comment, under its new name, with the original column
    name and that comment. *)
Theorem X15_column_annotation_is_read_back (lib : NameLib) (columnMap : Map)
    (table raw name fieldRest : string) :
  matchField (trimmedOf raw) = Some (name, fieldRest) ->
  includes fieldRest "@map(" = false ->
  shouldTransform name = true ->
  camelCase lib name <> name ->
  oneLine (lineOf raw) = true ->
  includes (lineOf raw) "@map" = false ->
  isWord (orElse (mapGet columnMap (table ++ "." ++ name)) (camelCase lib name)) = true ->
  orElse (mapGet columnMap (table ++ "." ++ name)) (camelCase lib name) <> "model" ->
  (forall tableCommentsMap columnCommentsMap model dbTable following,
     model <> EmptyString -> dbTable <> EmptyString ->
     Pull.step tableCommentsMap columnCommentsMap
       {| Pull.currentModel := Some model; Pull.currentTable := Some dbTable;
          Pull.inModelBlock := true |}
       (fieldLine lib columnMap table (lineOf raw)) following
     = ({| Pull.currentModel := Some model; Pull.currentTable := Some dbTable;
           Pull.inModelBlock := true |},
        Pull.withComment (mapGet columnCommentsMap (dbTable ++ "." ++ name))
          (indentationOf (lineOf raw)) (fieldLine lib columnMap table (lineOf raw))))
  /\ (forall following,
        Push.parseField (trim (fieldLine lib columnMap table (lineOf raw))) following
        = match
            match matchComment (trim (fieldLine lib columnMap table (lineOf raw))) with
            | Some c => Some c
            | None =>
                match following with
                | next :: _ => matchComment (trim next)
                | [] => None
                end
            end
          with
          | Some c =>
              Some {| Push.Field.fieldName :=
                        orElse (mapGet columnMap (table ++ "." ++ name)) (camelCase lib name);
                      Push.Field.dbColumn := name;
                      Push.Field.comment := c |}
          | None => None
          end).
Proof.
  intros Hf Hm Hs Hc Hl Hi Hw Nm.
  destruct (renamed_line_parts lib columnMap table raw name fieldRest Hf Hm Hs Hc Hl Hw)
    as (indent & ws & rest & El & Ef & Ai & Lr & Ln & Hr).
  set (mapped := orElse (mapGet columnMap (table ++ "." ++ name)) (camelCase lib name)) in *.
  destruct (annotated_line_shape indent mapped rest name Ai Hw Lr Ln Hr)
    as (Hend & Ht & Hsp & fieldRest' & Hf' & Hinc).
  rewrite <- Ef in Hend, Ht, Hsp, Hf'.
  set (out := fieldLine lib columnMap table (lineOf raw)) in *.
  assert (Hname : isWord name = true) by exact (proj1 (matchField_word _ _ _ Hf)).
  assert (Hrest : includes rest "@map" = false).
  { rewrite El in Hi. apply (includes_right (indent ++ name ++ ws) rest).
    now rewrite !append_assoc. }
  pose proof (annotated_line_column mapped rest name Hw Hname Hrest) as Hcol.
  rewrite <- Ht in Hcol.
  assert (Hindent : indentationOf (lineOf raw) = indent).
  { unfold indentationOf. rewrite El. now rewrite (span_indent indent name _ Ai Hname). }
  destruct (matchField_head _ _ _ Hf') as (c & r & Etr & Hcw).
  destruct (word_head_plain c r Hcw) as (Hsl & Hcl & _).
  split.
  - intros tcm ccm model dbTable following Hmo Hta.
    unfold Pull.step. cbv zeta. rewrite Hend.
    assert (Hh : matchModelHeader (trim out) = None).
    { destruct (matchModelHeader (trim out)) as [m|] eqn:Eh; [|reflexivity].
      elim Nm. exact (header_reads_model _ _ _ _ Eh Hf'). }
    rewrite Hh, Hf', Hcol.
    cbn [Pull.inModelBlock Pull.currentModel Pull.currentTable Pull.tableOf andb].
    rewrite Etr in *. rewrite Hcl, Hsl.
    destruct model; [congruence|]. destruct dbTable as [|d dbTable]; [congruence|].
    cbn [truthy andb negb isEmpty].
    assert (Hbc : startsWith (String c r) "/*" = false).
    { unfold startsWith. cbn [stripPrefix].
      destruct (Ascii.eqb_spec "/" c) as [<-|_]; [discriminate Hcw | reflexivity]. }
    rewrite Hbc. cbn [negb andb].
    unfold indentationOf at 1. rewrite Hsp, Hindent. reflexivity.
  - intros following. unfold Push.parseField. rewrite Hf', Hcol.
    assert (Hg : negb (startsWith (trim out) "//") && negb (isEmpty (trim out)) = true)
      by (rewrite Etr, Hsl; reflexivity).
    rewrite Hg. cbv zeta.
    set (found := match matchComment (trim out) with
                  | Some c => Some c
                  | None => match following with
                            | next :: _ => matchComment (trim next)
                            | [] => None
                            end
                  end).
    assert (Hne : forall c, found = Some c -> isEmpty c = false).
    { intros c0. unfold found.
      destruct (matchComment (trim out)) as [c1|] eqn:E1.
      - intros H. inversion H; subst. exact (matchComment_nonempty _ _ E1).
      - destruct following as [|next rest']; [discriminate|].
        intros H. exact (matchComment_nonempty _ _ H). }
    destruct found as [[|x c']|].
    + specialize (Hne EmptyString eq_refl). discriminate Hne.
    + reflexivity.
    + reflexivity.
Qed.

Lemma X15_column_annotation_is_read_back_witness :
  Pull.step [] [("users.user_id", "the key")]
    {| Pull.currentModel := Some "User"; Pull.currentTable := Some "users";
       Pull.inModelBlock := true |}
    ("  userId Int @id @map(" ++ String dquote ("user_id" ++ String dquote ")")) []
  = ({| Pull.currentModel := Some "User"; Pull.currentTable := Some "users";
        Pull.inModelBlock := true |},
     ["  /* @comment the key */";
      "  userId Int @id @map(" ++ String dquote ("user_id" ++ String dquote ")")])
  /\ Push.parseField
       ("userId Int @id @map(" ++ String dquote ("user_id" ++ String dquote ")"))
       ["  /// @comment the key"; "}"]
     = Some {| Push.Field.fieldName := "userId"; Push.Field.dbColumn := "user_id";
               Push.Field.comment := "the key" |}.
Proof.
  destruct (X15_column_annotation_is_read_back SpecLib.lib [] "users"
              "  user_id   Int @id  " "user_id" "Int @id"
              ltac:(vm_compute; reflexivity) ltac:(vm_compute; reflexivity)
              ltac:(vm_compute; reflexivity) ltac:(vm_compute; discriminate)
              ltac:(vm_compute; reflexivity) ltac:(vm_compute; reflexivity)
              ltac:(vm_compute; reflexivity) ltac:(vm_compute; discriminate))
    as [Hpull Hpush].
  split.
  - pose proof (Hpull [] [("users.user_id", "the key")] "User" "users" []
                  ltac:(discriminate) ltac:(discriminate)) as H.
    vm_compute in H. vm_compute. exact H.
  - pose proof (Hpush ["  /// @comment the key"; "}"]) as H.
    vm_compute in H. vm_compute. exact H.
Defined.

Section AnnotationLoop.

Variables tableCommentsMap columnCommentsMap : Map.

Lemma withComment_commented (key : string) (m : Map) (raw : string) :
  m = tableCommentsMap \/ m = columnCommentsMap ->
  commented tableCommentsMap columnCommentsMap raw
    (Pull.withComment (mapGet m key) (indentationOf (trimEnd raw)) (trimEnd raw)).
Proof.
  intros Hm. unfold Pull.withComment.
  destruct (mapGet m key) as [[|c r]|] eqn:E; cbn [truthy orElse]; try (now left).
  right. exists key, (String c r). split; [|split; [discriminate | reflexivity]].
  destruct Hm as [->| ->]; [now left | now right].
Qed.

Lemma pull_step_commented (st : Pull.State) (raw : string) (following : list string) :
  commented tableCommentsMap columnCommentsMap raw
    (snd (Pull.step tableCommentsMap columnCommentsMap st raw following)).
Proof.
  unfold Pull.step. cbv zeta.
  destruct (matchModelHeader (trim (trimEnd raw))) as [model|].
  - cbn [snd]. apply withComment_commented. now left.
  - destruct (Pull.inModelBlock st && String.eqb (trim (trimEnd raw)) "}"); [now left|].
    destruct (Pull.inModelBlock st && truthy (Pull.currentModel st)
              && truthy (Pull.currentTable st)); [|now left].
    destruct (matchField (trim (trimEnd raw))) as [[fieldName fieldRest]|]; [|now left].
    destruct (_ && _); [|now left].
    cbn [snd]. apply withComment_commented. now right.
Qed.

Lemma pull_step_plain (st : Pull.State) (raw : string) (following : list string) :
  (forall k, truthy (mapGet tableCommentsMap k) = false) ->
  (forall k, truthy (mapGet columnCommentsMap k) = false) ->
  snd (Pull.step tableCommentsMap columnCommentsMap st raw following) = [trimEnd raw].
Proof.
  intros Ht Hc. unfold Pull.step. cbv zeta.
  destruct (matchModelHeader (trim (trimEnd raw))) as [model|].
  - cbn [snd]. unfold Pull.withComment. now rewrite Ht.
  - destruct (Pull.inModelBlock st && String.eqb (trim (trimEnd raw)) "}"); [reflexivity|].
    destruct (Pull.inModelBlock st && truthy (Pull.currentModel st)
              && truthy (Pull.currentTable st)); [|reflexivity].
    destruct (matchField (trim (trimEnd raw))) as [[fieldName fieldRest]|]; [|reflexivity].
    destruct (_ && _); [|reflexivity].
    cbn [snd]. unfold Pull.withComment. now rewrite Hc.
Qed.

Lemma pull_walk_plain (st : Pull.State) (lines : list string) :
  (forall k, truthy (mapGet tableCommentsMap k) = false) ->
  (forall k, truthy (mapGet columnCommentsMap k) = false) ->
  snd (Pull.walk tableCommentsMap columnCommentsMap st lines) = map trimEnd lines.
Proof.
  intros Ht Hc. revert st. induction lines as [|l rest IH]; intros st; cbn [Pull.walk map].
  - reflexivity.
  - pose proof (pull_step_plain st l rest Ht Hc) as Hs.
    destruct (Pull.step tableCommentsMap columnCommentsMap st l rest) as [st' out].
    specialize (IH st').
    destruct (Pull.walk tableCommentsMap columnCommentsMap st' rest) as [st'' outs].
    cbn [snd] in *. now rewrite Hs, IH.
Qed.

Lemma pull_step_invariant (st : Pull.State) (raw : string) (following : list string) :
  pullInvariant st ->
  pullInvariant (fst (Pull.step tableCommentsMap columnCommentsMap st raw following)).
Proof.
  intros Hi. unfold Pull.step. cbv zeta.
  destruct (matchModelHeader (trim (trimEnd raw))) as [model|] eqn:Eh.
  - cbn [fst]. unfold pullInvariant.
    cbn [Pull.inModelBlock Pull.currentModel Pull.currentTable].
    pose proof (matchModelHeader_word _ _ Eh) as Hw. unfold isWord in Hw.
    apply andb_true_iff in Hw as [Hw _].
    destruct model as [|c model]; [discriminate|]. split; [reflexivity|].
    destruct (Pull.findTableMap (Pull.blockLines following)) as [n|] eqn:En; [|reflexivity].
    assert (Hn : isEmpty n = false).
    { clear -En. induction (Pull.blockLines following) as [|l r IH]; [discriminate|].
      cbn [Pull.findTableMap] in En.
      destruct (matchTableMap (trim l)) as [n'|] eqn:Em; [|now apply IH].
      inversion En; subst. unfold matchTableMap in Em.
      destruct (trim l) as [|x t]; [discriminate|].
      destruct (Ascii.eqb_spec x "@") as [->|N].
      - exact (mapNameAt_nonempty _ _ Em).
      - exfalso. revert Em. destruct x as [[] [] [] [] [] [] [] []]; try discriminate.
        now elim N. }
    now destruct n.
  - destruct (Pull.inModelBlock st && String.eqb (trim (trimEnd raw)) "}").
    + cbn [fst]. unfold pullInvariant. cbn. now split.
    + destruct (Pull.inModelBlock st && truthy (Pull.currentModel st)
                && truthy (Pull.currentTable st)); [|exact Hi].
      destruct (matchField (trim (trimEnd raw))) as [[fieldName fieldRest]|]; [|exact Hi].
      destruct (_ && _); exact Hi.
Qed.

Lemma pull_walk_invariant (st : Pull.State) (lines : list string) :
  pullInvariant st ->
  pullInvariant (fst (Pull.walk tableCommentsMap columnCommentsMap st lines)).
Proof.
  revert st. induction lines as [|l rest IH]; intros st Hi; cbn [Pull.walk]; [exact Hi|].
  pose proof (pull_step_invariant st l rest Hi) as Hs.
  destruct (Pull.step tableCommentsMap columnCommentsMap st l rest) as [st' out].
  specialize (IH st' Hs).
  destruct (Pull.walk tableCommentsMap columnCommentsMap st' rest) as [st'' outs].
  exact IH.
Qed.

End AnnotationLoop.

Section CommentMaps.

Lemma tableFold_values (todo : list (string * string)) (acc : Map) :
  (forall t c, In (t, c) todo -> c = EmptyString) ->
  (forall k v, In (k, v) acc -> v = EmptyString) ->
  forall k v,
    In (k, v) (fold_left (fun (m : Map) (t : string * string) => mapSet m (fst t) (snd t))
                 todo acc) ->
    v = EmptyString.
Proof.
  revert acc. induction todo as [|[t c] todo IH]; intros acc Ht Ha k v; cbn [fold_left].
  - apply Ha.
  - apply IH.
    + intros t' c' H. apply (Ht t' c'). now right.
    + intros k' v' H. cbn [fst snd] in H. apply In_mapSet in H as [H|[_ ->]].
      * exact (Ha _ _ H).
      * apply (Ht t c). now left.
Qed.

Lemma columnFold_values (todo : list (string * string * string)) (acc : Map) :
  (forall t col c, In (t, col, c) todo -> c = EmptyString) ->
  (forall k v, In (k, v) acc -> v = EmptyString) ->
  forall k v,
    In (k, v)
      (fold_left
         (fun (m : Map) (c : string * string * string) =>
            let key := fst (fst c) ++ "." ++ snd (fst c) in mapSet m key (snd c))
         todo acc) ->
    v = EmptyString.
Proof.
  revert acc. induction todo as [|[[t col] c] todo IH]; intros acc Ht Ha k v; cbn [fold_left].
  - apply Ha.
  - apply IH.
    + intros t' col' c' H. apply (Ht t' col' c'). now right.
    + intros k' v' H. cbv zeta in H. cbn [fst snd] in H.
      apply In_mapSet in H as [H|[_ ->]].
      * exact (Ha _ _ H).
      * apply (Ht t col c). now left.
Qed.

Lemma empty_values_falsy (m : Map) :
  (forall k v, In (k, v) m -> v = EmptyString) -> forall k, truthy (mapGet m k) = false.
Proof.
  intros H k. destruct (mapGet m k) as [v|] eqn:E; [|reflexivity].
  apply mapGet_In in E. now rewrite (H _ _ E).
Qed.

End CommentMaps.

(** X16.  The annotation loop of [syncMySQLComments] keeps every line, in
    order and without its trailing white space, and inserts nothing but
    block comments: what it pushes for a line is the line alone, or the line
    preceded by one comment line that carries a non-empty comment of one of
    the two maps and has the indentation of the line. *)
Theorem X16_only_comment_lines_are_inserted (tableCommentsMap columnCommentsMap : Map)
    (st : Pull.State) (lines : list string) :
  exists groups,
    Forall2 (commented tableCommentsMap columnCommentsMap) lines groups
    /\ snd (Pull.walk tableCommentsMap columnCommentsMap st lines) = concat groups.
Proof.
  revert st. induction lines as [|l rest IH]; intros st; cbn [Pull.walk].
  - exists []. split; [constructor | reflexivity].
  - pose proof (pull_step_commented tableCommentsMap columnCommentsMap st l rest) as Hs.
    destruct (Pull.step tableCommentsMap columnCommentsMap st l rest) as [st' out].
    destruct (IH st') as (groups & Hg & Eg).
    destruct (Pull.walk tableCommentsMap columnCommentsMap st' rest) as [st'' outs].
    cbn [snd] in *. exists (out :: groups). split; [now constructor|].
    cbn [concat]. now rewrite Eg.
Qed.

(** X17.  When every comment of the two catalogs is the empty text (or the
    catalogs are empty), the annotation of [syncMySQLComments] returns the
    cleaned schema with the trailing white space of each line removed and
    nothing inserted; when no line has trailing white space the text comes
    out as it went in. *)
Theorem X17_no_comment_no_change (cleanSchema : string)
    (tableComments : list (string * string))
    (columnComments : list (string * string * string)) :
  (forall t c, In (t, c) tableComments -> c = EmptyString) ->
  (forall t col c, In (t, col, c) columnComments -> c = EmptyString) ->
  Pull.annotate cleanSchema tableComments columnComments
  = join newline (map trimEnd (split "010"%char cleanSchema))
  /\ ((forall l, In l (split "010"%char cleanSchema) -> trimEnd l = l) ->
      Pull.annotate cleanSchema tableComments columnComments = cleanSchema).
Proof.
  intros Ht Hc.
  assert (E : Pull.annotate cleanSchema tableComments columnComments
              = join newline (map trimEnd (split "010"%char cleanSchema))).
  { unfold Pull.annotate. cbv zeta. rewrite pull_walk_plain; [reflexivity| |].
    - apply empty_values_falsy. unfold Pull.buildTableComments.
      apply tableFold_values; [exact Ht | intros k v []].
    - apply empty_values_falsy. unfold Pull.buildColumnComments.
      apply columnFold_values; [exact Hc | intros k v []]. }
  split; [exact E|].
  intros Hl. rewrite E, (map_fixed trimEnd _ Hl). apply join_split.
Qed.

Lemma X17_no_comment_no_change_witness :
  Pull.annotate
    (join newline ["model User {"; "  id Int @id  "; "}"]) [("User", EmptyString)] []
  = join newline ["model User {"; "  id Int @id"; "}"].
Proof.
  refine (eq_trans
            (proj1 (X17_no_comment_no_change
                      (join newline ["model User {"; "  id Int @id  "; "}"])
                      [("User", EmptyString)] [] _ _)) _).
  - intros t c [H|[]]. now inversion H.
  - intros t col c [].
  - vm_compute. reflexivity.
Defined.

(** X18.  The cursor of the annotation loop keeps its three variables in
    step: inside a block the model and the table are non-empty names, outside
    a block both are null.  A header always sets the table (the annotated
    name, which is never empty, or the model name), so the guard of the field
    branch holds on every line inside a block. *)
Theorem X18_annotation_cursor_invariant (tableCommentsMap columnCommentsMap : Map) :
  pullInvariant Pull.initialState
  /\ (forall st raw following,
        pullInvariant st ->
        pullInvariant (fst (Pull.step tableCommentsMap columnCommentsMap st raw following)))
  /\ (forall lines,
        pullInvariant
          (fst (Pull.walk tableCommentsMap columnCommentsMap Pull.initialState lines))).
Proof.
  split; [now split|]. split.
  - apply pull_step_invariant.
  - intros lines. apply pull_walk_invariant. now split.
Qed.

Lemma X18_annotation_cursor_invariant_witness :
  pullInvariant
    (fst (Pull.step [] [] Pull.initialState "model User {" ["  @@map('')"; "}"])).
Proof.
  apply (proj1 (proj2 (X18_annotation_cursor_invariant [] []))). now split.
Defined.

Section TableMappingLoop.

Lemma tableMapping_passed (before : list string) (rest : list string) (model : string) :
  forallb passedOver before = true ->
  Push.tableMapping (before ++ rest)%list model = Push.tableMapping rest model.
Proof.
  induction before as [|l before IH]; intros H; cbn [app]; [reflexivity|].
  cbn [forallb] in H. apply andb_true_iff in H as [Hl Hb].
  unfold passedOver, isCloseLine in Hl.
  apply andb_true_iff in Hl as [Hl H3]. apply andb_true_iff in Hl as [H1 H2].
  cbn [Push.tableMapping].
  destruct (matchMapName (trim l)); [discriminate|].
  apply negb_true_iff in H2, H3. rewrite H2, H3. now apply IH.
Qed.

End TableMappingLoop.

(** X19.  The table of a model of [parsePrismaSchema] is decided by the first
    line after the header that carries a mapping, is a closing brace or
    starts with a word followed by white space.  A mapping on that line gives
    the table, also when it is the column mapping of a field; a line without
    mapping keeps the model name, whatever follows: a table annotation after
    the first field is not seen. *)
Theorem X19_table_mapping_stops_at_first_field (before after : list string)
    (l model : string) :
  forallb passedOver before = true ->
  (forall n, matchMapName (trim l) = Some n ->
     Push.tableMapping (before ++ l :: after)%list model = n)
  /\ (matchMapName (trim l) = None ->
      isCloseLine l || startsWordSpace (trim l) = true ->
      Push.tableMapping (before ++ l :: after)%list model = model).
Proof.
  intros Hb. rewrite (tableMapping_passed before (l :: after) model Hb).
  cbn [Push.tableMapping]. unfold isCloseLine. split.
  - intros n ->. reflexivity.
  - intros -> ->. reflexivity.
Qed.

Lemma X19_table_mapping_stops_at_first_field_witness :
  Push.tableMapping
    ["  /// @comment the users"; EmptyString; "  id Int @id"; "  @@map('users')"; "}"] "User"
  = "User".
Proof.
  apply (proj2 (X19_table_mapping_stops_at_first_field
                  ["  /// @comment the users"; EmptyString] ["  @@map('users')"; "}"]
                  "  id Int @id" "User" ltac:(vm_compute; reflexivity)));
    vm_compute; reflexivity.
Defined.

Example cleaning_matchers_agree :
  forallb ReferenceClean.agreeOn ReferenceClean.subjects = true.
Proof. vm_compute. reflexivity. Qed.

Section CleaningFacts.

(** A pattern without white space cannot start in a text and end after a
    white space unit that follows the text. *)
Lemma stripPrefix_straddle (p r x : string) (c : ascii) :
  allChars (fun a => negb (isWhiteSpace a)) p = true ->
  isWhiteSpace c = true ->
  stripPrefix p r = None -> stripPrefix p (r ++ String c x) = None.
Proof.
  intros Hp Hc. revert r. induction p as [|a p IH]; intros r H; [discriminate|].
  simpl in Hp. apply andb_true_iff in Hp as [Ha Hp].
  destruct r as [|b r]; cbn [append stripPrefix] in *.
  - destruct (Ascii.eqb_spec a c) as [->|_]; [|reflexivity].
    rewrite Hc in Ha. discriminate.
  - destruct (Ascii.eqb a b); [now apply IH | reflexivity].
Qed.

Lemma includes_stripPrefix (s pat : string) :
  includes s pat = false -> stripPrefix pat s = None.
Proof.
  unfold includes. rewrite findFirst_unfold.
  now destruct (stripPrefix pat s).
Qed.

Lemma span_snd_app (p : ascii -> bool) (s : string) :
  exists w, s = w ++ snd (span p s) /\ allChars p w = true.
Proof.
  destruct (span p s) as [w r] eqn:E. exists w.
  split; [exact (span_app _ _ _ _ E) | exact (span_all _ _ _ _ E)].
Qed.

Lemma lineCommentAt_keyword (s r : string) :
  Clean.lineCommentAt s = Some r ->
  includes s "///" = true /\ includes s "@comment" = true.
Proof.
  unfold Clean.lineCommentAt.
  destruct (span_snd_app isWhiteSpace s) as (w0 & E0 & _).
  destruct (stripPrefix "///" (snd (span isWhiteSpace s))) as [r1|] eqn:E1; [|discriminate].
  apply stripPrefix_Some in E1.
  destruct (span_snd_app isWhiteSpace r1) as (w1 & E2 & _).
  destruct (stripPrefix "@comment" (snd (span isWhiteSpace r1))) as [r3|] eqn:E3;
    [|discriminate].
  apply stripPrefix_Some in E3. intros _.
  rewrite E3 in E2. rewrite E2 in E1. rewrite E1 in E0. split.
  - rewrite E0. apply includes_app.
  - rewrite E0. rewrite <- !append_assoc. rewrite append_assoc. apply includes_app.
Qed.

Lemma blockCommentAt_keyword (s r : string) :
  Clean.blockCommentAt s = Some r -> includes s "@comment" = true.
Proof.
  unfold Clean.blockCommentAt.
  destruct (span_snd_app isWhiteSpace s) as (w0 & E0 & _).
  destruct (stripPrefix "/*" (snd (span isWhiteSpace s))) as [r1|] eqn:E1; [|discriminate].
  apply stripPrefix_Some in E1.
  destruct (span_snd_app isWhiteSpace r1) as (w1 & E2 & _).
  destruct (stripPrefix "@comment" (snd (span isWhiteSpace r1))) as [r3|] eqn:E3;
    [|discriminate].
  apply stripPrefix_Some in E3. intros _.
  rewrite E3 in E2. rewrite E2 in E1. rewrite E1 in E0.
  rewrite E0. rewrite <- !append_assoc. rewrite append_assoc. apply includes_app.
Qed.

(** Where no match can start, nothing is removed. *)
Lemma removeAll_fixed (matchAt : string -> option string) (pat : string) :
  (forall t r, matchAt t = Some r -> includes t pat = true) ->
  forall fuel s, includes s pat = false -> Clean.removeAll matchAt fuel s = s.
Proof.
  intros Hm. induction fuel as [|fuel IH]; intros s Hs; cbn [Clean.removeAll]; [reflexivity|].
  destruct (matchAt s) as [r|] eqn:E.
  - rewrite (Hm _ _ E) in Hs. discriminate.
  - destruct s as [|c s]; [reflexivity|].
    now rewrite IH by exact (proj2 (includes_false_tail c s pat Hs)).
Qed.

Lemma cleanSchema_fixed (s : string) :
  includes s "@comment" = false -> Clean.cleanSchema s = s.
Proof.
  intros H. unfold Clean.cleanSchema. cbv zeta.
  rewrite (removeAll_fixed Clean.lineCommentAt "@comment"
             (fun t r E => proj2 (lineCommentAt_keyword t r E)) _ s H).
  exact (removeAll_fixed Clean.blockCommentAt "@comment" blockCommentAt_keyword _ s H).
Qed.

Lemma length_append (a b : string) :
  String.length (a ++ b) = String.length a + String.length b.
Proof. induction a as [|c a IH]; cbn; [reflexivity | now rewrite IH]. Qed.

Lemma span_snd_length (p : ascii -> bool) (s : string) :
  String.length (snd (span p s)) <= String.length s.
Proof.
  induction s as [|c s IH]; cbn [span]; [apply le_n|].
  destruct (p c); [|apply le_n].
  destruct (span p s). cbn [snd String.length] in *. lia.
Qed.

Lemma stripPrefix_length (p s r : string) :
  stripPrefix p s = Some r -> String.length s = String.length p + String.length r.
Proof.
  revert s. induction p as [|a p IH]; intros s; cbn [stripPrefix].
  - intros H. now inversion H.
  - destruct s as [|b s]; [discriminate|].
    destruct (Ascii.eqb a b); [|discriminate].
    intros H. cbn [String.length]. now rewrite (IH _ H).
Qed.

Lemma lineCommentAt_shorter (s r : string) :
  Clean.lineCommentAt s = Some r -> String.length r < String.length s.
Proof.
  unfold Clean.lineCommentAt.
  pose proof (span_snd_length isWhiteSpace s) as L0.
  destruct (stripPrefix "///" (snd (span isWhiteSpace s))) as [r1|] eqn:E1; [|discriminate].
  apply stripPrefix_length in E1. cbn [String.length] in E1.
  pose proof (span_snd_length isWhiteSpace r1) as L1.
  destruct (stripPrefix "@comment" (snd (span isWhiteSpace r1))) as [r3|] eqn:E3;
    [|discriminate].
  apply stripPrefix_length in E3.
  pose proof (span_snd_length isWhiteSpace r3) as L3.
  pose proof (span_snd_length notLineTerminator (snd (span isWhiteSpace r3))) as L4.
  intros H. inversion H; subst. lia.
Qed.

Lemma beforeLastTerminator_length (ws rest : string) :
  Clean.beforeLastTerminator ws = Some rest -> String.length rest <= String.length ws.
Proof.
  revert rest. induction ws as [|c ws IH]; intros rest; cbn [Clean.beforeLastTerminator];
    [discriminate|].
  destruct (Clean.beforeLastTerminator ws) as [x|].
  - intros H. inversion H; subst. specialize (IH _ eq_refl). cbn [String.length]. lia.
  - destruct (isLineTerminator c); [|discriminate]. intros H. inversion H; subst. apply le_n.
Qed.

Lemma trailingEnd_length (t rest : string) :
  Clean.trailingEnd t = Some rest -> String.length rest <= String.length t.
Proof.
  unfold Clean.trailingEnd. destruct (span isWhiteSpace t) as [ws r] eqn:E.
  pose proof (span_app _ _ _ _ E) as Ea.
  destruct r as [|c r].
  - intros H. inversion H; subst. cbn. lia.
  - destruct (Clean.beforeLastTerminator ws) as [x|] eqn:Eb; [|discriminate].
    intros H. inversion H; subst. apply beforeLastTerminator_length in Eb.
    rewrite !length_append. lia.
Qed.

Lemma closingEnd_shorter (s rest : string) :
  Clean.closingEnd s = Some rest -> String.length rest < String.length s.
Proof.
  assert (Hh : forall t,
             match stripPrefix "*/" t with
             | Some u => Clean.trailingEnd u
             | None => None
             end = Some rest -> String.length rest < String.length t).
  { intros t. destruct (stripPrefix "*/" t) as [u|] eqn:E; [|discriminate].
    apply stripPrefix_length in E. cbn [String.length] in E.
    intros H. apply trailingEnd_length in H. lia. }
  induction s as [|c s IH]; [exact (Hh EmptyString)|].
  cbn [Clean.closingEnd]. destruct (notLineTerminator c); [|exact (Hh (String c s))].
  destruct (Clean.closingEnd s) as [x|].
  - intros H. inversion H; subst. specialize (IH eq_refl). cbn [String.length]. lia.
  - exact (Hh (String c s)).
Qed.

Lemma blockCommentAt_shorter (s r : string) :
  Clean.blockCommentAt s = Some r -> String.length r < String.length s.
Proof.
  unfold Clean.blockCommentAt.
  pose proof (span_snd_length isWhiteSpace s) as L0.
  destruct (stripPrefix "/*" (snd (span isWhiteSpace s))) as [r1|] eqn:E1; [|discriminate].
  apply stripPrefix_length in E1. cbn [String.length] in E1.
  pose proof (span_snd_length isWhiteSpace r1) as L1.
  destruct (stripPrefix "@comment" (snd (span isWhiteSpace r1))) as [r3|] eqn:E3;
    [|discriminate].
  apply stripPrefix_length in E3.
  pose proof (span_snd_length isWhiteSpace r3) as L3.
  intros H. apply closingEnd_shorter in H. lia.
Qed.

(** The fuel of the replacement is enough: with more of it the result is the
    same. *)
Lemma removeAll_enough (matchAt : string -> option string) :
  (forall t r, matchAt t = Some r -> String.length r < String.length t) ->
  forall fuel fuel' s,
    String.length s < fuel -> String.length s < fuel' ->
    Clean.removeAll matchAt fuel s = Clean.removeAll matchAt fuel' s.
Proof.
  intros Hm. induction fuel as [|fuel IH]; intros fuel' s H1 H2; [lia|].
  destruct fuel' as [|fuel']; [lia|]. cbn [Clean.removeAll].
  destruct (matchAt s) as [r|] eqn:E.
  - apply Hm in E. apply IH; lia.
  - destruct s as [|c s]; [reflexivity|]. cbn [String.length] in *.
    f_equal. apply IH; lia.
Qed.

Lemma cleanSchema_enough (s : string) (n m : nat) :
  Clean.cleanSchema s
  = Clean.removeAll Clean.blockCommentAt
      (S (String.length (Clean.removeAll Clean.lineCommentAt (S (String.length s) + n) s)) + m)
      (Clean.removeAll Clean.lineCommentAt (S (String.length s) + n) s).
Proof.
  unfold Clean.cleanSchema. cbv zeta.
  rewrite (removeAll_enough Clean.lineCommentAt lineCommentAt_shorter
             (S (String.length s)) (S (String.length s) + n) s) by lia.
  apply (removeAll_enough Clean.blockCommentAt blockCommentAt_shorter); lia.
Qed.

End CleaningFacts.

(** X20.  The cleaning of [syncMySQLComments] touches nothing but comments
    with the keyword: a schema text in which [@comment] does not occur is
    left as it is by both replacements, and the run is the annotation of the
    text itself. *)
Theorem X20_cleaning_needs_the_keyword (originalSchema : string)
    (tableComments : list (string * string))
    (columnComments : list (string * string * string)) :
  includes originalSchema "@comment" = false ->
  Clean.cleanSchema originalSchema = originalSchema
  /\ syncMySQLComments originalSchema tableComments columnComments
     = Pull.annotate originalSchema tableComments columnComments.
Proof.
  intros H. unfold syncMySQLComments. rewrite (cleanSchema_fixed _ H). now split.
Qed.

Lemma X20_cleaning_needs_the_keyword_witness :
  Clean.cleanSchema "model User { // comment /* users */" = "model User { // comment /* users */".
Proof.
  apply (X20_cleaning_needs_the_keyword "model User { // comment /* users */" [] []).
  vm_compute. reflexivity.
Defined.

Section InsertedComment.

Lemma trimEnd_white (t : string) : allChars isWhiteSpace t = true -> trimEnd t = EmptyString.
Proof.
  induction t as [|c t IH]; intros H; simpl; [reflexivity|].
  simpl in H. apply andb_true_iff in H as [Hc Ht]. now rewrite (IH Ht), Hc.
Qed.

Lemma trimEnd_tail (c : ascii) (t : string) :
  trimEnd (String c t) = String c t -> trimEnd t = t.
Proof.
  cbn [trimEnd]. cbv zeta.
  destruct (isWhiteSpace c && isEmpty (trimEnd t)); [discriminate|].
  intros H. injection H as H. exact H.
Qed.

Lemma trimEnd_suffix (a t : string) : trimEnd (a ++ t) = a ++ t -> trimEnd t = t.
Proof.
  induction a as [|c a IH]; cbn [append]; intros H; [exact H|].
  apply IH. exact (trimEnd_tail _ _ H).
Qed.

(** A non-empty text with nothing to trim at its end has a unit that is not
    white space. *)
Lemma trimmed_head (t : string) :
  trimEnd t = t -> t <> EmptyString ->
  exists w d r, t = w ++ String d r /\ allChars isWhiteSpace w = true /\ isWhiteSpace d = false.
Proof.
  intros Ht Hne. destruct (span isWhiteSpace t) as [w r] eqn:E.
  pose proof (span_app _ _ _ _ E) as Ea. pose proof (span_all _ _ _ _ E) as Hw.
  destruct r as [|d r].
  - exfalso. apply Hne. rewrite <- Ht. apply trimEnd_white. rewrite Ea.
    now rewrite allChars_app, Hw.
  - exists w, d, r. split; [exact Ea|]. split; [exact Hw|]. exact (span_stop _ _ _ _ _ E).
Qed.

Lemma span_white_head (w : string) (d : ascii) (r : string) :
  allChars isWhiteSpace w = true -> isWhiteSpace d = false ->
  snd (span isWhiteSpace (w ++ String d r)) = String d r.
Proof. intros Hw Hd. now rewrite (span_run isWhiteSpace w (String d r) Hw Hd). Qed.

Lemma keyword_not_white :
  allChars (fun a => negb (isWhiteSpace a)) "@comment" = true.
Proof. reflexivity. Qed.

(** No match of the second expression starts in a text without the keyword
    that ends with a unit other than white space, when white space and then a
    slash follow the text. *)
Lemma blockCommentAt_inside (t x : string) (x0 : ascii) (y : string) :
  t <> EmptyString -> trimEnd t = t ->
  includes t "@comment" = false ->
  isWhiteSpace x0 = true ->
  snd (span isWhiteSpace (String x0 x)) = String "/" y ->
  Clean.blockCommentAt (t ++ String x0 x) = None.
Proof.
  intros Hne Ht Hk Hx0 Hx. unfold Clean.blockCommentAt.
  destruct (trimmed_head t Ht Hne) as (w & d & r & -> & Hw & Hd).
  rewrite append_assoc. cbn [append].
  rewrite (span_white_head w d _ Hw Hd).
  destruct (stripPrefix "/*" (String d (r ++ String x0 x))) as [r1|] eqn:E1; [|reflexivity].
  cbn [stripPrefix] in E1.
  destruct (Ascii.eqb "/" d); [|discriminate].
  destruct r as [|s r].
  - cbn [append] in E1. destruct (Ascii.eqb_spec "*" x0) as [<-|_]; [discriminate Hx0 | discriminate].
  - cbn [append] in E1. destruct (Ascii.eqb "*" s); [|discriminate].
    inversion E1; subst r1; clear E1.
    assert (Hr : trimEnd r = r).
    { apply (trimEnd_suffix (w ++ String d (String s EmptyString))).
      rewrite append_assoc. exact Ht. }
    assert (Hkr : includes r "@comment" = false).
    { apply (includes_right (w ++ String d (String s EmptyString))).
      rewrite append_assoc. exact Hk. }
    destruct r as [|r0 r'].
    + cbn [append]. rewrite Hx. reflexivity.
    + destruct (trimmed_head (String r0 r') Hr ltac:(discriminate))
        as (w2 & d2 & r2 & E2 & Hw2 & Hd2).
      rewrite E2, append_assoc. cbn [append].
      rewrite (span_white_head w2 d2 _ Hw2 Hd2).
      assert (Hk2 : includes (String d2 r2) "@comment" = false).
      { apply (includes_right w2). rewrite <- E2. exact Hkr. }
      change (String d2 (r2 ++ String x0 x)) with (String d2 r2 ++ String x0 x).
      now rewrite (stripPrefix_straddle "@comment" (String d2 r2) x x0 keyword_not_white Hx0
                     (includes_stripPrefix _ _ Hk2)).
Qed.

(** The replacement passes over such a text. *)
Lemma removeAll_inside (t x : string) (x0 : ascii) (y : string) (fuel : nat) :
  trimEnd t = t ->
  includes t "@comment" = false ->
  isWhiteSpace x0 = true ->
  snd (span isWhiteSpace (String x0 x)) = String "/" y ->
  Clean.removeAll Clean.blockCommentAt (String.length t + fuel) (t ++ String x0 x)
  = t ++ Clean.removeAll Clean.blockCommentAt fuel (String x0 x).
Proof.
  intros Ht Hk Hx0 Hx. induction t as [|c t IH]; [reflexivity|].
  cbn [String.length Nat.add Clean.removeAll].
  rewrite (blockCommentAt_inside (String c t) x x0 y ltac:(discriminate) Ht Hk Hx0 Hx).
  cbn [append]. f_equal. apply IH.
  - exact (trimEnd_tail _ _ Ht).
  - exact (proj2 (includes_false_tail c t _ Hk)).
Qed.

Lemma beforeLastTerminator_none (ws : string) :
  allChars inlineSpace ws = true -> Clean.beforeLastTerminator ws = None.
Proof.
  induction ws as [|c ws IH]; intros H; cbn [Clean.beforeLastTerminator]; [reflexivity|].
  simpl in H. apply andb_true_iff in H as [Hc Hw]. rewrite (IH Hw).
  unfold inlineSpace, notLineTerminator in Hc. apply andb_true_iff in Hc as [_ Hc].
  apply negb_true_iff in Hc. now rewrite Hc.
Qed.

(** After the closing mark of a comment line: the match ends before the line
    break when the next line is not blank. *)
Lemma trailingEnd_line (indent : string) (d : ascii) (r : string) :
  allChars inlineSpace indent = true -> isWhiteSpace d = false ->
  Clean.trailingEnd (newline ++ indent ++ String d r) = Some (newline ++ indent ++ String d r).
Proof.
  intros Hi Hd. unfold Clean.trailingEnd.
  assert (Hw : allChars isWhiteSpace (newline ++ indent) = true).
  { cbn. apply (allChars_impl inlineSpace); [|exact Hi].
    intros c Hc. unfold inlineSpace in Hc. now apply andb_true_iff in Hc as [Hc _]. }
  replace (newline ++ indent ++ String d r) with ((newline ++ indent) ++ String d r)
    by now rewrite append_assoc.
  rewrite (span_run isWhiteSpace _ (String d r) Hw Hd).
  cbn [append newline Clean.beforeLastTerminator].
  now rewrite (beforeLastTerminator_none indent Hi).
Qed.

Lemma closingEnd_cons (c : ascii) (r : string) :
  Clean.closingEnd (String c r)
  = if notLineTerminator c then
      match Clean.closingEnd r with
      | Some rest => Some rest
      | None =>
          match stripPrefix "*/" (String c r) with
          | Some t => Clean.trailingEnd t
          | None => None
          end
      end
    else
      match stripPrefix "*/" (String c r) with
      | Some t => Clean.trailingEnd t
      | None => None
      end.
Proof. reflexivity. Qed.

(** The last closing mark of a line is the one the match ends with, when the
    trailing run succeeds after it. *)
Lemma closingEnd_last (u t rest : string) :
  oneLine u = true ->
  Clean.trailingEnd (newline ++ t) = Some rest ->
  Clean.closingEnd (u ++ "*/" ++ newline ++ t) = Some rest.
Proof.
  intros Hu Ht. induction u as [|c u IH].
  - cbn [append newline] in *. rewrite !closingEnd_cons.
    change (notLineTerminator "*") with true.
    change (notLineTerminator "/") with true.
    change (notLineTerminator "010") with false. cbv iota.
    change (stripPrefix "*/" (String "010" t)) with (@None string).
    change (stripPrefix "*/" (String "/" (String "010" t))) with (@None string).
    change (stripPrefix "*/" (String "*" (String "/" (String "010" t))))
      with (Some (String "010"%char t)).
    cbv iota. exact Ht.
  - unfold oneLine in *. simpl in Hu. apply andb_true_iff in Hu as [Hc Hu].
    specialize (IH Hu). cbn [append] in *. rewrite closingEnd_cons, Hc. now rewrite IH.
Qed.

Lemma span_white_oneLine (v y : string) :
  oneLine v = true ->
  exists u, snd (span isWhiteSpace (v ++ String "*" y)) = u ++ String "*" y
            /\ oneLine u = true.
Proof.
  intros Hv. induction v as [|c v IH].
  - exists EmptyString. split; reflexivity.
  - unfold oneLine in *. simpl in Hv. apply andb_true_iff in Hv as [Hc Hv].
    cbn [append span]. destruct (isWhiteSpace c).
    + destruct (IH Hv) as (u & Eu & Hu). exists u.
      destruct (span isWhiteSpace (v ++ String "*" y)). cbn [snd] in *. now split.
    + exists (String c v). split; [reflexivity|]. simpl. now rewrite Hc, Hv.
Qed.

(** The match of the second expression on an inserted comment line, from the
    white space before it. *)
Lemma blockCommentAt_comment (wx comment indent : string) (d : ascii) (r : string) :
  allChars isWhiteSpace wx = true -> oneLine comment = true ->
  allChars inlineSpace indent = true -> isWhiteSpace d = false ->
  Clean.blockCommentAt
    (wx ++ "/* @comment " ++ comment ++ " */" ++ newline ++ indent ++ String d r)
  = Some (newline ++ indent ++ String d r).
Proof.
  intros Hwx Hc Hi Hd. unfold Clean.blockCommentAt.
  set (next := newline ++ indent ++ String d r).
  set (tail := comment ++ " */" ++ next).
  assert (E1 : wx ++ "/* @comment " ++ tail = wx ++ String "/" ("* @comment " ++ tail))
    by reflexivity.
  rewrite E1, (span_white_head wx "/" _ Hwx eq_refl).
  assert (E2 : stripPrefix "/*" (String "/" ("* @comment " ++ tail))
               = Some (" @comment " ++ tail)) by reflexivity.
  rewrite E2.
  assert (E3 : snd (span isWhiteSpace (" @comment " ++ tail)) = "@comment " ++ tail)
    by reflexivity.
  rewrite E3.
  assert (E4 : stripPrefix "@comment" ("@comment " ++ tail) = Some (" " ++ tail))
    by reflexivity.
  rewrite E4.
  assert (Hv : oneLine (String " " (comment ++ " ")) = true).
  { unfold oneLine in *. simpl. now rewrite allChars_app, Hc. }
  destruct (span_white_oneLine (String " " (comment ++ " ")) ("/" ++ next) Hv)
    as (u & Eu & Hu).
  replace (" " ++ tail) with (String " " (comment ++ " ") ++ String "*" ("/" ++ next)).
  - rewrite Eu.
    exact (closingEnd_last u (indent ++ String d r) _ Hu (trailingEnd_line indent d r Hi Hd)).
  - unfold tail. cbn [append]. f_equal. now rewrite append_assoc.
Qed.

End InsertedComment.

Section CleanedText.

Lemma includes_left (a b pat : string) :
  includes (a ++ b) pat = false -> includes a pat = false.
Proof.
  intros H. destruct (includes a pat) eqn:E; [|reflexivity].
  unfold includes in E. destruct (findFirst a pat) as [[x y]|] eqn:Ef; [|discriminate].
  apply findFirst_Some in Ef. subst a.
  rewrite !append_assoc in H. now rewrite includes_app in H.
Qed.

(** The second replacement on a text with one inserted comment line. *)
Lemma removeAll_comment (p0 w indent comment indent' : string) (d : ascii) (r : string)
    (fuel : nat) :
  trimEnd p0 = p0 ->
  includes p0 "@comment" = false ->
  includes (indent' ++ String d r) "@comment" = false ->
  allChars isWhiteSpace w = true ->
  allChars isWhiteSpace indent = true -> oneLine comment = true ->
  allChars inlineSpace indent' = true -> isWhiteSpace d = false ->
  Clean.removeAll Clean.blockCommentAt (String.length p0 + S fuel)
    (p0 ++ (w ++ newline ++ indent) ++ "/* @comment " ++ comment ++ " */"
        ++ newline ++ indent' ++ String d r)
  = p0 ++ newline ++ indent' ++ String d r.
Proof.
  intros Hp Hk Hn Hw Hi Hc Hi' Hd.
  assert (Hwx : allChars isWhiteSpace (w ++ newline ++ indent) = true).
  { rewrite !allChars_app, Hw, Hi. reflexivity. }
  pose proof (blockCommentAt_comment _ comment indent' d r Hwx Hc Hi' Hd) as Hm.
  set (X := (w ++ newline ++ indent) ++ "/* @comment " ++ comment ++ " */"
            ++ newline ++ indent' ++ String d r) in *.
  assert (Hs : snd (span isWhiteSpace X)
               = String "/" ("* @comment " ++ comment ++ " */"
                             ++ newline ++ indent' ++ String d r)).
  { exact (span_white_head _ "/" _ Hwx eq_refl). }
  assert (Hx : exists x0 x, X = String x0 x /\ isWhiteSpace x0 = true).
  { unfold X. destruct w as [|w0 w'].
    - exists "010"%char. eexists. split; [reflexivity | reflexivity].
    - exists w0. eexists. split; [reflexivity|].
      simpl in Hw. now apply andb_true_iff in Hw as [Hw _]. }
  destruct Hx as (x0 & x & Ex & Hx0).
  rewrite Ex in *.
  rewrite (removeAll_inside p0 x x0 _ (S fuel) Hp Hk Hx0 Hs).
  cbn [Clean.removeAll]. rewrite Hm. f_equal.
  apply (removeAll_fixed Clean.blockCommentAt "@comment" blockCommentAt_keyword).
  unfold includes in *. rewrite findFirst_unfold.
  change (stripPrefix "@comment" (newline ++ indent' ++ String d r)) with (@None string).
  cbn [append newline].
  now destruct (findFirst (indent' ++ String d r) "@comment") as [[? ?]|].
Qed.

End CleanedText.

(** X21.  The cleaning removes a comment line that the annotation loop has
    inserted, together with the line break before it: when the text has no
    line comment mark, the keyword occurs neither before nor after the
    comment line, and the next line is not blank, what is left is the text
    before (without white space at its end), a line break and the text
    after, and the run annotates that text. *)
Theorem X21_inserted_comment_is_cleaned (prev indent comment indent' : string) (d : ascii)
    (r : string) (tableComments : list (string * string))
    (columnComments : list (string * string * string)) :
  includes (prev ++ newline ++ Pull.commentLine indent comment
                 ++ newline ++ indent' ++ String d r) "///" = false ->
  includes prev "@comment" = false ->
  includes (indent' ++ String d r) "@comment" = false ->
  allChars isWhiteSpace indent = true -> oneLine comment = true ->
  allChars inlineSpace indent' = true -> isWhiteSpace d = false ->
  Clean.cleanSchema (prev ++ newline ++ Pull.commentLine indent comment
                          ++ newline ++ indent' ++ String d r)
  = trimEnd prev ++ newline ++ indent' ++ String d r
  /\ syncMySQLComments (prev ++ newline ++ Pull.commentLine indent comment
                             ++ newline ++ indent' ++ String d r)
       tableComments columnComments
     = Pull.annotate (trimEnd prev ++ newline ++ indent' ++ String d r)
         tableComments columnComments.
Proof.
  intros Hl Hk Hn Hi Hc Hi' Hd.
  assert (E : Clean.cleanSchema (prev ++ newline ++ Pull.commentLine indent comment
                                      ++ newline ++ indent' ++ String d r)
              = trimEnd prev ++ newline ++ indent' ++ String d r).
  { unfold Clean.cleanSchema. cbv zeta.
    rewrite (removeAll_fixed Clean.lineCommentAt "///"
               (fun t r E => proj1 (lineCommentAt_keyword t r E)) _ _ Hl).
    destruct (trimEnd_strips prev) as (w & Ep & Hw).
    assert (Hk0 : includes (trimEnd prev) "@comment" = false).
    { apply (includes_left _ w). now rewrite <- Ep. }
    assert (Et : prev ++ newline ++ Pull.commentLine indent comment
                      ++ newline ++ indent' ++ String d r
                 = trimEnd prev ++ (w ++ newline ++ indent) ++ "/* @comment " ++ comment
                     ++ " */" ++ newline ++ indent' ++ String d r).
    { rewrite Ep at 1. unfold Pull.commentLine. now rewrite !append_assoc. }
    rewrite Et.
    set (X := (w ++ newline ++ indent) ++ "/* @comment " ++ comment
              ++ " */" ++ newline ++ indent' ++ String d r).
    rewrite length_append.
    replace (S (String.length (trimEnd prev) + String.length X))
      with (String.length (trimEnd prev) + S (String.length X)) by lia.
    apply removeAll_comment; try assumption. apply trimEnd_idempotent. }
  split; [exact E|]. unfold syncMySQLComments. now rewrite E.
Qed.

Lemma X21_inserted_comment_is_cleaned_witness :
  Clean.cleanSchema
    ("model User {  " ++ newline ++ "  /* @comment the key */" ++ newline ++ "  id Int @id")
  = "model User {" ++ newline ++ "  id Int @id".
Proof.
  exact (proj1 (X21_inserted_comment_is_cleaned "model User {  " "  " "the key" "  " "i"
                  "d Int @id" [] []
                  ltac:(vm_compute; reflexivity) ltac:(vm_compute; reflexivity)
                  ltac:(vm_compute; reflexivity) ltac:(vm_compute; reflexivity)
                  ltac:(vm_compute; reflexivity) ltac:(vm_compute; reflexivity)
                  ltac:(vm_compute; reflexivity))).
Defined.

Section LineComments.

Lemma includes_cons (c : ascii) (s pat : string) :
  includes s pat = true -> includes (String c s) pat = true.
Proof.
  unfold includes. intros H. rewrite findFirst_unfold.
  destruct (stripPrefix pat (String c s)); [reflexivity|].
  now destruct (findFirst s pat) as [[b a]|].
Qed.

Lemma commentAt_mark (s c : string) : commentAt s = Some c -> includes s "///" = true.
Proof.
  unfold commentAt. destruct (stripPrefix "///" s) as [r0|] eqn:E; [|discriminate].
  intros _. apply stripPrefix_Some in E. subst s.
  exact (includes_app EmptyString "///" r0).
Qed.

Lemma matchComment_mark (s : string) :
  includes s "///" = false -> matchComment s = None.
Proof.
  induction s as [|x s IH]; intros H; cbn [matchComment].
  - destruct (commentAt EmptyString) as [c|] eqn:E; [|reflexivity].
    apply commentAt_mark in E. rewrite E in H. discriminate.
  - destruct (commentAt (String x s)) as [c|] eqn:E.
    + apply commentAt_mark in E. rewrite E in H. discriminate.
    + apply IH. exact (proj2 (includes_false_tail x s _ H)).
Qed.

(** Every line of a text is a part of the text, and the first line starts
    it. *)
Lemma split_parts (sep : ascii) (s : string) :
  match split sep s with
  | [] => False
  | h :: t =>
      (exists b, s = h ++ b)
      /\ forall l, In l t -> exists a b, s = a ++ l ++ b
  end.
Proof.
  induction s as [|c r IH]; cbn [split].
  - split; [now exists EmptyString | intros l []].
  - destruct (split sep r) as [|h t]; [destruct IH|].
    destruct IH as [[b Eb] Ht].
    destruct (Ascii.eqb c sep).
    + split; [now exists (String c r)|].
      intros l [<-|H].
      * exists (String c EmptyString), b. cbn [append]. now rewrite <- Eb.
      * destruct (Ht l H) as (a & b2 & ->). now exists (String c a), b2.
    + split; [exists b; cbn [append]; now rewrite <- Eb|].
      intros l H. destruct (Ht l H) as (a & b2 & ->). now exists (String c a), b2.
Qed.

Lemma split_part (sep : ascii) (s l : string) :
  In l (split sep s) -> exists a b, s = a ++ l ++ b.
Proof.
  pose proof (split_parts sep s) as H. destruct (split sep s) as [|h t]; [destruct H|].
  destruct H as [[b Eb] Ht]. intros [<-|Hl].
  - now exists EmptyString, b.
  - now apply Ht.
Qed.

Lemma trim_part (s : string) : exists a b, s = a ++ trim s ++ b.
Proof.
  unfold trim. destruct (trimEnd_strips s) as (w & Es & _).
  destruct (span_snd_app isWhiteSpace (trimEnd s)) as (w0 & E0 & _).
  rewrite <- trimStart_span in E0.
  exists w0, w. rewrite <- append_assoc, <- E0. exact Es.
Qed.

Lemma includes_part (a l b pat : string) :
  includes (a ++ l ++ b) pat = false -> includes l pat = false.
Proof.
  intros H. apply includes_right in H. now apply includes_left in H.
Qed.

(** No line of a text without the mark of a line comment has a comment. *)
Lemma lines_without_mark (schema : string) :
  includes schema "///" = false ->
  Forall (fun l => matchComment (trim l) = None) (split "010"%char schema).
Proof.
  intros H. apply Forall_forall. intros l Hl.
  destruct (split_part _ _ _ Hl) as (a & b & Es).
  destruct (trim_part l) as (a2 & b2 & El).
  apply matchComment_mark.
  apply (includes_part a2 (trim l) b2). rewrite <- El.
  apply (includes_part a l b). now rewrite <- Es.
Qed.

Lemma parseField_without_mark (line : string) (following : list string) :
  matchComment line = None ->
  match following with next :: _ => matchComment (trim next) = None | [] => True end ->
  Push.parseField line following = None.
Proof.
  intros H1 H2. unfold Push.parseField.
  destruct (matchField line) as [[name fieldRest]|]; [|reflexivity].
  destruct (_ && _); [|reflexivity].
  rewrite H1. destruct following as [|next r]; [reflexivity|]. now rewrite H2.
Qed.

Lemma tableComment_without_mark (n : nat) (following : list string) :
  Forall (fun l => matchComment (trim l) = None) following ->
  Push.tableComment n following = None.
Proof.
  revert following. induction n as [|n IH]; intros following H; [now destruct following|].
  destruct following as [|l r]; [reflexivity|]. cbn [Push.tableComment].
  inversion H as [|? ? H1 H2]; subst. rewrite H1.
  destruct (startsWordSpace (trim l)); [reflexivity|]. now apply IH.
Qed.

Lemma walk_without_mark (st : Push.State) (lines : list string) :
  Forall (fun l => matchComment (trim l) = None) lines ->
  forallb uncommented (Push.models st) = true ->
  match Push.currentModel st with Some m => uncommented m = true | None => True end ->
  forallb uncommented (Push.models (Push.walk st lines)) = true.
Proof.
  revert st. induction lines as [|l rest IH]; intros st Hl Hm Hc; cbn [Push.walk];
    [exact Hm|].
  inversion Hl as [|? ? H1 H2]; subst.
  assert (Hf : Push.parseField (trim l) rest = None).
  { apply (parseField_without_mark (trim l) rest H1).
    destruct rest as [|next r]; [exact I|]. now inversion H2. }
  apply IH; [exact H2| |].
  - unfold Push.step. cbv zeta.
    destruct (matchModelHeader (trim l)); [exact Hm|].
    destruct (Push.inModelBlock st && String.eqb (trim l) "}").
    + cbn [Push.models]. destruct (Push.currentModel st) as [m|]; [|exact Hm].
      rewrite forallb_app, Hm. cbn. now rewrite Hc.
    + destruct (Push.currentModel st) as [m|]; [|exact Hm].
      destruct (Push.inModelBlock st); [|exact Hm].
      now rewrite Hf.
  - unfold Push.step. cbv zeta.
    destruct (matchModelHeader (trim l)) as [name|].
    + cbn [Push.currentModel]. unfold uncommented.
      cbn [Push.Model.comment Push.Model.fields].
      now rewrite (tableComment_without_mark 4 rest H2).
    + destruct (Push.inModelBlock st && String.eqb (trim l) "}"); [exact I|].
      destruct (Push.currentModel st) as [m|] eqn:Em; [|now rewrite Em].
      destruct (Push.inModelBlock st); [|now rewrite Em].
      rewrite Hf. now rewrite Em.
Qed.

End LineComments.

(** X22.  [parsePrismaSchema] reads comments only after the mark of a line
    comment: from a schema text in which [///] does not occur, every model
    comes out without comment and without field.  The block comments that the
    annotation loop of [syncMySQLComments] writes are not read. *)
Theorem X22_only_line_comments_are_read (schema : string) :
  includes schema "///" = false ->
  forallb uncommented (Push.parsePrismaSchema schema) = true.
Proof.
  intros H. unfold Push.parsePrismaSchema.
  apply walk_without_mark; [now apply lines_without_mark | reflexivity | exact I].
Qed.

Lemma X22_only_line_comments_are_read_witness :
  forallb uncommented
    (Push.parsePrismaSchema
       (join newline ["/* @comment all users */"; "model User {";
                      Pull.commentLine "  " "the key"; "  id Int @id"; "}"]))
  = true
  /\ Push.parsePrismaSchema
       (join newline ["/* @comment all users */"; "model User {";
                      Pull.commentLine "  " "the key"; "  id Int @id"; "}"])
     = [{| Push.Model.modelName := "User"; Push.Model.tableName := "User";
           Push.Model.comment := None; Push.Model.fields := [] |}].
Proof.
  split.
  - apply X22_only_line_comments_are_read. vm_compute. reflexivity.
  - vm_compute. reflexivity.
Defined.
